(** * Normalization layers of flax.nnx: a shallow embedding

    This development embeds [flax/nnx/nn/normalization.py] (and the small
    [RMSNorm] of [flax/nnx/examples/gemma/layers.py]) in Rocq and proves
    properties of the embedded functions.

    - Arrays are a dtype tag, a shape and row-major data over a scalar
      carrier [T].  The carrier and its arithmetic are an interface
      ([Scalar]): every definition of the layers is written once, over any
      instance.  Structural theorems (two layers compute the same array,
      what a call stores) hold for every instance, hence for any
      floating-point arithmetic packaged as one; theorems that need an order
      or algebra are proved at the instance of the real numbers.
    - The array engine (reductions, broadcasting, reshape, repeat, matmul)
      is outside the repository; it is modelled after NumPy's documented
      semantics.  On ill-shaped operands the engine raises; the model is
      total and the theorems carry the shape conditions explicitly.
    - [tuple(set)] is modelled by CPython's set object ([PySet]), because
      [_canonicalize_axes] returns its iteration order. *)

From Stdlib Require Import List ZArith Lia Bool Arith Sorted.
From Stdlib Require String.
Import String.StringSyntax.
Delimit Scope string_scope with string.
From Stdlib Require Import Reals Lra Psatz.
Import ListNotations.

Set Implicit Arguments.

(** ** CPython sets of integers *)

Module PySet.

Local Open Scope Z_scope.

(** [hash(i)] of a Python int: reduction modulo the Mersenne prime
    [2^61 - 1] with the sign kept, and [-1] is never a hash. *)
Definition py_hash (z : Z) : Z :=
  let h := Z.sgn z * (Z.abs z mod (2 ^ 61 - 1)) in
  if h =? -1 then -2 else h.

Definition LINEAR_PROBES : Z := 9.
Definition PERTURB_SHIFT : Z := 5.
Definition PySet_MINSIZE : Z := 8.

(** The table of a set: slot [i] holds a key or is unused.  No key is ever
    removed here, so there are no dummy entries and [fill = used]. *)
Record t := mk { table : list (option Z); fill : Z }.

Definition mask (tbl : list (option Z)) : Z := Z.of_nat (length tbl) - 1.

Definition slot (tbl : list (option Z)) (i : Z) : option Z :=
  nth (Z.to_nat i) tbl None.

Definition empty : t := mk (repeat None (Z.to_nat PySet_MINSIZE)) 0.

Inductive found := Active | Unused (i : Z).

(** The inner [do ... while (probes--)] of [set_add_entry]: entries
    [i, i+1, ..., i+probes]. *)
Fixpoint scan (tbl : list (option Z)) (key : Z) (i : Z) (probes : nat)
  : option found :=
  match slot tbl i with
  | None => Some (Unused i)
  | Some k =>
      if (py_hash k =? py_hash key) && (k =? key) then Some Active
      else match probes with
           | O => None
           | S p => scan tbl key (i + 1) p
           end
  end.

(** The outer [while (1)] of [set_add_entry]; [fuel] bounds the number of
    perturbation rounds. *)
Fixpoint lookkey (fuel : nat) (tbl : list (option Z)) (key : Z)
  (i perturb : Z) : option found :=
  match fuel with
  | O => None
  | S f =>
      let probes := if i + LINEAR_PROBES <=? mask tbl
                    then Z.to_nat LINEAR_PROBES else O in
      match scan tbl key i probes with
      | Some r => Some r
      | None =>
          let perturb' := Z.shiftr perturb PERTURB_SHIFT in
          lookkey f tbl key (Z.land (i * 5 + 1 + perturb') (mask tbl)) perturb'
      end
  end.

Definition probe_fuel (tbl : list (option Z)) : nat := 64 + length tbl.

Definition find (tbl : list (option Z)) (key : Z) : option found :=
  let h := py_hash key in
  lookkey (probe_fuel tbl) tbl key (Z.land h (mask tbl)) (h mod 2 ^ 64).

Fixpoint set_nth (A : Type) (l : list A) (n : nat) (x : A) : list A :=
  match l, n with
  | [], _ => []
  | _ :: r, O => x :: r
  | a :: r, S m => a :: set_nth r m x
  end.

(** [set_insert_clean]: the key is known to be absent. *)
Definition set_insert_clean (tbl : list (option Z)) (key : Z)
  : list (option Z) :=
  match find tbl key with
  | Some (Unused i) => set_nth tbl (Z.to_nat i) (Some key)
  | _ => tbl
  end.

(** Smallest power of two above [minused], from [PySet_MINSIZE]. *)
Fixpoint newsize (fuel : nat) (size minused : Z) : Z :=
  match fuel with
  | O => size
  | S f => if size <=? minused then newsize f (2 * size) minused else size
  end.

Definition keys (tbl : list (option Z)) : list Z :=
  flat_map (fun e => match e with Some k => [k] | None => [] end) tbl.

Definition set_table_resize (so : t) (minused : Z) : t :=
  let n := newsize 64 PySet_MINSIZE minused in
  mk (fold_left set_insert_clean (keys (table so))
        (repeat None (Z.to_nat n)))
     (fill so).

Definition set_add_entry (so : t) (key : Z) : t :=
  match find (table so) key with
  | Some (Unused i) =>
      let so' := mk (set_nth (table so) (Z.to_nat i) (Some key))
                    (fill so + 1) in
      if fill so' * 5 <? mask (table so) * 3 then so'
      else set_table_resize so'
             (if 50000 <? fill so' then fill so' * 2 else fill so' * 4)
  | _ => so
  end.

(** A set display or comprehension adds its elements left to right. *)
Definition of_list (l : list Z) : t := fold_left set_add_entry l empty.

(** Iteration walks the table from slot 0 upwards. *)
Definition to_tuple (so : t) : list Z := keys (table so).

End PySet.

(** ** [_canonicalize_axes] *)

(** [Axes]: a single int or a sequence of ints. *)
Inductive Axes := AxInt (a : Z) | AxSeq (l : list Z).

Definition axes_iter (axes : Axes) : list Z :=
  match axes with
  | AxInt a => [a]
  | AxSeq l => l
  end.

Definition canon_axis (rank : Z) (axis : Z) : Z :=
  if (axis <? 0)%Z then (rank + axis)%Z else axis.

Definition _canonicalize_axes (rank : nat) (axes : Axes) : list Z :=
  PySet.to_tuple
    (PySet.of_list (map (canon_axis (Z.of_nat rank)) (axes_iter axes))).

(** ** Scalars and dtypes *)

(** The floating-point dtypes of the engine. *)
Inductive Dtype := float16 | bfloat16 | float32 | float64.

Definition Dtype_eqb (a b : Dtype) : bool :=
  match a, b with
  | float16, float16 | bfloat16, bfloat16
  | float32, float32 | float64, float64 => true
  | _, _ => false
  end.

(** [jnp.promote_types] on the floating-point lattice. *)
Definition promote_types (a b : Dtype) : Dtype :=
  match a, b with
  | float64, _ | _, float64 => float64
  | float32, _ | _, float32 => float32
  | float16, float16 => float16
  | bfloat16, bfloat16 => bfloat16
  | _, _ => float32
  end.

(** The element type of arrays with the engine's arithmetic.  Every
    operation takes the dtype it is carried out in, so that an instance may
    round accordingly; [ssum] is the engine's reduction of a sequence of
    elements (its order of accumulation is the instance's business). *)
Class Scalar (T : Type) := {
  s0 : T;
  s1 : T;
  sadd : Dtype -> T -> T -> T;
  ssub : Dtype -> T -> T -> T;
  smul : Dtype -> T -> T -> T;
  sdiv : Dtype -> T -> T -> T;
  smaximum : Dtype -> T -> T -> T;
  ssqrt : Dtype -> T -> T;
  srsqrt : Dtype -> T -> T;
  ssum : Dtype -> list T -> T;
  sof_nat : Dtype -> nat -> T;
  sne0 : T -> bool;
  scast : Dtype -> T -> T
}.

(** The real numbers as scalars: exact arithmetic, every dtype alike. *)
#[export] Instance Scalar_R : Scalar R := {|
  s0 := 0%R;
  s1 := 1%R;
  sadd := fun _ => Rplus;
  ssub := fun _ => Rminus;
  smul := fun _ => Rmult;
  sdiv := fun _ => Rdiv;
  smaximum := fun _ => Rmax;
  ssqrt := fun _ => sqrt;
  srsqrt := fun _ x => (/ sqrt x)%R;
  ssum := fun _ l => fold_right Rplus 0%R l;
  sof_nat := fun _ => INR;
  sne0 := fun x => if Req_dec_T x 0%R then false else true;
  scast := fun _ x => x
|}.

(** ** Shapes and row-major indexing *)

Definition Shape := list nat.

Definition size (s : Shape) : nat := fold_right Nat.mul 1 s.

(** Offset of a multi-index in row-major order. *)
Fixpoint ravel (s : Shape) (idx : list nat) : nat :=
  match s, idx with
  | _ :: s', i :: idx' => i * size s' + ravel s' idx'
  | _, _ => 0
  end.

(** All multi-indices of a shape, in row-major order. *)
Fixpoint indices (s : Shape) : list (list nat) :=
  match s with
  | [] => [[]]
  | d :: s' => flat_map (fun i => map (cons i) (indices s')) (seq 0 d)
  end.

(** The multi-indices of a shape. *)
Definition valid (s : Shape) (idx : list nat) : Prop :=
  Forall2 (fun d i => i < d) s idx.

(** A shape that agrees with [s] except for axes of size 1: what
    broadcasts against [s] without changing it. *)
Definition sub_shape (s s' : Shape) : Prop :=
  Forall2 (fun d d' => d' = d \/ d' = 1) s s'.

(** Axes given relative to a rank: each in [-rank, rank). *)
Definition axes_in_range (rank : nat) (axes : list Z) : Prop :=
  Forall (fun a => - Z.of_nat rank <= a < Z.of_nat rank)%Z axes.

(** Python's [l[i] = v] on a list, for [0 <= i < len(l)]. *)
Fixpoint set_item (A : Type) (l : list A) (n : nat) (x : A) : list A :=
  match l, n with
  | [], _ => []
  | _ :: r, O => x :: r
  | a :: r, S m => a :: set_item r m x
  end.

(** Membership of a position in a tuple of canonical axes. *)
Definition is_axis (axes : list Z) (p : nat) : bool :=
  existsb (Z.eqb (Z.of_nat p)) axes.

(** ** Arrays *)

Section Arrays.

Context {T : Type} `{Scalar T}.

Record Array := mkArray { dtype : Dtype; shape : Shape; data : list T }.

Definition ndim (a : Array) : nat := length (shape a).

(** Well-formed arrays: as many elements as the shape says. *)
Definition wf (a : Array) : Prop := length (data a) = size (shape a).

Definition get (a : Array) (idx : list nat) : T :=
  nth (ravel (shape a) idx) (data a) s0.

Definition tabulate (d : Dtype) (s : Shape) (f : list nat -> T) : Array :=
  mkArray d s (map f (indices s)).

Definition full (d : Dtype) (s : Shape) (v : T) : Array :=
  mkArray d s (repeat v (size s)).

Definition zeros (s : Shape) (d : Dtype) : Array := full d s s0.
Definition ones (s : Shape) (d : Dtype) : Array := full d s s1.
Definition zeros_like (a : Array) : Array := zeros (shape a) (dtype a).

(** [jnp.asarray(x, dtype)]: conversion of every element. *)
Definition asarray (a : Array) (d : Dtype) : Array :=
  mkArray d (shape a) (map (scast d) (data a)).

(** [x.reshape(s)] keeps the row-major data; the engine requires
    [size s = size (shape x)]. *)
Definition reshape (a : Array) (s : Shape) : Array :=
  mkArray (dtype a) s (data a).

(** *** Broadcasting *)

(** The shape two operands broadcast to: the shorter shape is padded with
    leading ones, and an axis of size 1 takes the other operand's size (the
    engine requires the sizes to be equal otherwise). *)
Definition pad_shape (n : nat) (s : Shape) : Shape :=
  repeat 1 (n - length s) ++ s.

Definition bshape (s1 s2 : Shape) : Shape :=
  let n := Nat.max (length s1) (length s2) in
  map (fun dd : nat * nat => if fst dd =? 1 then snd dd else fst dd)
      (combine (pad_shape n s1) (pad_shape n s2)).

(** The index an operand of shape [s] is read at for the result index
    [idx]: leading result axes are dropped, axes of size 1 read entry 0. *)
Definition bidx (s : Shape) (idx : list nat) : list nat :=
  map (fun di : nat * nat => if fst di =? 1 then 0 else snd di)
      (combine s (skipn (length idx - length s) idx)).

Definition map2 (f : Dtype -> T -> T -> T) (a b : Array) : Array :=
  let d := promote_types (dtype a) (dtype b) in
  tabulate d (bshape (shape a) (shape b))
    (fun idx => f d (get a (bidx (shape a) idx)) (get b (bidx (shape b) idx))).

(** An operation with a Python float: the float is weakly typed, the
    array's dtype and shape are kept. *)
Definition map_scalar (f : Dtype -> T -> T) (a : Array) : Array :=
  mkArray (dtype a) (shape a) (map (f (dtype a)) (data a)).

Definition add := map2 sadd.
Definition sub := map2 ssub.
Definition mul := map2 smul.
Definition divide := map2 sdiv.

(** [lax.square], [lax.rsqrt], [jnp.sqrt], [jnp.reciprocal]. *)
Definition square (a : Array) : Array := map_scalar (fun d x => smul d x x) a.
Definition rsqrt (a : Array) : Array := map_scalar srsqrt a.
Definition sqrt_ (a : Array) : Array := map_scalar ssqrt a.
Definition reciprocal (a : Array) : Array :=
  map_scalar (fun d x => sdiv d s1 x) a.

(** *** Reductions *)

(** Sizes of the reduced axes, and the shape of the result. *)
Fixpoint red_shape (axes : list Z) (p : nat) (s : Shape) : Shape :=
  match s with
  | [] => []
  | d :: s' =>
      if is_axis axes p then d :: red_shape axes (S p) s'
      else red_shape axes (S p) s'
  end.

Fixpoint out_shape (axes : list Z) (keepdims : bool) (p : nat) (s : Shape)
  : Shape :=
  match s with
  | [] => []
  | d :: s' =>
      if is_axis axes p
      then (if keepdims then [1] else []) ++ out_shape axes keepdims (S p) s'
      else d :: out_shape axes keepdims (S p) s'
  end.

(** The index of the operand made of a result index [oi] and an index
    [ri] into the reduced axes. *)
Fixpoint merge_idx (axes : list Z) (keepdims : bool) (p : nat) (s : Shape)
  (oi ri : list nat) : list nat :=
  match s with
  | [] => []
  | _ :: s' =>
      if is_axis axes p
      then hd 0 ri ::
           merge_idx axes keepdims (S p) s'
             (if keepdims then tl oi else oi) (tl ri)
      else hd 0 oi :: merge_idx axes keepdims (S p) s' (tl oi) ri
  end.

(** The elements a result entry is reduced from, in row-major order. *)
Definition red_elems (axes : list Z) (keepdims : bool) (a : Array)
  (oi : list nat) : list T :=
  map (fun ri => get a (merge_idx axes keepdims 0 (shape a) oi ri))
      (indices (red_shape axes 0 (shape a))).

(** Boolean masks ([where=]), broadcast to the operand. *)
Record Mask := mkMask { mshape : Shape; mdata : list bool }.

Definition mget (m : Mask) (idx : list nat) : bool :=
  nth (ravel (mshape m) idx) (mdata m) false.

Definition mreshape (m : Mask) (s : Shape) : Mask := mkMask s (mdata m).

Definition red_mask (axes : list Z) (keepdims : bool) (a : Array)
  (m : Mask) (oi : list nat) : list bool :=
  map (fun ri =>
         mget m (bidx (mshape m) (merge_idx axes keepdims 0 (shape a) oi ri)))
      (indices (red_shape axes 0 (shape a))).

(** [x.sum(axis=axes, keepdims=..., where=mask)]: masked-out entries
    count as zero. *)
Definition sum (axes : list Z) (keepdims : bool) (mask : option Mask)
  (a : Array) : Array :=
  tabulate (dtype a) (out_shape axes keepdims 0 (shape a))
    (fun oi =>
       let xs := red_elems axes keepdims a oi in
       ssum (dtype a)
         match mask with
         | None => xs
         | Some m =>
             map (fun bx : bool * T => if fst bx then snd bx else s0)
                 (combine (red_mask axes keepdims a m oi) xs)
         end).

(** The number of entries a result entry of [mean] averages. *)
Definition normalizer (axes : list Z) (keepdims : bool) (mask : option Mask)
  (a : Array) (oi : list nat) : T :=
  match mask with
  | None => sof_nat (dtype a) (size (red_shape axes 0 (shape a)))
  | Some m =>
      ssum (dtype a)
        (map (fun b : bool => if b then s1 else s0)
             (red_mask axes keepdims a m oi))
  end.

(** [x.mean(axes, keepdims=..., where=mask)]: the sum over the count. *)
Definition mean (axes : list Z) (keepdims : bool) (mask : option Mask)
  (a : Array) : Array :=
  let s := sum axes keepdims mask a in
  tabulate (dtype a) (shape s)
    (fun oi => sdiv (dtype a) (get s oi) (normalizer axes keepdims mask a oi)).

(** [jnp.expand_dims(a, axes)]: the rank grows by [length axes] and the
    result has size 1 at the given positions. *)
Fixpoint expand_shape (axes : list Z) (p : nat) (n : nat) (s : Shape)
  : Shape :=
  match n with
  | O => []
  | S n' =>
      if is_axis axes p then 1 :: expand_shape axes (S p) n' s
      else hd 1 s :: expand_shape axes (S p) n' (tl s)
  end.

Definition expand_dims (a : Array) (axes : list Z) : Array :=
  reshape a (expand_shape axes 0 (ndim a + length axes) (shape a)).

(** [jnp.repeat(a, k, axis)]: every entry along [axis] is repeated [k]
    times in place. *)
Fixpoint repeat_idx (axis : nat) (k : nat) (idx : list nat) : list nat :=
  match idx, axis with
  | [], _ => []
  | i :: r, O => i / k :: r
  | i :: r, S ax => i :: repeat_idx ax k r
  end.

Fixpoint repeat_shape (axis : nat) (k : nat) (s : Shape) : Shape :=
  match s, axis with
  | [], _ => []
  | d :: r, O => d * k :: r
  | d :: r, S ax => d :: repeat_shape ax k r
  end.

Definition jnp_repeat (a : Array) (k : nat) (axis : nat) : Array :=
  tabulate (dtype a) (repeat_shape axis k (shape a))
    (fun idx => get a (repeat_idx axis k idx)).

(** [jnp.matmul] and the transposition of matrices. *)
Definition matmul (a b : Array) : Array :=
  let d := promote_types (dtype a) (dtype b) in
  let k := nth 1 (shape a) 0 in
  tabulate d [nth 0 (shape a) 0; nth 1 (shape b) 0]
    (fun idx =>
       let i := nth 0 idx 0 in
       let j := nth 1 idx 0 in
       ssum d (map (fun l => smul d (get a [i; l]) (get b [l; j]))
                   (seq 0 k))).

Definition transpose (a : Array) : Array :=
  tabulate (dtype a) (rev (shape a)) (fun idx => get a (rev idx)).

End Arrays.

Arguments Array T : clear implicits.

(** ** Collaborators outside the repository *)

(** Calls that raise return [Error] with the exception's kind. *)
Inductive exn := ValueError | ZeroDivisionError | UnboundLocalError.

Inductive result (A : Type) := Ok (a : A) | Error (e : exn).
Arguments Ok {A} a.
Arguments Error {A} e.

(** Modelled from the spec: the RNG source ([flax.nnx.rnglib.Rngs], not
    among the sources) is "deterministic given a seed, advances a counter
    on each draw"; a key is the seed with the counter's value. *)
Record Rngs := mkRngs { rng_seed : nat; rng_count : nat }.

Definition Key : Type := nat * nat.

Definition rngs_params (r : Rngs) : Key * Rngs :=
  ((rng_seed r, rng_count r), mkRngs (rng_seed r) (S (rng_count r))).

(** Modelled from the spec: [flax.nnx.module.first_from] is not among the
    sources; "the per-call value takes precedence; fails if neither source
    supplies a value". *)
Definition first_from (A : Type) (call attr : option A) : result A :=
  match call, attr with
  | Some v, _ => Ok v
  | None, Some v => Ok v
  | None, None => Error ValueError
  end.

(** Modelled from the spec: [flax.nnx.nn.dtypes.canonicalize_dtype] is not
    among the sources; by the layers' docstrings the result dtype is the
    requested one and otherwise inferred from input and parameters, that is
    their common promotion. *)
Definition canonicalize_dtype (args : list Dtype) (d : option Dtype) : Dtype :=
  match d with
  | Some d' => d'
  | None =>
      match args with
      | [] => float32
      | a :: r => fold_left promote_types r a
      end
  end.

(** ** The statistics engine and the two primitives *)

Section Core.

Context {T : Type} `{Scalar T}.

Definition Initializer : Type := Key -> Shape -> Dtype -> (Array T).

Definition zeros_init : Initializer := fun _ s d => zeros s d.
Definition ones_init : Initializer := fun _ s d => ones s d.

(** [_abs_sq] on real dtypes: [lax.square]. *)
Definition _abs_sq (x : (Array T)) : (Array T) := square x.

(** [_compute_stats] on one device ([axis_name=None]: the cross-device
    [lax.pmean] is not part of the model). *)
Definition _compute_stats (x : (Array T)) (axes : Axes) (dtype_ : option Dtype)
  (use_mean use_fast_variance : bool) (mask : option Mask) : (Array T) * (Array T) :=
  let dtype_ := match dtype_ with Some d => d | None => dtype x end in
  let dtype_ := promote_types dtype_ float32 in
  let x := asarray x dtype_ in
  let axes := _canonicalize_axes (ndim x) axes in
  let maybe_distributed_mean := mean axes false mask in
  if use_mean then
    if use_fast_variance then
      let mu := maybe_distributed_mean x in
      let mu2 := maybe_distributed_mean (_abs_sq x) in
      let var := map_scalar (fun d v => smaximum d s0 v)
                            (sub mu2 (_abs_sq mu)) in
      (mu, var)
    else
      let mu := maybe_distributed_mean x in
      let var := maybe_distributed_mean
                   (_abs_sq (sub x (expand_dims mu axes))) in
      (mu, var)
  else
    let var := maybe_distributed_mean (_abs_sq x) in
    let mu := zeros_like var in
    (mu, var).

(** [for axis in axes: shape[axis] = v axis], on a Python list. *)
Definition assign_axes (axes : list Z) (v : nat -> nat) (s : Shape) : Shape :=
  fold_left (fun s ax => set_item s (Z.to_nat ax) (v (Z.to_nat ax))) axes s.

Definition _normalize (x mean_ var : (Array T)) (scale bias : option (Array T))
  (reduction_axes feature_axes : Axes) (dtype_ : option Dtype) (epsilon : T)
  : (Array T) :=
  let reduction_axes := _canonicalize_axes (ndim x) reduction_axes in
  let feature_axes := _canonicalize_axes (ndim x) feature_axes in
  let stats_shape := assign_axes reduction_axes (fun _ => 1) (shape x) in
  let mean_ := reshape mean_ stats_shape in
  let var := reshape var stats_shape in
  let feature_shape :=
    assign_axes feature_axes (fun ax => nth ax (shape x) 0)
                (repeat 1 (ndim x)) in
  let y := sub x mean_ in
  let mul_ := rsqrt (map_scalar (fun d v => sadd d v epsilon) var) in
  let args := [dtype x] in
  let '(mul_, args) :=
    match scale with
    | Some scale =>
        let scale := reshape scale feature_shape in
        (mul mul_ scale, args ++ [dtype scale])
    | None => (mul_, args)
    end in
  let y := mul y mul_ in
  let '(y, args) :=
    match bias with
    | Some bias =>
        let bias := reshape bias feature_shape in
        (add y bias, args ++ [dtype bias])
    | None => (y, args)
    end in
  let dtype_ := canonicalize_dtype args dtype_ in
  asarray y dtype_.

(** [_l2_normalize(x, axis, eps)]; [axis=None] reduces over every axis. *)
Definition all_axes (n : nat) : list Z := map Z.of_nat (seq 0 n).

Definition _l2_normalize (x : (Array T)) (axis : option (list Z)) (eps : T)
  : (Array T) :=
  let axes := match axis with Some a => a | None => all_axes (ndim x) end in
  mul x (rsqrt (map_scalar (fun d v => sadd d v eps)
                  (sum axes true None (mul x x)))).

End Core.

(** ** BatchNorm *)

Module BatchNorm.

Section Defs.

Context {T : Type} `{Scalar T}.

(** The attributes of an instance; [mean] and [var] are the running
    buffers ([nnx.BatchStat]). *)
Record t := mk {
  mean_ : Array T;
  var : Array T;
  scale : option (Array T);
  bias : option (Array T);
  num_features : nat;
  use_running_average : option bool;
  axis : Z;
  momentum : T;
  epsilon : T;
  dtype_ : option Dtype;
  param_dtype : Dtype;
  use_bias : bool;
  use_scale : bool;
  bias_init : Initializer (T := T);
  scale_init : Initializer (T := T);
  use_fast_variance : bool
}.

Definition __init__ (num_features : nat) (use_running_average : option bool)
  (axis : Z) (momentum epsilon : T) (dtype_ : option Dtype)
  (param_dtype : Dtype) (use_bias use_scale : bool)
  (bias_init scale_init : Initializer (T := T)) (use_fast_variance : bool)
  (rngs : Rngs) : t * Rngs :=
  let feature_shape := [num_features] in
  let mean_ := zeros feature_shape float32 in
  let var := ones feature_shape float32 in
  let '(scale, rngs) :=
    if use_scale then
      let '(key, rngs) := rngs_params rngs in
      (Some (scale_init key feature_shape param_dtype), rngs)
    else (None, rngs) in
  let '(bias, rngs) :=
    if use_bias then
      let '(key, rngs) := rngs_params rngs in
      (Some (bias_init key feature_shape param_dtype), rngs)
    else (None, rngs) in
  (mk mean_ var scale bias num_features use_running_average axis momentum
      epsilon dtype_ param_dtype use_bias use_scale bias_init scale_init
      use_fast_variance,
   rngs).

Definition set_stats (self : t) (m v : Array T) : t :=
  mk m v (scale self) (bias self) (num_features self)
     (use_running_average self) (axis self) (momentum self) (epsilon self)
     (dtype_ self) (param_dtype self) (use_bias self) (use_scale self)
     (bias_init self) (scale_init self) (use_fast_variance self).

(** [momentum * old + (1 - momentum) * new], with Python floats on the
    left of both products. *)
Definition ema (momentum : T) (old new : Array T) : Array T :=
  add (map_scalar (fun d v => smul d momentum v) old)
      (map_scalar (fun d v => smul d (ssub float64 s1 momentum) v) new).

(** [__call__]: the output and the instance after the call. *)
Definition __call__ (self : t) (x : Array T)
  (use_running_average' : option bool) (mask : option Mask)
  : result (Array T * t) :=
  match first_from use_running_average' (use_running_average self) with
  | Error e => Error e
  | Ok use_running_average =>
      let feature_axes := _canonicalize_axes (ndim x) (AxInt (axis self)) in
      let reduction_axes :=
        filter (fun i => negb (existsb (Z.eqb i) feature_axes))
               (all_axes (ndim x)) in
      let '(m, v, self') :=
        if use_running_average then (mean_ self, var self, self)
        else
          let '(m, v) :=
            _compute_stats x (AxSeq reduction_axes) (dtype_ self) true
                           (use_fast_variance self) mask in
          (m, v,
           set_stats self (ema (momentum self) (mean_ self) m)
                          (ema (momentum self) (var self) v)) in
      Ok (_normalize x m v (scale self') (bias self')
                     (AxSeq reduction_axes) (AxSeq feature_axes)
                     (dtype_ self') (epsilon self'),
          self')
  end.

End Defs.

Arguments t T : clear implicits.

End BatchNorm.

(** ** LayerNorm *)

Module LayerNorm.

Section Defs.

Context {T : Type} `{Scalar T}.

Record t := mk {
  scale : option (Array T);
  bias : option (Array T);
  num_features : nat;
  epsilon : T;
  dtype_ : option Dtype;
  param_dtype : Dtype;
  use_bias : bool;
  use_scale : bool;
  bias_init : Initializer (T := T);
  scale_init : Initializer (T := T);
  reduction_axes : Axes;
  feature_axes : Axes;
  use_fast_variance : bool
}.

Definition __init__ (num_features : nat) (epsilon : T)
  (dtype_ : option Dtype) (param_dtype : Dtype) (use_bias use_scale : bool)
  (bias_init scale_init : Initializer (T := T))
  (reduction_axes feature_axes : Axes) (use_fast_variance : bool)
  (rngs : Rngs) : t * Rngs :=
  let feature_shape := [num_features] in
  let '(scale, rngs) :=
    if use_scale then
      let '(key, rngs) := rngs_params rngs in
      (Some (scale_init key feature_shape param_dtype), rngs)
    else (None, rngs) in
  let '(bias, rngs) :=
    if use_bias then
      let '(key, rngs) := rngs_params rngs in
      (Some (bias_init key feature_shape param_dtype), rngs)
    else (None, rngs) in
  (mk scale bias num_features epsilon dtype_ param_dtype use_bias use_scale
      bias_init scale_init reduction_axes feature_axes use_fast_variance,
   rngs).

Definition __call__ (self : t) (x : Array T) (mask : option Mask) : Array T :=
  let '(m, v) :=
    _compute_stats x (reduction_axes self) (dtype_ self) true
                   (use_fast_variance self) mask in
  _normalize x m v (scale self) (bias self) (reduction_axes self)
             (feature_axes self) (dtype_ self) (epsilon self).

End Defs.

Arguments t T : clear implicits.

End LayerNorm.

(** ** RMSNorm *)

Module RMSNorm.

Section Defs.

Context {T : Type} `{Scalar T}.

Record t := mk {
  scale : option (Array T);
  num_features : nat;
  epsilon : T;
  dtype_ : option Dtype;
  param_dtype : Dtype;
  use_scale : bool;
  scale_init : Initializer (T := T);
  reduction_axes : Axes;
  feature_axes : Axes;
  use_fast_variance : bool
}.

Definition __init__ (num_features : nat) (epsilon : T)
  (dtype_ : option Dtype) (param_dtype : Dtype) (use_scale : bool)
  (scale_init : Initializer (T := T)) (reduction_axes feature_axes : Axes)
  (use_fast_variance : bool) (rngs : Rngs) : t * Rngs :=
  let feature_shape := [num_features] in
  let '(scale, rngs) :=
    if use_scale then
      let '(key, rngs) := rngs_params rngs in
      (Some (scale_init key feature_shape param_dtype), rngs)
    else (None, rngs) in
  (mk scale num_features epsilon dtype_ param_dtype use_scale scale_init
      reduction_axes feature_axes use_fast_variance,
   rngs).

Definition __call__ (self : t) (x : Array T) (mask : option Mask) : Array T :=
  let '(m, v) :=
    _compute_stats x (reduction_axes self) (dtype_ self) false
                   (use_fast_variance self) mask in
  _normalize x m v (scale self) None (reduction_axes self)
             (feature_axes self) (dtype_ self) (epsilon self).

End Defs.

Arguments t T : clear implicits.

End RMSNorm.

(** ** The RMSNorm of the gemma example ([examples/gemma/layers.py]) *)

Module GemmaRMSNorm.

Section Defs.

Context {T : Type} `{Scalar T}.

(** The literals [1e-06] and [1] of [__call__]. *)
Variable lit_1e_06 : T.

Record t := mk { scale : Array T }.

Definition __init__ (dim : nat) (rngs : Rngs) : t * Rngs :=
  let '(key, rngs) := rngs_params rngs in
  (mk (zeros_init key [dim] float32), rngs).

Definition __call__ (self : t) (x : Array T) : Array T :=
  let last := [Z.of_nat (ndim x) - 1]%Z in
  let var := mean last true None (square x) in
  let normed_inputs :=
    mul x (reciprocal
             (sqrt_ (map_scalar (fun d v => sadd d v lit_1e_06) var))) in
  let scale :=
    expand_dims (scale self) (all_axes (length (shape x) - 1)) in
  let normed_inputs :=
    mul normed_inputs (map_scalar (fun d v => sadd d s1 v) scale) in
  normed_inputs.

End Defs.

Arguments t T : clear implicits.

End GemmaRMSNorm.

(** ** GroupNorm *)

Module GroupNorm.

Section Defs.

Context {T : Type} `{Scalar T}.

Record t := mk {
  feature_axis : Z;
  num_groups : Z;
  group_size : Z;
  scale : option (Array T);
  bias : option (Array T);
  epsilon : T;
  dtype_ : option Dtype;
  param_dtype : Dtype;
  use_bias : bool;
  use_scale : bool;
  bias_init : Initializer (T := T);
  scale_init : Initializer (T := T);
  reduction_axes : option Axes;
  use_fast_variance : bool
}.

(** The checks of [__init__] and the two sizes it stores; [%] and [//]
    are Python's floor operations and raise on a zero divisor. *)
Definition groups (num_features : Z) (num_groups group_size : option Z)
  : result (Z * Z) :=
  match num_groups, group_size with
  | None, None | Some _, Some _ => Error ValueError
  | _, Some group_size =>
      if (group_size =? 0)%Z then Error ZeroDivisionError
      else if negb (num_features mod group_size =? 0)%Z
      then Error ValueError
      else Ok ((num_features / group_size)%Z, group_size)
  | Some num_groups, None =>
      if (num_groups <=? 0)%Z
         || negb (num_features mod num_groups =? 0)%Z
      then Error ValueError
      else Ok (num_groups, (num_features / num_groups)%Z)
  end.

Definition __init__ (num_features : Z) (num_groups group_size : option Z)
  (epsilon : T) (dtype_ : option Dtype) (param_dtype : Dtype)
  (use_bias use_scale : bool) (bias_init scale_init : Initializer (T := T))
  (reduction_axes : option Axes) (use_fast_variance : bool) (rngs : Rngs)
  : result (t * Rngs) :=
  let feature_axis := (-1)%Z in
  match groups num_features num_groups group_size with
  | Error e => Error e
  | Ok (num_groups, group_size) =>
      let feature_shape := [Z.to_nat num_features] in
      let '(scale, rngs) :=
        if use_scale then
          let '(key, rngs) := rngs_params rngs in
          (Some (scale_init key feature_shape param_dtype), rngs)
        else (None, rngs) in
      let '(bias, rngs) :=
        if use_bias then
          let '(key, rngs) := rngs_params rngs in
          (Some (bias_init key feature_shape param_dtype), rngs)
        else (None, rngs) in
      Ok (mk feature_axis num_groups group_size scale bias epsilon dtype_
             param_dtype use_bias use_scale bias_init scale_init
             reduction_axes use_fast_variance,
          rngs)
  end.

Definition __call__ (self : t) (x : Array T) (mask : option Mask) : Array T :=
  let reduction_axes :=
    match reduction_axes self with
    | Some axes => axes
    | None =>
        AxSeq (map Z.of_nat (seq 1 (ndim x - 1 - 1)) ++ [(-1)%Z])
    end in
  let reduction_axes := _canonicalize_axes (ndim x) reduction_axes in
  let group_shape :=
    removelast (shape x)
    ++ [Z.to_nat (num_groups self); Z.to_nat (group_size self)] in
  let mask :=
    match mask with
    | Some mask =>
        Some (mreshape mask
                (removelast (mshape mask)
                 ++ [Z.to_nat (num_groups self);
                     Z.to_nat (group_size self)]))
    | None => None
    end in
  let '(m, v) :=
    _compute_stats (reshape x group_shape)
                   (AxSeq (removelast reduction_axes ++ [(-1)%Z]))
                   (dtype_ self) true (use_fast_variance self) mask in
  let m := jnp_repeat m (Z.to_nat (group_size self)) 1 in
  let v := jnp_repeat v (Z.to_nat (group_size self)) 1 in
  _normalize x m v (scale self) (bias self)
             (AxSeq (removelast reduction_axes))
             (AxSeq [feature_axis self]) (dtype_ self) (epsilon self).

End Defs.

Arguments t T : clear implicits.

End GroupNorm.

(** ** The parameter container of a wrapped layer *)

(** Modelled from the spec: the module and state system of [flax.nnx]
    ([nnx.state], [nnx.PathContains], [nnx.map_state], [nnx.update]) is not
    among the sources.  A state is "a path-keyed mapping from parameter
    path to tensor value", kept in enumeration order; a layer owns its
    parameters and maps an input to an output with them. *)
Definition Path := list String.string.

Definition Path_eqb (p q : Path) : bool :=
  if list_eq_dec String.string_dec p q then true else false.

Section Container.

Context {T : Type} `{Scalar T}.

Definition State := list (Path * Array T).

(** [state[path]]; [None] stands for [KeyError]. *)
Fixpoint state_get (st : State) (p : Path) : option (Array T) :=
  match st with
  | [] => None
  | (q, v) :: r => if Path_eqb q p then Some v else state_get r p
  end.

(** [state[path] = value]. *)
Fixpoint state_set (st : State) (p : Path) (v : Array T) : State :=
  match st with
  | [] => [(p, v)]
  | (q, w) :: r =>
      if Path_eqb q p then (q, v) :: r else (q, w) :: state_set r p v
  end.

Record Layer := mkLayer {
  params : State;
  forward : State -> Array T -> Array T
}.

(** [nnx.PathContains(key)]: the key is one of the path's segments. *)
Definition PathContains (key : String.string) (p : Path) : bool :=
  existsb (String.eqb key) p.

(** [nnx.state(layer, filters)]: the parameters some filter accepts;
    without filters, all of them. *)
Definition nnx_state (layer : Layer) (filters : option (list String.string))
  : State :=
  match filters with
  | None => params layer
  | Some fs =>
      filter (fun pv => existsb (fun f => PathContains f (fst pv)) fs)
             (params layer)
  end.

(** [nnx.update(layer, state)]: every entry of the state is written to
    the layer. *)
Definition nnx_update (layer : Layer) (st : State) : Layer :=
  mkLayer (fold_left (fun ps pv => state_set ps (fst pv) (snd pv)) st
                     (params layer))
          (forward layer).

(** [nnx.map_state(f, state)] for an [f] that reads and extends the state
    it is mapped over and draws from the RNG source: the entries are
    visited in order, the state and the RNG source are threaded through,
    and the mapped values are collected under their paths. *)
Fixpoint map_state (f : State -> Rngs -> Path -> Array T
                        -> result (Array T * State * Rngs))
  (entries : State) (st : State) (rngs : Rngs)
  : result (State * State * Rngs) :=
  match entries with
  | [] => Ok ([], st, rngs)
  | (p, v) :: r =>
      match f st rngs p v with
      | Error e => Error e
      | Ok (v', st, rngs) =>
          match map_state f r st rngs with
          | Error e => Error e
          | Ok (r', st, rngs) => Ok ((p, v') :: r', st, rngs)
          end
      end
  end.

End Container.

Arguments State T : clear implicits.
Arguments Layer T : clear implicits.

(** ** WeightNorm *)

Module WeightNorm.

Section Defs.

Context {T : Type} `{Scalar T}.

Record t := mk {
  layer_instance : Layer T;
  epsilon : T;
  dtype_ : option Dtype;
  param_dtype : Dtype;
  use_scale : bool;
  scale_init : Initializer (T := T);
  feature_axes : option Axes;
  variable_filters : option (list String.string);
  rngs : Rngs
}.

Definition __init__ (layer_instance : Layer T) (epsilon : T)
  (dtype_ : option Dtype) (param_dtype : Dtype) (use_scale : bool)
  (scale_init : Initializer (T := T)) (feature_axes : option Axes)
  (variable_filters : option (list String.string)) (rngs : Rngs) : t :=
  mk layer_instance epsilon dtype_ param_dtype use_scale scale_init
     feature_axes variable_filters rngs.

(** The axes kept and the axes reduced for a parameter of rank [n]. *)
Definition axes_of (self : t) (n : nat) : list Z * list Z :=
  match feature_axes self with
  | None => ([], all_axes n)
  | Some axes =>
      let feature_axes := _canonicalize_axes n axes in
      (feature_axes,
       filter (fun i => negb (existsb (Z.eqb i) feature_axes)) (all_axes n))
  end.

(** The scale of a parameter: looked up under [path + ("scale",)], and
    created from the RNG source and stored when it is missing. *)
Definition get_scale (self : t) (state : State T) (rngs : Rngs) (path : Path)
  (reduced_feature_shape : Shape) : Array T * State T * Rngs :=
  let scale_path := path ++ ["scale"%string] in
  match state_get state scale_path with
  | Some scale => (scale, state, rngs)
  | None =>
      let '(key, rngs) := rngs_params rngs in
      let scale := scale_init self key reduced_feature_shape
                              (param_dtype self) in
      (scale, state_set state scale_path scale, rngs)
  end.

(** The local function [apply_weight_norm] of [__call__]. *)
Definition apply_weight_norm (self : t) (state : State T) (rngs : Rngs)
  (path : Path) (vs : Array T) : result (Array T * State T * Rngs) :=
  let value := vs in
  let '(feature_axes, reduction_axes) := axes_of self (ndim value) in
  let feature_shape :=
    assign_axes feature_axes (fun ax => nth ax (shape value) 0)
                (repeat 1 (ndim value)) in
  let reduced_feature_shape :=
    map (fun ax => nth (Z.to_nat ax) (shape value) 0) feature_axes in
  let value_bar := _l2_normalize value (Some reduction_axes) (epsilon self) in
  let dtargs := [dtype vs] in
  let '(value_bar, dtargs, state, rngs) :=
    if use_scale self then
      let '(scale, state, rngs) :=
        get_scale self state rngs path reduced_feature_shape in
      let scale := reshape scale feature_shape in
      (mul value_bar scale, dtargs ++ [dtype scale], state, rngs)
    else (value_bar, dtargs, state, rngs) in
  let dtype_ := canonicalize_dtype dtargs (dtype_ self) in
  Ok (asarray value_bar dtype_, state, rngs).

(** [__call__]: the output of the wrapped layer and the wrapper after the
    call (its layer rewritten, its RNG source advanced). *)
Definition __call__ (self : t) (x : Array T) : result (Array T * t) :=
  let state := nnx_state (layer_instance self) (variable_filters self) in
  match map_state (apply_weight_norm self) state state (rngs self) with
  | Error e => Error e
  | Ok (state, _, rngs) =>
      let layer := nnx_update (layer_instance self) state in
      Ok (forward layer (params layer) x,
          mk layer (epsilon self) (dtype_ self) (param_dtype self)
             (use_scale self) (scale_init self) (feature_axes self)
             (variable_filters self) rngs)
  end.

End Defs.

Arguments t T : clear implicits.

End WeightNorm.

(** ** SpectralNorm *)

Module SpectralNorm.

Section Defs.

Context {T : Type} `{Scalar T}.

(** [jax.random.normal(key, shape, dtype)], the engine's sampler. *)
Variable random_normal : Key -> Shape -> Dtype -> Array T.

Record t := mk {
  layer_instance : Layer T;
  n_steps : Z;
  epsilon : T;
  dtype_ : option Dtype;
  param_dtype : Dtype;
  error_on_non_matrix : bool;
  collection_name : String.string;
  rngs : Rngs
}.

Definition __init__ (layer_instance : Layer T) (n_steps : Z) (epsilon : T)
  (dtype_ : option Dtype) (param_dtype : Dtype) (error_on_non_matrix : bool)
  (collection_name : String.string) (rngs : Rngs) : t :=
  mk layer_instance n_steps epsilon dtype_ param_dtype error_on_non_matrix
     collection_name rngs.

(** [collection_name + '/' + '/'.join(str(k) for k in path) + suffix],
    used as a key of the state. *)
Definition var_name (self : t) (path : Path) (suffix : String.string)
  : Path :=
  [String.append (collection_name self)
     (String.append "/"%string
        (String.append (String.concat "/"%string path) suffix))].

(** The first [try]: the stored [u], or a fresh normal draw. *)
Definition get_u (self : t) (state : State T) (rngs : Rngs) (path : Path)
  (value : Array T) : Array T * Rngs :=
  match state_get state (var_name self path "/u"%string) with
  | Some u => (u, rngs)
  | None =>
      let '(key, rngs) := rngs_params rngs in
      (random_normal key [1; last (shape value) 0] (param_dtype self), rngs)
  end.

(** The second [try]: the stored [sigma], or the scalar one. *)
Definition get_sigma (self : t) (state : State T) (path : Path) : Array T :=
  match state_get state (var_name self path "/sigma"%string) with
  | Some sigma => sigma
  | None => ones [] (param_dtype self)
  end.

(** The [for] loop of power iteration; [v] is unbound before its first
    round. *)
Fixpoint power_iteration (n : nat) (eps : T) (value u : Array T)
  (v : option (Array T)) : Array T * option (Array T) :=
  match n with
  | O => (u, v)
  | S n' =>
      let v := _l2_normalize (matmul u (transpose value)) None eps in
      let u := _l2_normalize (matmul v value) None eps in
      power_iteration n' eps value u (Some v)
  end.

(** [jnp.matmul(jnp.matmul(v, value), jnp.transpose(u))[0, 0]]. *)
Definition compute_sigma (value u v : Array T) : Array T :=
  let m := matmul (matmul v value) (transpose u) in
  mkArray (dtype m) [] [get m [0; 0]].

(** [jnp.where(sigma != 0, sigma, 1)] on a scalar. *)
Definition divisor (sigma : Array T) : Array T :=
  map_scalar (fun _ s => if sne0 s then s else s1) sigma.

(** The local function [spectral_normalize] of [__call__]. *)
Definition spectral_normalize (self : t) (update_stats : bool)
  (state : State T) (rngs : Rngs) (path : Path) (vs : Array T)
  : result (Array T * State T * Rngs) :=
  let value := vs in
  let value_shape := shape value in
  if (ndim value <=? 1) || (n_steps self <? 1)%Z then Ok (value, state, rngs)
  else if (2 <? ndim value) && error_on_non_matrix self then Error ValueError
  else
    let value :=
      if 2 <? ndim value then
        let n := last (shape value) 0 in
        reshape value [size (shape value) / n; n]
      else value in
    let '(u, rngs) := get_u self state rngs path value in
    let sigma := get_sigma self state path in
    let '(u, v) :=
      power_iteration (Z.to_nat (n_steps self)) (epsilon self) value u None in
    match v with
    | None => Error UnboundLocalError
    | Some v =>
        let sigma := compute_sigma value u v in
        let value := divide value (divisor sigma) in
        let value_bar := reshape value value_shape in
        let state :=
          if update_stats then
            state_set (state_set state (var_name self path "/u"%string) u)
                      (var_name self path "/sigma"%string) sigma
          else state in
        let dtype_ :=
          canonicalize_dtype [dtype vs; dtype u; dtype v; dtype sigma]
                             (dtype_ self) in
        Ok (asarray value_bar dtype_, state, rngs)
    end.

Definition __call__ (self : t) (x : Array T) (update_stats : bool)
  : result (Array T * t) :=
  let state := nnx_state (layer_instance self) None in
  match map_state (spectral_normalize self update_stats) state state
                  (rngs self) with
  | Error e => Error e
  | Ok (state, _, rngs) =>
      let layer := nnx_update (layer_instance self) state in
      Ok (forward layer (params layer) x,
          mk layer (n_steps self) (epsilon self) (dtype_ self)
             (param_dtype self) (error_on_non_matrix self)
             (collection_name self) rngs)
  end.

End Defs.

Arguments t T : clear implicits.

End SpectralNorm.

(** ** Vocabulary for sets without collisions *)

(** A table in which every used slot [i] holds the key [i], for the keys
    [K]. *)
Definition direct (tbl : list (option Z)) (K : list Z) : Prop :=
  forall i, i < length tbl ->
    nth i tbl None
    = if existsb (Z.eqb (Z.of_nat i)) K then Some (Z.of_nat i) else None.

(** Keys given in ascending order, the key after [c] others being at most
    [c + 2]: such keys never collide in a set that holds nothing else. *)
Fixpoint climbs (c : nat) (lo : Z) (l : list Z) : Prop :=
  match l with
  | [] => True
  | e :: r => (lo < e <= Z.of_nat c + 2)%Z /\ climbs (S c) e r
  end.

(** The state of a set while such keys are added: a direct table of a
    power-of-two size, filled below three fifths, whose keys are at most
    [fill + 1]. *)
Definition set_inv (so : PySet.t) (K : list Z) : Prop :=
  direct (PySet.table so) K
  /\ (exists m, (3 <= m)%Z
               /\ Z.of_nat (length (PySet.table so)) = (2 ^ m)%Z
               /\ (PySet.fill so * 5 < (2 ^ m - 1) * 3)%Z)
  /\ PySet.fill so = Z.of_nat (length K)
  /\ Forall (fun z => 0 <= z <= PySet.fill so + 1)%Z K
  /\ NoDup K.

(** ** GroupNorm with a single group *)

(** The index of the grouped input [x.reshape(x.shape[:-1] + (1, C))] that
    an index of [x] names: a 0 for the only group, before the channel. *)
Fixpoint group_idx (idx : list nat) : list nat :=
  match idx with
  | [] => []
  | i :: r =>
      match r with
      | [] => [0; i]
      | _ :: _ => i :: group_idx r
      end
  end.

(** An array of shape [f ++ [C]] and its grouped form: the same elements,
    a group axis of size 1 before the last axis. *)
Definition grouped {T : Type} (f : Shape) (C : nat) (a a' : Array T) : Prop :=
  dtype a' = dtype a /\ data a' = data a
  /\ shape a = f ++ [C] /\ shape a' = f ++ [1; C].

(** Likewise for masks whose last axis is the channel axis. *)
Definition mgrouped (C rank : nat) (m m' : option Mask) : Prop :=
  match m, m' with
  | None, None => True
  | Some m, Some m' =>
      mdata m' = mdata m /\ length (mshape m) <= rank
      /\ exists g, mshape m = g ++ [C] /\ mshape m' = g ++ [1; C]
  | _, _ => False
  end.

(** The axes LayerNorm reduces over at rank [n], and those GroupNorm
    reduces the grouped input over. *)
Definition layer_axes (n : nat) : list Z := map Z.of_nat (seq 1 (n - 1)).
Definition group_axes (n : nat) : list Z :=
  map Z.of_nat (seq 1 (n - 2)) ++ [Z.of_nat n].

(** A mask GroupNorm can regroup: its last axis is the channel axis of the
    input and its rank is at most the input's. *)
Definition channel_mask {T : Type} (x : Array T) (mask : option Mask)
  : Prop :=
  match mask with
  | None => True
  | Some m =>
      length (mshape m) <= length (shape x)
      /\ exists g, mshape m = g ++ [last (shape x) 0]
  end.

(** ** Measures used in the statements *)

(** The axes a BatchNorm call reduces over (all but the feature axis) and
    its feature axes, as [__call__] computes them. *)
Definition BatchNorm_axes (T : Type) (self : BatchNorm.t T) (x : Array T)
  : list Z * list Z :=
  let feature_axes :=
    _canonicalize_axes (ndim x) (AxInt (BatchNorm.axis self)) in
  (filter (fun i => negb (existsb (Z.eqb i) feature_axes))
          (all_axes (ndim x)),
   feature_axes).

(** The Euclidean norm of all entries of a real array. *)
Definition l2_norm (a : Array R) : R :=
  sqrt (fold_right Rplus 0%R (map (fun x => (x * x)%R) (data a))).

(** The matrix a parameter of rank above two is flattened to. *)
Definition as_matrix (T : Type) (w : Array T) : Array T :=
  if 2 <? length (shape w) then
    mkArray (dtype w) [size (shape w) / last (shape w) 0; last (shape w) 0]
            (data w)
  else w.

(** The entry of [_normalize]'s result at an index of the input, written
    out: [bget a s idx] reads [a], reshaped to [s], where broadcasting to
    the input's shape reads it. *)
Section NormalizeEntry.

Context {T : Type} `{Scalar T}.

Definition bget (a : Array T) (s : Shape) (idx : list nat) : T :=
  get (reshape a s) (bidx s idx).

Definition stats_shape_of (x : Array T) (reduction_axes : Axes) : Shape :=
  assign_axes (_canonicalize_axes (ndim x) reduction_axes) (fun _ => 1)
              (shape x).

Definition feature_shape_of (x : Array T) (feature_axes : Axes) : Shape :=
  assign_axes (_canonicalize_axes (ndim x) feature_axes)
              (fun ax => nth ax (shape x) 0) (repeat 1 (ndim x)).

Definition normalize_dtype (x : Array T) (scale bias : option (Array T))
  (dtype_ : option Dtype) : Dtype :=
  canonicalize_dtype
    ([dtype x]
     ++ match scale with Some sc => [dtype sc] | None => [] end
     ++ match bias with Some b => [dtype b] | None => [] end)
    dtype_.

Definition normalize_entry (x m v : Array T) (scale bias : option (Array T))
  (stats fshape : Shape) (epsilon : T) (idx : list nat) : T :=
  let dy := promote_types (dtype x) (dtype m) in
  let y := ssub dy (get x idx) (bget m stats idx) in
  let mul0 := srsqrt (dtype v) (sadd (dtype v) (bget v stats idx) epsilon) in
  let dm :=
    match scale with
    | Some sc => promote_types (dtype v) (dtype sc)
    | None => dtype v
    end in
  let mul1 :=
    match scale with
    | Some sc => smul dm mul0 (bget sc fshape idx)
    | None => mul0
    end in
  let y1 := smul (promote_types dy dm) y mul1 in
  match bias with
  | Some b =>
      sadd (promote_types (promote_types dy dm) (dtype b)) y1
           (bget b fshape idx)
  | None => y1
  end.

End NormalizeEntry.

(** A keepdims index without its reduced positions. *)
Fixpoint strip_idx (axes : list Z) (p : nat) (s : Shape) (oi : list nat)
  : list nat :=
  match s with
  | [] => []
  | _ :: s' =>
      if is_axis axes p then strip_idx axes (S p) s' (tl oi)
      else hd 0 oi :: strip_idx axes (S p) s' (tl oi)
  end.

(** The L2 norm of a real array along the given axes, at a position of
    the remaining axes (a keepdims index). *)
Definition slice_norm (axes : list Z) (a : Array R) (oi : list nat) : R :=
  sqrt (get (sum axes true None (mul a a)) oi).

(** What WeightNorm does to a parameter [W]: [out] has the shape of [W],
    and along the reduction axes its norm at every feature position is the
    norm of [W] there over [sqrt (norm^2 + epsilon)], times the magnitude of
    the scale entry of that position when a scale [sc] is used. *)
Definition weight_normalized (self : WeightNorm.t R) (W out : Array R)
  (sc : option (Array R)) : Prop :=
  let feature_axes := fst (WeightNorm.axes_of self (ndim W)) in
  let reduction_axes := snd (WeightNorm.axes_of self (ndim W)) in
  let feature_shape :=
    assign_axes feature_axes (fun ax => nth ax (shape W) 0)
                (repeat 1 (ndim W)) in
  shape out = shape W
  /\ forall oi, valid (out_shape reduction_axes true 0 (shape W)) oi ->
       slice_norm reduction_axes out oi
       = (Rabs match sc with
               | Some sc => get (reshape sc feature_shape) oi
               | None => 1
               end
          * (slice_norm reduction_axes W oi
             / sqrt (slice_norm reduction_axes W oi
                     * slice_norm reduction_axes W oi
                     + WeightNorm.epsilon self)))%R.

(** The feature axes configured for a wrapper suit a parameter of rank
    [n]. *)
Definition feature_axes_ok (self : WeightNorm.t R) (n : nat) : Prop :=
  match WeightNorm.feature_axes self with
  | Some axes => axes_in_range n (axes_iter axes)
  | None => True
  end.

(** A real tensor whose statistics over the given axes, as the engine
    computes them by default, are mean 0 and variance 1 throughout. *)
Definition zero_mean_unit_variance (x : Array R) (axes : Axes)
  (mask : option Mask) : Prop :=
  Forall (eq 0%R) (data (fst (_compute_stats x axes None true true mask)))
  /\ Forall (eq 1%R) (data (snd (_compute_stats x axes None true true mask))).

(** ** Inputs of the worked examples *)

(** The input [[1, 2, 3], [4, 5, 6]]. *)
Definition x23 : Array R :=
  mkArray float32 [2; 3] [1; 2; 3; 4; 5; 6]%R.

(** A 3x2 kernel, a layer that owns it, and a sampler whose draws are all
    twos. *)
Definition w32 : Array R :=
  mkArray float32 [3; 2] [3; 0; 4; 5; 0; 12]%R.

Definition linear_example : Layer R :=
  mkLayer [(["kernel"%string], w32)] (fun _ x => x).

Definition sampler_twos : Key -> Shape -> Dtype -> Array R :=
  fun _ s d => full d s 2%R.

Definition sn_example : SpectralNorm.t R :=
  SpectralNorm.__init__ linear_example 1 (1 / 1000000000000)%R None float32
    false "batch_stats"%string (mkRngs 0 0).

(** Arrays without a negative entry. *)
Definition nonneg (a : Array R) : Prop := Forall (fun v => 0 <= v)%R (data a).

(** The input [[1, -1]], of mean 0 and variance 1, and three RMSNorm
    layers for it: the flax layer as constructed by default (scale of
    ones), the flax layer with a scale initialized to zeros, and the gemma
    layer (scale of zeros, multiplier [1 + scale]). *)
Definition x_pm : Array R := mkArray float32 [2] [1; -1]%R.

Definition rms_ones : RMSNorm.t R :=
  fst (RMSNorm.__init__ 2 (1 / 1000000)%R None float32 true ones_init
         (AxInt (-1)) (AxInt (-1)) true (mkRngs 0 0)).

Definition rms_zeros : RMSNorm.t R :=
  fst (RMSNorm.__init__ 2 (1 / 1000000)%R None float32 true zeros_init
         (AxInt (-1)) (AxInt (-1)) true (mkRngs 0 0)).

Definition gemma_rms : GemmaRMSNorm.t R :=
  fst (GemmaRMSNorm.__init__ 2 (mkRngs 0 0)).

(** The scale of an RMSNorm layer is absent or all ones, with as many
    entries as the feature axes of the input. *)
Definition unit_scale (self : RMSNorm.t R) (x : Array R) : Prop :=
  match RMSNorm.scale self with
  | None => True
  | Some sc =>
      Forall (eq 1%R) (data sc)
      /\ length (data sc)
         = size (feature_shape_of x (RMSNorm.feature_axes self))
  end.

(** A kernel with a zero column, [[3, 0], [4, 0]], in a layer wrapped by
    WeightNorm without a scale, and the kernel [w32] wrapped with the
    default scale. *)
Definition w_zero_column : Array R :=
  mkArray float32 [2; 2] [3; 0; 4; 0]%R.

Definition wn_zero_column : WeightNorm.t R :=
  WeightNorm.__init__
    (mkLayer [(["kernel"%string], w_zero_column)] (fun _ x => x))
    (1 / 1000000000000)%R None float32 false ones_init (Some (AxInt (-1)))
    (Some ["kernel"%string]) (mkRngs 0 0).

Definition wn_example : WeightNorm.t R :=
  WeightNorm.__init__ linear_example (1 / 1000000000000)%R None float32 true
    ones_init (Some (AxInt (-1))) (Some ["kernel"%string]) (mkRngs 0 0).

(** A GroupNorm with one group of three channels and the LayerNorm over
    the same axes of a rank-2 input, both as constructed by default. *)
Definition gn_example : GroupNorm.t R :=
  GroupNorm.mk (-1) 1 3 (Some (ones [3] float32)) (Some (zeros [3] float32))
    (1 / 1000000)%R None float32 true true zeros_init ones_init None true.

Definition ln_example : LayerNorm.t R :=
  fst (LayerNorm.__init__ 3 (1 / 1000000)%R None float32 true true zeros_init
         ones_init (AxSeq [1%Z]) (AxInt (-1)) true (mkRngs 0 0)).

(** * Properties *)

(** ** Row-major indexing *)

Lemma size_app (s1 s2 : Shape) : size (s1 ++ s2) = size s1 * size s2.
Proof.
  induction s1 as [|d s1 IH]; simpl; [lia|]. rewrite IH. lia.
Qed.

Lemma valid_length (s : Shape) (idx : list nat) :
  valid s idx -> length idx = length s.
Proof. intros V. symmetry. exact (Forall2_length V). Qed.

Lemma ravel_lt (s : Shape) (idx : list nat) :
  valid s idx -> ravel s idx < size s.
Proof.
  intros V. induction V as [|d i s idx Hi V IH]; simpl; [lia|].
  nia.
Qed.

Lemma indices_valid (s : Shape) (idx : list nat) :
  In idx (indices s) <-> valid s idx.
Proof.
  revert idx. induction s as [|d s IH]; intros idx; simpl.
  - split.
    + intros [<-|[]]. constructor.
    + intros V. inversion V. now left.
  - rewrite in_flat_map. split.
    + intros (i & Hi & Hin). apply in_map_iff in Hin as (r & <- & Hr).
      apply in_seq in Hi. constructor; [lia|]. now apply IH.
    + intros V. inversion V as [|? i ? r Hi Vr]; subst.
      exists i. split; [apply in_seq; lia|].
      apply in_map. now apply IH.
Qed.

Lemma length_indices (s : Shape) : length (indices s) = size s.
Proof.
  induction s as [|d s IH]; simpl; [reflexivity|].
  generalize 0 as a. induction d as [|d IHd]; intros a; simpl; [reflexivity|].
  rewrite length_app, length_map, IH, IHd. reflexivity.
Qed.

Lemma map_add_seq (c b n : nat) :
  map (fun r => c + r) (seq b n) = seq (c + b) n.
Proof.
  revert b. induction n as [|n IHn]; intros b; simpl; [reflexivity|].
  f_equal. rewrite IHn. f_equal. lia.
Qed.

Lemma ravel_indices (s : Shape) : map (ravel s) (indices s) = seq 0 (size s).
Proof.
  induction s as [|d s IH]; simpl; [reflexivity|].
  assert (G : forall a,
             map (ravel (d :: s))
                 (flat_map (fun i => map (cons i) (indices s)) (seq a d))
             = seq (a * size s) (d * size s)).
  { induction d as [|d IHd]; intros a; simpl; [reflexivity|].
    rewrite map_app, map_map. simpl.
    rewrite seq_app. f_equal.
    - rewrite <- (map_map (ravel s) (fun r => a * size s + r)), IH.
      rewrite map_add_seq. f_equal. lia.
    - specialize (IHd (S a)). simpl in IHd.
      replace (a * size s + size s) with (size s + a * size s) by lia.
      exact IHd. }
  exact (G 0).
Qed.

Lemma map_nth_seq (A : Type) (l : list A) (d : A) :
  map (fun k => nth k l d) (seq 0 (length l)) = l.
Proof.
  induction l as [|a l IH]; simpl; [reflexivity|].
  f_equal. rewrite <- seq_shift, map_map. exact IH.
Qed.

Lemma nth_indices (s : Shape) (idx : list nat) :
  valid s idx -> nth (ravel s idx) (indices s) [] = idx.
Proof.
  intros V.
  assert (Hin : In idx (indices s)) by now apply indices_valid.
  apply In_nth with (d := []) in Hin as (k & Hk & Hnth).
  assert (E : ravel s idx = k).
  { rewrite <- Hnth.
    change (ravel s (nth k (indices s) [])) with
      ((fun i => ravel s i) (nth k (indices s) [])).
    rewrite <- map_nth with (f := ravel s).
    rewrite ravel_indices. rewrite length_indices in Hk.
    rewrite seq_nth by assumption. reflexivity. }
  rewrite E. exact Hnth.
Qed.

Section ArrayFacts.

Context {T : Type} `{Scalar T}.

Lemma get_tabulate (d : Dtype) (s : Shape) (f : list nat -> T)
  (idx : list nat) :
  valid s idx -> get (tabulate d s f) idx = f idx.
Proof.
  intros V. unfold get, tabulate. simpl.
  rewrite nth_indep with (d' := f []).
  - rewrite map_nth. now rewrite nth_indices.
  - rewrite length_map, length_indices. now apply ravel_lt.
Qed.

Lemma wf_tabulate (d : Dtype) (s : Shape) (f : list nat -> T) :
  wf (tabulate d s f).
Proof. unfold wf, tabulate. simpl. now rewrite length_map, length_indices. Qed.

Lemma tabulate_ext (d : Dtype) (s : Shape) (f g : list nat -> T) :
  (forall idx, valid s idx -> f idx = g idx) ->
  tabulate d s f = tabulate d s g.
Proof.
  intros E. unfold tabulate. f_equal. apply map_ext_in.
  intros idx Hin. apply E. now apply indices_valid.
Qed.

Lemma data_tabulate (a : Array T) :
  wf a -> data a = map (get a) (indices (shape a)).
Proof.
  intros W. unfold get.
  rewrite <- (map_map (ravel (shape a)) (fun k => nth k (data a) s0)).
  rewrite ravel_indices, <- W. symmetry. apply map_nth_seq.
Qed.

Lemma array_eta (a : Array T) :
  wf a -> a = tabulate (dtype a) (shape a) (get a).
Proof.
  intros W. destruct a as [d s l]. unfold tabulate. simpl.
  f_equal. exact (data_tabulate W).
Qed.

End ArrayFacts.

(** ** Broadcasting against equal shapes and scalars *)

Lemma bidx_same (s : Shape) (idx : list nat) :
  valid s idx -> bidx s idx = idx.
Proof.
  intros V. unfold bidx. rewrite (valid_length V), Nat.sub_diag. simpl.
  induction V as [|d i s idx Hi V IH]; simpl; [reflexivity|].
  rewrite IH. destruct (Nat.eqb_spec d 1); [f_equal; lia|reflexivity].
Qed.

Lemma bshape_same (s : Shape) : bshape s s = s.
Proof.
  unfold bshape, pad_shape. rewrite Nat.max_id, Nat.sub_diag. simpl.
  induction s as [|d s IH]; simpl; [reflexivity|].
  rewrite IH. now destruct (Nat.eqb_spec d 1); subst.
Qed.

Lemma bshape_nil_r (s : Shape) : bshape s [] = s.
Proof.
  unfold bshape, pad_shape. simpl. rewrite Nat.max_0_r, Nat.sub_diag.
  rewrite Nat.sub_0_r, app_nil_r. simpl.
  induction s as [|d s IH]; simpl; [reflexivity|].
  rewrite IH. now destruct (Nat.eqb_spec d 1); subst.
Qed.

Lemma map_combine_map (A B C D : Type) (g : B * C -> D) (f1 : A -> B)
  (f2 : A -> C) (l : list A) :
  map g (combine (map f1 l) (map f2 l)) = map (fun x => g (f1 x, f2 x)) l.
Proof. induction l as [|x l IH]; simpl; [reflexivity|]. now rewrite IH. Qed.

Lemma combine_map_map (A B C D : Type) (f : A -> C) (g : B -> D)
  (l1 : list A) (l2 : list B) :
  combine (map f l1) (map g l2)
  = map (fun ab => (f (fst ab), g (snd ab))) (combine l1 l2).
Proof.
  revert l2. induction l1 as [|a l1 IH]; intros [|b l2]; simpl;
    try reflexivity.
  now rewrite IH.
Qed.

Section BroadcastFacts.

Context {T : Type} `{Scalar T}.

(** Two well-formed arrays of one shape are combined entry by entry. *)
Lemma map2_same_shape (f : Dtype -> T -> T -> T) (a b : Array T) :
  wf a -> wf b -> shape a = shape b ->
  map2 f a b =
  mkArray (promote_types (dtype a) (dtype b)) (shape a)
    (map (fun xy => f (promote_types (dtype a) (dtype b)) (fst xy) (snd xy))
         (combine (data a) (data b))).
Proof.
  intros Wa Wb E. unfold map2, tabulate. rewrite <- E, bshape_same.
  f_equal.
  replace (data a) with (map (get a) (indices (shape a)))
    by (symmetry; exact (data_tabulate Wa)).
  replace (data b) with (map (get b) (indices (shape a)))
    by (rewrite E; symmetry; exact (data_tabulate Wb)).
  rewrite map_combine_map. apply map_ext_in. intros idx Hin.
  apply indices_valid in Hin. simpl.
  now rewrite (bidx_same Hin).
Qed.

(** An array against a rank-0 array: the scalar meets every entry. *)
Lemma map2_scalar_r (f : Dtype -> T -> T -> T) (a b : Array T) (c : T) :
  wf a -> shape b = [] -> data b = [c] ->
  map2 f a b =
  mkArray (promote_types (dtype a) (dtype b)) (shape a)
    (map (fun x => f (promote_types (dtype a) (dtype b)) x c) (data a)).
Proof.
  intros Wa Sb Db. unfold map2, tabulate. rewrite Sb, bshape_nil_r.
  f_equal.
  replace (data a) with (map (get a) (indices (shape a))) at 1
    by (symmetry; exact (data_tabulate Wa)).
  rewrite map_map.
  apply map_ext_in. intros idx Hin. apply indices_valid in Hin.
  rewrite (bidx_same Hin). unfold bidx, get at 2. rewrite Sb, Db.
  reflexivity.
Qed.

End BroadcastFacts.

(** ** GroupNorm construction *)

Section GroupNormInit.

Context {T : Type} `{Scalar T}.

Variables (epsilon : T) (dtype_ : option Dtype) (param_dtype : Dtype).
Variables (use_bias use_scale : bool).
Variables (bias_init scale_init : Initializer (T := T)).
Variables (reduction_axes : option Axes) (use_fast_variance : bool).
Variable rngs : Rngs.

Lemma GroupNorm_init_ok (num_features : Z) (num_groups group_size : option Z)
  (g s : Z) :
  GroupNorm.groups num_features num_groups group_size = Ok (g, s) ->
  exists self rngs',
    (GroupNorm.__init__ num_features num_groups group_size epsilon dtype_
       param_dtype use_bias use_scale bias_init scale_init reduction_axes
       use_fast_variance rngs) = Ok (self, rngs')
    /\ GroupNorm.num_groups self = g /\ GroupNorm.group_size self = s.
Proof.
  intros E. unfold GroupNorm.__init__. rewrite E.
  destruct use_scale, use_bias; simpl; eexists; eexists;
    (split; [reflexivity|split; reflexivity]).
Qed.

Lemma GroupNorm_init_error (num_features : Z)
  (num_groups group_size : option Z) (e : exn) :
  GroupNorm.groups num_features num_groups group_size = Error e ->
  (GroupNorm.__init__ num_features num_groups group_size epsilon dtype_
       param_dtype use_bias use_scale bias_init scale_init reduction_axes
       use_fast_variance rngs) = Error e.
Proof. intros E. unfold GroupNorm.__init__. now rewrite E. Qed.

(** C8. Construction of a GroupNorm fails when both [num_groups] and
    [group_size] are given or neither is, and fails when the given count
    does not divide [num_features]; for a positive count that divides
    [num_features] it succeeds, and then
    [num_groups * group_size = num_features]. *)
Theorem GroupNorm_init_validation (num_features : Z) :
  (forall a b, (GroupNorm.__init__ num_features (Some a) (Some b) epsilon dtype_
       param_dtype use_bias use_scale bias_init scale_init reduction_axes
       use_fast_variance rngs) = Error ValueError)
  /\ (GroupNorm.__init__ num_features None None epsilon dtype_
       param_dtype use_bias use_scale bias_init scale_init reduction_axes
       use_fast_variance rngs) = Error ValueError
  /\ (forall g, ~ (g | num_features)%Z ->
        (GroupNorm.__init__ num_features (Some g) None epsilon dtype_
       param_dtype use_bias use_scale bias_init scale_init reduction_axes
       use_fast_variance rngs) = Error ValueError
        /\ exists e, (GroupNorm.__init__ num_features None (Some g) epsilon dtype_
       param_dtype use_bias use_scale bias_init scale_init reduction_axes
       use_fast_variance rngs) = Error e)
  /\ (forall g, (0 < g)%Z -> (g | num_features)%Z ->
        (exists self rngs',
           (GroupNorm.__init__ num_features (Some g) None epsilon dtype_
       param_dtype use_bias use_scale bias_init scale_init reduction_axes
       use_fast_variance rngs) = Ok (self, rngs')
           /\ GroupNorm.num_groups self = g
           /\ (GroupNorm.num_groups self * GroupNorm.group_size self
               = num_features)%Z)
        /\ (exists self rngs',
              (GroupNorm.__init__ num_features None (Some g) epsilon dtype_
       param_dtype use_bias use_scale bias_init scale_init reduction_axes
       use_fast_variance rngs) = Ok (self, rngs')
              /\ GroupNorm.group_size self = g
              /\ (GroupNorm.num_groups self * GroupNorm.group_size self
                  = num_features)%Z)).
Proof.
  split; [|split; [|split]].
  - intros a b. now apply GroupNorm_init_error.
  - now apply GroupNorm_init_error.
  - intros g Hd. split.
    + apply GroupNorm_init_error. unfold GroupNorm.groups.
      destruct (Z.leb_spec g 0) as [Hg|Hg]; [reflexivity|]. simpl.
      destruct (Z.eqb_spec (num_features mod g) 0) as [E|E]; [|reflexivity].
      exfalso. apply Hd. apply Z.mod_divide; [lia|exact E].
    + unfold GroupNorm.__init__, GroupNorm.groups.
      destruct (Z.eqb_spec g 0) as [Hg|Hg]; [now eexists|].
      destruct (Z.eqb_spec (num_features mod g) 0) as [E|E];
        [|now eexists].
      exfalso. apply Hd. apply Z.mod_divide; [lia|exact E].
  - intros g Hg Hd.
    assert (E : (num_features mod g = 0)%Z)
      by (apply Z.mod_divide; [lia|exact Hd]).
    assert (M : (g * (num_features / g) = num_features)%Z).
    { pose proof (Z.div_mod num_features g ltac:(lia)). lia. }
    split.
    + destruct (@GroupNorm_init_ok num_features (Some g) None g
                  (num_features / g)%Z) as (self & r & E1 & E2 & E3).
      { unfold GroupNorm.groups.
        destruct (Z.leb_spec g 0); [lia|]. simpl. now rewrite E. }
      exists self, r. rewrite E2, E3. auto.
    + destruct (@GroupNorm_init_ok num_features None (Some g)
                  (num_features / g)%Z g) as (self & r & E1 & E2 & E3).
      { unfold GroupNorm.groups.
        destruct (Z.eqb_spec g 0); [lia|]. now rewrite E. }
      exists self, r. rewrite E2, E3. split; [exact E1|]. split; [auto|lia].
Qed.

End GroupNormInit.

(** The statement at six channels: three groups are accepted, four are
    not. *)
Lemma GroupNorm_init_validation_witness :
  (exists self rngs',
     GroupNorm.__init__ (T := R) 6 (Some 3%Z) None 0%R None float32 true true
       zeros_init ones_init None true (mkRngs 0 0) = Ok (self, rngs')
     /\ GroupNorm.num_groups self = 3%Z
     /\ (GroupNorm.num_groups self * GroupNorm.group_size self = 6)%Z)
  /\ GroupNorm.__init__ (T := R) 6 (Some 4%Z) None 0%R None float32 true true
       zeros_init ones_init None true (mkRngs 0 0) = Error ValueError.
Proof.
  pose proof (@GroupNorm_init_validation R 0%R None float32 true true
                zeros_init ones_init None true (mkRngs 0 0) 6%Z)
    as (_ & _ & Hbad & Hok).
  split.
  - apply (Hok 3%Z); [lia|]. exists 2%Z. reflexivity.
  - apply (Hbad 4%Z). intros [z Hz]. lia.
Defined.

(** ** BatchNorm *)

Section BatchNormFacts.

Context {T : Type} `{Scalar T}.

Lemma size_singleton (n : nat) : size [n] = n.
Proof. simpl. lia. Qed.

(** C10. A newly constructed BatchNorm holds a running mean of zeros and
    a running variance of ones, both of shape [(num_features,)] and dtype
    float32; a call in running-average mode made on it normalizes the
    input with exactly these buffers and leaves them as they are. *)
Theorem BatchNorm_init_buffers (num_features : nat)
  (use_running_average : option bool) (axis : Z) (momentum epsilon : T)
  (dtype_ : option Dtype) (param_dtype : Dtype) (use_bias use_scale : bool)
  (bias_init scale_init : Initializer (T := T)) (use_fast_variance : bool)
  (rngs : Rngs) (x : Array T) (call_flag : option bool)
  (mask : option Mask) :
  first_from call_flag use_running_average = Ok true ->
  let self :=
    fst (BatchNorm.__init__ num_features use_running_average axis momentum
           epsilon dtype_ param_dtype use_bias use_scale bias_init
           scale_init use_fast_variance rngs) in
  BatchNorm.mean_ self = mkArray float32 [num_features] (repeat s0 num_features)
  /\ BatchNorm.var self = mkArray float32 [num_features] (repeat s1 num_features)
  /\ BatchNorm.__call__ self x call_flag mask =
     Ok (_normalize x
           (mkArray float32 [num_features] (repeat s0 num_features))
           (mkArray float32 [num_features] (repeat s1 num_features))
           (BatchNorm.scale self) (BatchNorm.bias self)
           (AxSeq (fst (BatchNorm_axes self x)))
           (AxSeq (snd (BatchNorm_axes self x)))
           dtype_ epsilon,
         self).
Proof.
  intros F self.
  assert (M : BatchNorm.mean_ self
              = mkArray float32 [num_features] (repeat s0 num_features)).
  { unfold self, BatchNorm.__init__.
    destruct use_scale, use_bias; simpl; unfold zeros, full;
      now rewrite size_singleton. }
  assert (V : BatchNorm.var self
              = mkArray float32 [num_features] (repeat s1 num_features)).
  { unfold self, BatchNorm.__init__.
    destruct use_scale, use_bias; simpl; unfold ones, full;
      now rewrite size_singleton. }
  assert (U : BatchNorm.use_running_average self = use_running_average).
  { unfold self, BatchNorm.__init__. now destruct use_scale, use_bias. }
  assert (D : BatchNorm.dtype_ self = dtype_).
  { unfold self, BatchNorm.__init__. now destruct use_scale, use_bias. }
  assert (E : BatchNorm.epsilon self = epsilon).
  { unfold self, BatchNorm.__init__. now destruct use_scale, use_bias. }
  split; [exact M|]. split; [exact V|].
  unfold BatchNorm.__call__. rewrite U, F. unfold BatchNorm_axes. simpl.
  now rewrite M, V, D, E.
Qed.

(** C2. A BatchNorm call that is not in running-average mode computes the
    statistics of the input, normalizes the input with them, and stores
    [momentum * old + (1 - momentum) * new] in both running buffers; entry
    by entry when the statistics have the buffers' shape. *)
Theorem BatchNorm_call_training (self : BatchNorm.t T) (x : Array T)
  (call_flag : option bool) (mask : option Mask) :
  first_from call_flag (BatchNorm.use_running_average self) = Ok false ->
  let new :=
    _compute_stats x (AxSeq (fst (BatchNorm_axes self x)))
                   (BatchNorm.dtype_ self) true
                   (BatchNorm.use_fast_variance self) mask in
  exists self',
    BatchNorm.__call__ self x call_flag mask =
    Ok (_normalize x (fst new) (snd new)
          (BatchNorm.scale self) (BatchNorm.bias self)
          (AxSeq (fst (BatchNorm_axes self x)))
          (AxSeq (snd (BatchNorm_axes self x)))
          (BatchNorm.dtype_ self) (BatchNorm.epsilon self),
        self')
    /\ BatchNorm.mean_ self'
       = BatchNorm.ema (BatchNorm.momentum self) (BatchNorm.mean_ self)
                       (fst new)
    /\ BatchNorm.var self'
       = BatchNorm.ema (BatchNorm.momentum self) (BatchNorm.var self)
                       (snd new)
    /\ (forall old stat : Array T,
          wf old -> wf stat -> shape old = shape stat ->
          data (BatchNorm.ema (BatchNorm.momentum self) old stat)
          = map (fun on =>
                   sadd (promote_types (dtype old) (dtype stat))
                     (smul (dtype old) (BatchNorm.momentum self) (fst on))
                     (smul (dtype stat)
                        (ssub float64 s1 (BatchNorm.momentum self))
                        (snd on)))
                (combine (data old) (data stat))).
Proof.
  intros F new. subst new. unfold BatchNorm.__call__. rewrite F.
  unfold BatchNorm_axes. cbn [fst snd].
  destruct (_compute_stats x _ _ _ _ _) as [m v]. cbn [fst snd].
  eexists. split; [reflexivity|]. split; [reflexivity|].
  split; [reflexivity|].
  intros old stat Wo Ws E. unfold BatchNorm.ema, add.
  rewrite map2_same_shape.
  - simpl. rewrite combine_map_map. rewrite map_map. reflexivity.
  - unfold wf, map_scalar. simpl. now rewrite length_map.
  - unfold wf, map_scalar. simpl. now rewrite length_map.
  - exact E.
Qed.

End BatchNormFacts.

(** The two BatchNorm statements at a layer of three features and the
    input [[1, 2, 3], [4, 5, 6]]. *)
Lemma BatchNorm_init_buffers_witness :
  BatchNorm.mean_
    (fst (BatchNorm.__init__ 3 (Some true) (-1) (99 / 100)%R (1 / 100000)%R
            None float32 true true zeros_init ones_init true (mkRngs 0 0)))
  = mkArray float32 [3] [0; 0; 0]%R.
Proof.
  exact (proj1 (@BatchNorm_init_buffers R _ 3 (Some true) (-1)%Z
                  (99 / 100)%R (1 / 100000)%R None float32 true true
                  zeros_init ones_init true (mkRngs 0 0) x23 None None
                  eq_refl)).
Defined.

Lemma BatchNorm_call_training_witness :
  let self :=
    fst (BatchNorm.__init__ 3 (Some false) (-1) (99 / 100)%R (1 / 100000)%R
           None float32 true true zeros_init ones_init true (mkRngs 0 0)) in
  exists y self', BatchNorm.__call__ self x23 None None = Ok (y, self').
Proof.
  intros self.
  destruct (@BatchNorm_call_training R _ self x23 None None eq_refl)
    as (self' & E & _).
  eexists. exists self'. exact E.
Defined.

(** ** Axis canonicalization *)

(** C6. At rank 9 the axes [(1, -1)] canonicalize to [(8, 1)]: the negative
    axis is replaced and the entries are non-negative and distinct, but the
    tuple follows the iteration order of the set and is not ascending. *)
Theorem canonicalize_axes_rank9 :
  _canonicalize_axes 9 (AxSeq [1; -1]%Z) = [8; 1]%Z.
Proof. vm_compute. reflexivity. Qed.

(** Up to rank 8 the same axes come out ascending. *)
Example canonicalize_axes_rank8 :
  _canonicalize_axes 8 (AxSeq [1; -1]%Z) = [1; 7]%Z.
Proof. vm_compute. reflexivity. Qed.

(** ** The statistics engine over the reals *)

Lemma nonneg_get (a : Array R) (idx : list nat) :
  nonneg a -> (0 <= get a idx)%R.
Proof.
  intros N. unfold get.
  destruct (Nat.lt_ge_cases (ravel (shape a) idx) (length (data a)))
    as [L|L].
  - unfold nonneg in N. rewrite Forall_forall in N. apply N.
    now apply nth_In.
  - rewrite nth_overflow by assumption. simpl. lra.
Qed.

Lemma nonneg_tabulate (d : Dtype) (s : Shape) (f : list nat -> R) :
  (forall idx, 0 <= f idx)%R -> nonneg (tabulate d s f).
Proof.
  intros P. unfold nonneg, tabulate. simpl. apply Forall_forall.
  intros v Hin. apply in_map_iff in Hin as (idx & <- & _). apply P.
Qed.

Lemma nonneg_square (a : Array R) : nonneg (square a).
Proof.
  unfold nonneg, square, map_scalar. simpl. apply Forall_forall.
  intros v Hin. apply in_map_iff in Hin as (x & <- & _). nra.
Qed.

Lemma sum_list_nonneg (l : list R) :
  Forall (fun v => 0 <= v)%R l -> (0 <= fold_right Rplus 0 l)%R.
Proof. induction 1; simpl; lra. Qed.

Lemma Rdiv_nonneg (a b : R) : (0 <= a -> 0 <= b -> 0 <= a / b)%R.
Proof.
  intros Ha Hb. destruct (Req_dec b 0) as [->|Nz].
  - unfold Rdiv. rewrite Rinv_0. lra.
  - apply Rmult_le_pos; [exact Ha|].
    apply Rlt_le, Rinv_0_lt_compat. lra.
Qed.

Lemma nonneg_sum (axes : list Z) (keepdims : bool) (mask : option Mask)
  (a : Array R) : nonneg a -> nonneg (sum axes keepdims mask a).
Proof.
  intros N. unfold sum. apply nonneg_tabulate. intros oi. simpl.
  apply sum_list_nonneg.
  assert (E : Forall (fun v => 0 <= v)%R (red_elems axes keepdims a oi)).
  { unfold red_elems. apply Forall_forall. intros v Hin.
    apply in_map_iff in Hin as (ri & <- & _). now apply nonneg_get. }
  destruct mask as [m|]; [|exact E].
  revert E. generalize (red_elems axes keepdims a oi).
  generalize (red_mask axes keepdims a m oi).
  induction l as [|b l IH]; intros xs E; simpl; [constructor|].
  destruct xs as [|v xs]; simpl; [constructor|].
  inversion E; subst. constructor; [|now apply IH].
  simpl. destruct b; [assumption|lra].
Qed.

Lemma normalizer_nonneg (axes : list Z) (keepdims : bool)
  (mask : option Mask) (a : Array R) (oi : list nat) :
  (0 <= normalizer axes keepdims mask a oi)%R.
Proof.
  unfold normalizer. destruct mask as [m|]; simpl.
  - apply sum_list_nonneg. apply Forall_forall. intros v Hin.
    apply in_map_iff in Hin as (b & <- & _). destruct b; lra.
  - apply pos_INR.
Qed.

Lemma nonneg_mean (axes : list Z) (keepdims : bool) (mask : option Mask)
  (a : Array R) : nonneg a -> nonneg (mean axes keepdims mask a).
Proof.
  intros N. unfold mean. apply nonneg_tabulate. intros oi. simpl.
  apply Rdiv_nonneg.
  - apply nonneg_get. now apply nonneg_sum.
  - apply normalizer_nonneg.
Qed.

(** C3. The variance [_compute_stats] returns has no negative entry, for
    every input, axes, dtype and mask: with [use_fast_variance] the
    difference [E[x^2] - E[x]^2] goes through [maximum(0, .)], and
    otherwise (and without the mean) it is a mean of squares. *)
Theorem compute_stats_var_nonneg (x : Array R) (axes : Axes)
  (dtype_ : option Dtype) (use_mean use_fast_variance : bool)
  (mask : option Mask) :
  Forall (fun v => 0 <= v)%R
    (data (snd (_compute_stats x axes dtype_ use_mean use_fast_variance
                  mask))).
Proof.
  unfold _compute_stats.
  destruct use_mean; [destruct use_fast_variance|]; cbn [snd].
  - unfold map_scalar. cbn [data]. apply Forall_forall. intros v Hin.
    apply in_map_iff in Hin as (w & <- & _). simpl. apply Rmax_l.
  - apply nonneg_mean, nonneg_square.
  - apply nonneg_mean, nonneg_square.
Qed.

(** ** SpectralNorm *)

Section SpectralNormInit.

Context {T : Type} `{Scalar T}.

Variable random_normal : Key -> Shape -> Dtype -> Array T.

(** C7 (as the code has it). Without persisted power-iteration state the
    estimate [u] of an eligible parameter is the sampler's normal draw of
    shape [(1, n)], [n] the last size of the parameter, taken with the next
    key of the RNG source and not rescaled; the missing [sigma] is the
    scalar one. *)
Theorem SpectralNorm_lazy_state (self : SpectralNorm.t T) (state : State T)
  (rngs : Rngs) (path : Path) (value : Array T) :
  state_get state (SpectralNorm.var_name self path "/u"%string) = None ->
  state_get state (SpectralNorm.var_name self path "/sigma"%string) = None ->
  SpectralNorm.get_u random_normal self state rngs path value
  = (random_normal (rng_seed rngs, rng_count rngs)
       [1; last (shape value) 0] (SpectralNorm.param_dtype self),
     mkRngs (rng_seed rngs) (S (rng_count rngs)))
  /\ SpectralNorm.get_sigma self state path
     = mkArray (SpectralNorm.param_dtype self) [] [s1].
Proof.
  intros Hu Hs. unfold SpectralNorm.get_u, SpectralNorm.get_sigma.
  rewrite Hu, Hs. split; reflexivity.
Qed.

End SpectralNormInit.

Lemma SpectralNorm_lazy_state_witness :
  fst (SpectralNorm.get_u sampler_twos sn_example [] (mkRngs 0 0)
         ["kernel"%string] w32)
  = mkArray float32 [1; 2] [2; 2]%R.
Proof.
  exact (f_equal fst
           (proj1 (@SpectralNorm_lazy_state R _ sampler_twos sn_example []
                     (mkRngs 0 0) ["kernel"%string] w32 eq_refl eq_refl))).
Defined.

(** The claim itself fails: the draw is not a unit vector.  With a sampler
    that returns twos, the first [u] of a 3x2 kernel has norm [sqrt 8]. *)
Lemma SpectralNorm_u_not_unit :
  state_get (@nil (Path * Array R))
    (SpectralNorm.var_name sn_example ["kernel"%string] "/u"%string) = None
  /\ l2_norm (fst (SpectralNorm.get_u sampler_twos sn_example []
                     (mkRngs 0 0) ["kernel"%string] w32)) <> 1%R.
Proof.
  split; [reflexivity|].
  unfold l2_norm. simpl.
  intros E. apply (f_equal (fun r => r * r)%R) in E.
  rewrite sqrt_sqrt in E by lra. lra.
Qed.

Lemma size_removelast (s : Shape) :
  s <> [] -> size s = size (removelast s) * last s 0.
Proof.
  induction s as [|d s IH]; intros N; [congruence|].
  destruct s as [|e s]; [simpl; lia|].
  change (size (d :: e :: s)) with (d * size (e :: s)).
  change (removelast (d :: e :: s)) with (d :: removelast (e :: s)).
  change (last (d :: e :: s) 0) with (last (e :: s) 0).
  change (size (d :: removelast (e :: s)))
    with (d * size (removelast (e :: s))).
  rewrite IH by discriminate. lia.
Qed.

Lemma Path_eqb_refl (p : Path) : Path_eqb p p = true.
Proof. unfold Path_eqb. now destruct (list_eq_dec String.string_dec p p). Qed.

Section ContainerFacts.

Context {T : Type} `{Scalar T}.

Lemma state_get_set (st : State T) (p : Path) (v : Array T) :
  state_get (state_set st p v) p = Some v.
Proof.
  induction st as [|[q w] st IH]; simpl.
  - now rewrite Path_eqb_refl.
  - destruct (Path_eqb q p) eqn:E; simpl; rewrite E; [reflexivity|exact IH].
Qed.

Lemma wf_as_matrix (w : Array T) : wf w -> wf (as_matrix w).
Proof.
  intros W. unfold as_matrix.
  destruct (Nat.ltb_spec 2 (length (shape w))) as [L|L]; [|exact W].
  unfold wf in *. cbn [data shape]. rewrite W.
  assert (N : shape w <> []) by (intros E; rewrite E in L; simpl in L; lia).
  pose proof (size_removelast N) as Hs.
  change (size [size (shape w) / last (shape w) 0; last (shape w) 0])
    with (size (shape w) / last (shape w) 0 * (last (shape w) 0 * 1)).
  rewrite Hs. destruct (last (shape w) 0) as [|n]; [lia|].
  rewrite Nat.div_mul by lia. lia.
Qed.

Lemma power_iteration_bound (n : nat) (eps : T) (value u v : Array T) :
  exists u' v',
    SpectralNorm.power_iteration n eps value u (Some v) = (u', Some v').
Proof.
  revert u v. induction n as [|n IH]; intros u v; simpl.
  - now exists u, v.
  - apply IH.
Qed.

Lemma power_iteration_runs (n : nat) (eps : T) (value u : Array T) :
  1 <= n ->
  exists u' v',
    SpectralNorm.power_iteration n eps value u None = (u', Some v').
Proof.
  intros L. destruct n as [|n]; [lia|]. simpl. apply power_iteration_bound.
Qed.

End ContainerFacts.

Section SpectralNormDivision.

Variable random_normal : Key -> Shape -> Dtype -> Array R.

(** C9. For an eligible parameter [W] (rank at least 2, at least one
    power-iteration step, no rank error) [spectral_normalize] returns [W]
    with every entry divided by the sigma it computed, in the shape of
    [W]; when that sigma is zero the divisor is 1 and the entries are those
    of [W]; the divisor is never zero.  With [update_stats] the same sigma
    is stored. *)
Theorem spectral_normalize_division (self : SpectralNorm.t R)
  (update_stats : bool) (state : State R) (rngs : Rngs) (path : Path)
  (W : Array R) :
  wf W -> 2 <= ndim W -> (1 <= SpectralNorm.n_steps self)%Z ->
  (2 < ndim W -> SpectralNorm.error_on_non_matrix self = false) ->
  exists u v out state' rngs',
    let M := as_matrix W in
    let sigma := get (matmul (matmul v M) (transpose u)) [0; 0] in
    let d := if Req_dec_T sigma 0 then 1%R else sigma in
    SpectralNorm.power_iteration (Z.to_nat (SpectralNorm.n_steps self))
      (SpectralNorm.epsilon self) M
      (fst (SpectralNorm.get_u random_normal self state rngs path M)) None
    = (u, Some v)
    /\ SpectralNorm.spectral_normalize random_normal self update_stats state
         rngs path W = Ok (out, state', rngs')
    /\ shape out = shape W
    /\ data out = map (fun w => w / d)%R (data W)
    /\ d <> 0%R
    /\ (sigma = 0%R -> data out = data W)
    /\ (update_stats = true ->
        exists dt,
          state_get state'
            (SpectralNorm.var_name self path "/sigma"%string)
          = Some (mkArray dt [] [sigma])).
Proof.
  intros Wf R2 N1 Herr.
  unfold SpectralNorm.spectral_normalize.
  destruct (Nat.leb_spec (ndim W) 1) as [L|_]; [lia|].
  destruct (Z.ltb_spec (SpectralNorm.n_steps self) 1) as [L|_]; [lia|].
  cbn [orb].
  assert (E2 : (2 <? ndim W) && SpectralNorm.error_on_non_matrix self
               = false).
  { destruct (Nat.ltb_spec 2 (ndim W)) as [L|L]; [|reflexivity].
    now rewrite (Herr L). }
  rewrite E2.
  assert (EM : (if 2 <? ndim W
                then reshape W [size (shape W) / last (shape W) 0;
                                last (shape W) 0]
                else W) = as_matrix W) by reflexivity.
  rewrite EM. clear EM.
  pose proof (wf_as_matrix Wf) as WM.
  set (M := as_matrix W) in *.
  destruct (SpectralNorm.get_u random_normal self state rngs path M)
    as [u0 rngs1] eqn:Eu.
  destruct (@power_iteration_runs R _
              (Z.to_nat (SpectralNorm.n_steps self))
              (SpectralNorm.epsilon self) M u0 ltac:(lia))
    as (u & v & Ep).
  cbn [fst]. rewrite Ep.
  set (sigma := get (matmul (matmul v M) (transpose u)) [0; 0]).
  set (d := if Req_dec_T sigma 0 then 1%R else sigma).
  assert (Ed : data (divide M (SpectralNorm.divisor
                                 (SpectralNorm.compute_sigma M u v)))
               = map (fun w => w / d)%R (data W)).
  { unfold divide.
    rewrite (@map2_scalar_r R _ sdiv M _ d WM); try reflexivity.
    - cbn [data]. unfold M, as_matrix.
      now destruct (2 <? length (shape W)).
    - unfold SpectralNorm.divisor, SpectralNorm.compute_sigma, map_scalar.
      cbn [data map]. fold sigma. unfold d. simpl.
      now destruct (Req_dec_T sigma 0). }
  assert (Dnz : d <> 0%R).
  { unfold d. destruct (Req_dec_T sigma 0); [lra|assumption]. }
  exists u, v. eexists. eexists. eexists.
  split; [reflexivity|]. split; [reflexivity|].
  cbn [shape data asarray reshape]. rewrite Ed.
  split; [reflexivity|].
  split; [simpl; now rewrite map_id|].
  split; [exact Dnz|].
  split.
  - intros Z0. simpl. rewrite map_id.
    unfold d. destruct (Req_dec_T sigma 0) as [_|Nz]; [|contradiction].
    rewrite <- (map_id (data W)) at 2. apply map_ext. intros w. lra.
  - intros ->. eexists. rewrite state_get_set.
    unfold SpectralNorm.compute_sigma. reflexivity.
Qed.

End SpectralNormDivision.

Lemma spectral_normalize_division_witness :
  exists out state' rngs',
    SpectralNorm.spectral_normalize sampler_twos sn_example true [] 
      (mkRngs 0 0) ["kernel"%string] w32 = Ok (out, state', rngs')
    /\ shape out = [3; 2].
Proof.
  destruct (@spectral_normalize_division sampler_twos sn_example true []
              (mkRngs 0 0) ["kernel"%string] w32)
    as (u & v & out & st & r & _ & E & S & _).
  - reflexivity.
  - unfold ndim, w32. simpl. lia.
  - unfold sn_example, SpectralNorm.__init__. simpl. lia.
  - intros _. reflexivity.
  - exists out, st, r. split; [exact E|exact S].
Defined.

(** ** Shapes that broadcast into a shape *)

Lemma sub_shape_length (s s' : Shape) : sub_shape s s' -> length s' = length s.
Proof. intros S. symmetry. exact (Forall2_length S). Qed.

Lemma sub_shape_refl (s : Shape) : sub_shape s s.
Proof. induction s; constructor; auto. Qed.

Lemma sub_shape_ones (s : Shape) : sub_shape s (repeat 1 (length s)).
Proof. induction s; simpl; constructor; auto. Qed.

Lemma bshape_eq_length (s1 s2 : Shape) :
  length s1 = length s2 ->
  bshape s1 s2
  = map (fun dd : nat * nat => if fst dd =? 1 then snd dd else fst dd)
        (combine s1 s2).
Proof.
  intros E. unfold bshape, pad_shape.
  rewrite E, Nat.max_id, Nat.sub_diag. reflexivity.
Qed.

Lemma bshape_sub_r (s s' : Shape) : sub_shape s s' -> bshape s s' = s.
Proof.
  intros S. rewrite bshape_eq_length by (symmetry; now apply sub_shape_length).
  induction S as [|d d' s s' Hd S IH]; simpl; [reflexivity|].
  rewrite IH. destruct (Nat.eqb_spec d 1); [|reflexivity].
  f_equal. lia.
Qed.

Lemma bshape_sub_l (s s' : Shape) : sub_shape s s' -> bshape s' s = s.
Proof.
  intros S. rewrite bshape_eq_length by now apply sub_shape_length.
  induction S as [|d d' s s' Hd S IH]; simpl; [reflexivity|].
  rewrite IH. destruct (Nat.eqb_spec d' 1); [reflexivity|].
  f_equal. lia.
Qed.

Lemma sub_shape_bshape (s s1 s2 : Shape) :
  sub_shape s s1 -> sub_shape s s2 -> sub_shape s (bshape s1 s2).
Proof.
  intros S1 S2.
  rewrite bshape_eq_length
    by (rewrite (sub_shape_length S1); symmetry; now apply sub_shape_length).
  revert s2 S2. induction S1 as [|d d1 s s1 H1 S1 IH]; intros s2 S2;
    inversion S2 as [|? d2 ? s2' H2 S2']; subst; simpl; constructor.
  - destruct (Nat.eqb_spec d1 1); lia.
  - now apply IH.
Qed.

Lemma bidx_eq_length (s : Shape) (idx : list nat) :
  length idx = length s ->
  bidx s idx
  = map (fun di : nat * nat => if fst di =? 1 then 0 else snd di)
        (combine s idx).
Proof. intros E. unfold bidx. now rewrite E, Nat.sub_diag. Qed.

Lemma bidx_valid (s s' : Shape) (idx : list nat) :
  sub_shape s s' -> valid s idx -> valid s' (bidx s' idx).
Proof.
  intros S V.
  rewrite bidx_eq_length
    by (rewrite (valid_length V); symmetry; now apply sub_shape_length).
  revert idx V. induction S as [|d d' s s' Hd S IH]; intros idx V;
    inversion V as [|? i ? idx' Hi V']; subst; simpl; constructor.
  - destruct (Nat.eqb_spec d' 1); simpl; lia.
  - now apply IH.
Qed.

(** Reading through a broadcast of a broadcast. *)
Lemma bidx_bidx (t s1 : Shape) (idx : list nat) :
  sub_shape t s1 -> length idx = length t ->
  bidx s1 (bidx t idx) = bidx s1 idx.
Proof.
  intros S L.
  assert (L1 : length s1 = length t) by now apply sub_shape_length.
  rewrite (bidx_eq_length t idx L).
  rewrite !bidx_eq_length;
    try (rewrite ?length_map, ?length_combine; lia).
  revert idx L. clear L1.
  induction S as [|d d1 t s1 Hd S IH]; intros idx L;
    destruct idx as [|i idx]; simpl in *; try reflexivity; try discriminate.
  f_equal.
  - destruct (Nat.eqb_spec d1 1); [reflexivity|].
    destruct (Nat.eqb_spec d 1); [lia|reflexivity].
  - apply IH. lia.
Qed.

Lemma sub_shape_set_one (s s' : Shape) (p : nat) :
  sub_shape s s' -> sub_shape s (set_item s' p 1).
Proof.
  intros S. revert p. induction S as [|d d' s s' Hd S IH]; intros p; simpl;
    [constructor|].
  destruct p; constructor; auto. apply IH.
Qed.

Lemma sub_shape_set_same (s s' : Shape) (p : nat) :
  sub_shape s s' -> sub_shape s (set_item s' p (nth p s 0)).
Proof.
  intros S. revert p. induction S as [|d d' s s' Hd S IH]; intros p; simpl;
    [constructor|].
  destruct p; constructor; auto. now apply IH.
Qed.

Lemma sub_shape_stats (axes : list Z) (s : Shape) :
  sub_shape s (assign_axes axes (fun _ => 1) s).
Proof.
  unfold assign_axes. generalize (sub_shape_refl s).
  generalize s at 2 4 as s'. induction axes as [|a axes IH]; intros s' S;
    simpl; [exact S|].
  apply IH. now apply sub_shape_set_one.
Qed.

Lemma sub_shape_features (axes : list Z) (s : Shape) :
  sub_shape s
    (assign_axes axes (fun ax => nth ax s 0) (repeat 1 (length s))).
Proof.
  unfold assign_axes. generalize (sub_shape_ones s).
  generalize (repeat 1 (length s)) as s'.
  induction axes as [|a axes IH]; intros s' S; simpl; [exact S|].
  apply IH. now apply sub_shape_set_same.
Qed.

(** ** What a set of integers holds *)

Lemma keys_repeat_None (n : nat) : PySet.keys (repeat None n) = [].
Proof. induction n; simpl; auto. Qed.

Lemma keys_set_nth (tbl : list (option Z)) (i : nat) (e k : Z) :
  In k (PySet.keys (PySet.set_nth tbl i (Some e))) ->
  k = e \/ In k (PySet.keys tbl).
Proof.
  revert i. induction tbl as [|x tbl IH]; intros i; simpl; [tauto|].
  destruct i as [|i]; simpl.
  - intros [E|Hin]; [now left|]. right. apply in_or_app. now right.
  - intros Hin. apply in_app_or in Hin as [Hin|Hin].
    + right. apply in_or_app. now left.
    + destruct (IH i Hin) as [E|Hin']; [now left|].
      right. apply in_or_app. now right.
Qed.

Lemma keys_set_insert_clean (tbl : list (option Z)) (e k : Z) :
  In k (PySet.keys (PySet.set_insert_clean tbl e)) ->
  k = e \/ In k (PySet.keys tbl).
Proof.
  unfold PySet.set_insert_clean.
  destruct (PySet.find tbl e) as [[|i]|]; auto. apply keys_set_nth.
Qed.

Lemma keys_fold_insert (l : list Z) (tbl : list (option Z)) (k : Z) :
  In k (PySet.keys (fold_left PySet.set_insert_clean l tbl)) ->
  In k l \/ In k (PySet.keys tbl).
Proof.
  revert tbl. induction l as [|e l IH]; intros tbl; simpl; [tauto|].
  intros Hin. destruct (IH _ Hin) as [H|H]; [tauto|].
  destruct (keys_set_insert_clean _ _ _ H); auto.
Qed.

Lemma keys_set_add_entry (so : PySet.t) (e k : Z) :
  In k (PySet.keys (PySet.table (PySet.set_add_entry so e))) ->
  k = e \/ In k (PySet.keys (PySet.table so)).
Proof.
  unfold PySet.set_add_entry.
  destruct (PySet.find (PySet.table so) e) as [[|i]|]; auto.
  match goal with |- context [if ?c then _ else _] => destruct c end.
  - simpl. apply keys_set_nth.
  - unfold PySet.set_table_resize. cbn [PySet.table]. intros Hin.
    apply keys_fold_insert in Hin as [Hin|Hin].
    + now apply keys_set_nth in Hin.
    + rewrite keys_repeat_None in Hin. destruct Hin.
Qed.

Lemma to_tuple_of_list (l : list Z) (k : Z) :
  In k (PySet.to_tuple (PySet.of_list l)) -> In k l.
Proof.
  unfold PySet.of_list, PySet.to_tuple.
  assert (G : forall so,
             In k (PySet.keys (PySet.table (fold_left PySet.set_add_entry
                                              l so))) ->
             In k l \/ In k (PySet.keys (PySet.table so))).
  { induction l as [|e l IH]; intros so; simpl; [tauto|].
    intros Hin. destruct (IH _ Hin) as [H|H]; [tauto|].
    destruct (keys_set_add_entry _ _ _ H); auto. }
  intros Hin. destruct (G _ Hin) as [H|H]; [exact H|].
  unfold PySet.empty in H. cbn [PySet.table] in H.
  rewrite keys_repeat_None in H. destruct H.
Qed.

(** Every canonical axis is the canonical form of a given axis, and lies
    in [[0, rank)] when the given axes are in [[-rank, rank)]. *)
Lemma canonicalize_axes_sound (rank : nat) (axes : Axes) (a : Z) :
  In a (_canonicalize_axes rank axes) ->
  exists a0, In a0 (axes_iter axes) /\ a = canon_axis (Z.of_nat rank) a0.
Proof.
  intros Hin. apply to_tuple_of_list in Hin.
  apply in_map_iff in Hin as (a0 & E & Hin). now exists a0.
Qed.

Lemma canonicalize_axes_range (rank : nat) (axes : Axes) :
  axes_in_range rank (axes_iter axes) ->
  Forall (fun a => 0 <= a < Z.of_nat rank)%Z (_canonicalize_axes rank axes).
Proof.
  intros R. apply Forall_forall. intros a Hin.
  apply canonicalize_axes_sound in Hin as (a0 & Hin & ->).
  unfold axes_in_range in R. rewrite Forall_forall in R.
  specialize (R _ Hin). unfold canon_axis.
  destruct (Z.ltb_spec a0 0); lia.
Qed.

Lemma sub_shape_bshape_l (s s1 s2 : Shape) :
  sub_shape s s1 -> sub_shape s s2 -> sub_shape (bshape s1 s2) s1.
Proof.
  intros S1 S2.
  rewrite bshape_eq_length
    by (rewrite (sub_shape_length S1); symmetry; now apply sub_shape_length).
  revert s2 S2. induction S1 as [|d d1 s s1 H1 S1 IH]; intros s2 S2;
    inversion S2 as [|? d2 ? s2' H2 S2']; subst; simpl; constructor.
  - destruct (Nat.eqb_spec d1 1); lia.
  - now apply IH.
Qed.

Lemma sub_shape_bshape_r (s s1 s2 : Shape) :
  sub_shape s s1 -> sub_shape s s2 -> sub_shape (bshape s1 s2) s2.
Proof.
  intros S1 S2.
  rewrite bshape_eq_length
    by (rewrite (sub_shape_length S1); symmetry; now apply sub_shape_length).
  revert s2 S2. induction S1 as [|d d1 s s1 H1 S1 IH]; intros s2 S2;
    inversion S2 as [|? d2 ? s2' H2 S2']; subst; simpl; constructor.
  - destruct (Nat.eqb_spec d1 1); lia.
  - now apply IH.
Qed.

(** ** Entries of elementwise results *)

Section EntryFacts.

Context {T : Type} `{Scalar T}.

Lemma get_map2 (f : Dtype -> T -> T -> T) (a b : Array T) (idx : list nat) :
  valid (bshape (shape a) (shape b)) idx ->
  get (map2 f a b) idx
  = f (promote_types (dtype a) (dtype b))
      (get a (bidx (shape a) idx)) (get b (bidx (shape b) idx)).
Proof. intros V. unfold map2. now rewrite get_tabulate. Qed.

Lemma wf_map2 (f : Dtype -> T -> T -> T) (a b : Array T) : wf (map2 f a b).
Proof. apply wf_tabulate. Qed.

Lemma get_map_scalar (f : Dtype -> T -> T) (a : Array T) (idx : list nat) :
  wf a -> valid (shape a) idx ->
  get (map_scalar f a) idx = f (dtype a) (get a idx).
Proof.
  intros W V. unfold get, map_scalar. cbn [shape data].
  rewrite nth_indep with (d' := f (dtype a) s0).
  - apply map_nth.
  - rewrite length_map, W. now apply ravel_lt.
Qed.

Lemma wf_map_scalar (f : Dtype -> T -> T) (a : Array T) :
  wf a -> wf (map_scalar f a).
Proof. unfold wf, map_scalar. cbn [shape data]. now rewrite length_map. Qed.

Lemma get_asarray (a : Array T) (d : Dtype) (idx : list nat) :
  wf a -> valid (shape a) idx ->
  get (asarray a d) idx = scast d (get a idx).
Proof.
  intros W V. unfold get, asarray. cbn [shape data].
  rewrite nth_indep with (d' := scast d s0).
  - apply map_nth.
  - rewrite length_map, W. now apply ravel_lt.
Qed.

Lemma wf_asarray (a : Array T) (d : Dtype) : wf a -> wf (asarray a d).
Proof. unfold wf, asarray. cbn [shape data]. now rewrite length_map. Qed.

(** An array all of whose entries are [c]. *)
Lemma get_constant (a : Array T) (c : T) (idx : list nat) :
  Forall (eq c) (data a) -> wf a -> valid (shape a) idx -> get a idx = c.
Proof.
  intros C W V. unfold get. rewrite Forall_forall in C. symmetry. apply C.
  apply nth_In. rewrite W. now apply ravel_lt.
Qed.

End EntryFacts.

(** ** The shape of statistics *)

Lemma is_axis_nonneg (axes : list Z) (p : nat) :
  is_axis axes p = true <-> In (Z.of_nat p) axes.
Proof.
  unfold is_axis. rewrite existsb_exists. split.
  - intros (a & Hin & E). apply Z.eqb_eq in E. now subst.
  - intros Hin. exists (Z.of_nat p). split; [exact Hin|apply Z.eqb_refl].
Qed.

Lemma nth_set_item (A : Type) (l : list A) (p q : nat) (x d : A) :
  nth q (set_item l p x) d
  = if (q =? p) && (p <? length l) then x else nth q l d.
Proof.
  revert p q. induction l as [|a l IH]; intros p q; simpl.
  - rewrite andb_false_r. reflexivity.
  - destruct p as [|p], q as [|q]; simpl; try reflexivity.
    rewrite IH. reflexivity.
Qed.

Lemma length_set_item (A : Type) (l : list A) (p : nat) (x : A) :
  length (set_item l p x) = length l.
Proof.
  revert p. induction l as [|a l IH]; intros [|p]; simpl; auto.
Qed.

Lemma length_assign_axes (axes : list Z) (v : nat -> nat) (s : Shape) :
  length (assign_axes axes v s) = length s.
Proof.
  unfold assign_axes. revert s. induction axes as [|a axes IH]; intros s;
    simpl; [reflexivity|].
  now rewrite IH, length_set_item.
Qed.

Lemma nth_assign_axes (axes : list Z) (v : nat -> nat) (s : Shape)
  (q d : nat) :
  Forall (fun a => 0 <= a)%Z axes -> q < length s ->
  nth q (assign_axes axes v s) d
  = if is_axis axes q then v q else nth q s d.
Proof.
  unfold assign_axes. intros N. revert s.
  induction N as [|a axes Ha N IH]; intros s L; simpl; [reflexivity|].
  rewrite IH by now rewrite length_set_item.
  rewrite nth_set_item. unfold is_axis at 2. simpl.
  fold (is_axis axes q).
  destruct (is_axis axes q); [now rewrite orb_true_r|].
  rewrite orb_false_r.
  destruct (Z.eqb_spec (Z.of_nat q) a) as [E|E].
  - subst a. rewrite Nat2Z.id, Nat.eqb_refl.
    destruct (Nat.ltb_spec q (length s)); [reflexivity|lia].
  - destruct (Nat.eqb_spec q (Z.to_nat a)) as [E'|E']; [|reflexivity].
    exfalso. apply E. subst q. lia.
Qed.

Lemma length_out_shape_keep (axes : list Z) (p : nat) (s : Shape) :
  length (out_shape axes true p s) = length s.
Proof.
  revert p. induction s as [|d s IH]; intros p; simpl; [reflexivity|].
  destruct (is_axis axes p); simpl; now rewrite IH.
Qed.

Lemma nth_out_shape_keep (axes : list Z) (p : nat) (s : Shape) (q d : nat) :
  nth q (out_shape axes true p s) d
  = if is_axis axes (p + q) && (q <? length s) then 1 else nth q s d.
Proof.
  revert p q. induction s as [|e s IH]; intros p q; simpl.
  - rewrite andb_false_r. now destruct q.
  - destruct q as [|q].
    + rewrite Nat.add_0_r. destruct (is_axis axes p); reflexivity.
    + replace (p + S q) with (S p + q) by lia.
      destruct (is_axis axes p); simpl; apply IH.
Qed.

(** For non-negative axes, the shape [_normalize] reshapes statistics to
    is the keepdims shape of the reduction. *)
Lemma stats_shape_keep (axes : list Z) (s : Shape) :
  Forall (fun a => 0 <= a)%Z axes ->
  assign_axes axes (fun _ => 1) s = out_shape axes true 0 s.
Proof.
  intros N. apply nth_ext with (d := 0) (d' := 0).
  - now rewrite length_assign_axes, length_out_shape_keep.
  - intros q L. rewrite length_assign_axes in L.
    rewrite nth_assign_axes by assumption.
    rewrite nth_out_shape_keep. simpl.
    destruct (Nat.ltb_spec q (length s)); [|lia].
    now rewrite andb_true_r.
Qed.

Lemma size_out_shape (axes : list Z) (p : nat) (s : Shape) :
  size (out_shape axes true p s) = size (out_shape axes false p s).
Proof.
  revert p. induction s as [|d s IH]; intros p; simpl; [reflexivity|].
  destruct (is_axis axes p); simpl; rewrite IH; lia.
Qed.

(** ** The normalize primitive, entry by entry *)

Section NormalizeFacts.

Context {T : Type} `{Scalar T}.

Lemma asarray_tabulate (d d' : Dtype) (s : Shape) (f : list nat -> T) :
  asarray (tabulate d s f) d' = tabulate d' s (fun idx => scast d' (f idx)).
Proof. unfold asarray, tabulate. cbn [shape data]. now rewrite map_map. Qed.

Lemma map2_tabulate (f : Dtype -> T -> T -> T) (a b : Array T) (s : Shape)
  (g : list nat -> T) :
  bshape (shape a) (shape b) = s ->
  (forall idx, valid s idx ->
     f (promote_types (dtype a) (dtype b))
       (get a (bidx (shape a) idx)) (get b (bidx (shape b) idx)) = g idx) ->
  map2 f a b = tabulate (promote_types (dtype a) (dtype b)) s g.
Proof. intros E G. unfold map2. rewrite E. now apply tabulate_ext. Qed.

(** The last steps of [_normalize]: the product with the factor, the
    bias, the conversion. *)
Lemma normalize_tail (y M1 : Array T) (s fsh : Shape)
  (bias : option (Array T)) (dt : Dtype) (gy gm : list nat -> T) :
  shape y = s -> sub_shape s (shape M1) -> sub_shape s fsh ->
  (forall idx, valid s idx -> get y idx = gy idx) ->
  (forall idx, valid s idx -> get M1 (bidx (shape M1) idx) = gm idx) ->
  asarray match bias with
          | Some b => add (mul y M1) (reshape b fsh)
          | None => mul y M1
          end dt
  = tabulate dt s
      (fun idx =>
         scast dt
           match bias with
           | Some b =>
               sadd (promote_types (promote_types (dtype y) (dtype M1))
                                   (dtype b))
                    (smul (promote_types (dtype y) (dtype M1))
                          (gy idx) (gm idx))
                    (bget b fsh idx)
           | None =>
               smul (promote_types (dtype y) (dtype M1)) (gy idx) (gm idx)
           end).
Proof.
  intros Sy SM Sf Gy Gm.
  assert (E1 : mul y M1
               = tabulate (promote_types (dtype y) (dtype M1)) s
                   (fun idx => smul (promote_types (dtype y) (dtype M1))
                                 (gy idx) (gm idx))).
  { apply map2_tabulate; [rewrite Sy; apply (bshape_sub_r SM)|].
    intros idx V. rewrite Sy, (bidx_same V), (Gy _ V), (Gm _ V).
    reflexivity. }
  rewrite E1. destruct bias as [b|]; [|apply asarray_tabulate].
  unfold add.
  rewrite (@map2_tabulate sadd _ (reshape b fsh) s
             (fun idx =>
                sadd (promote_types (promote_types (dtype y) (dtype M1))
                                    (dtype b))
                     (smul (promote_types (dtype y) (dtype M1))
                           (gy idx) (gm idx))
                     (bget b fsh idx))).
  - apply asarray_tabulate.
  - cbn [shape tabulate reshape]. apply (bshape_sub_r Sf).
  - intros idx V. cbn [shape dtype tabulate reshape].
    rewrite (bidx_same V).
    change (mkArray (promote_types (dtype y) (dtype M1)) s
              (map (fun idx0 => smul (promote_types (dtype y) (dtype M1))
                                  (gy idx0) (gm idx0)) (indices s)))
      with (tabulate (promote_types (dtype y) (dtype M1)) s
              (fun idx0 => smul (promote_types (dtype y) (dtype M1))
                             (gy idx0) (gm idx0))).
    rewrite (get_tabulate _ _ V). reflexivity.
Qed.

Lemma normalize_spec (x m v : Array T) (scale bias : option (Array T))
  (reduction_axes feature_axes : Axes) (dtype_ : option Dtype) (epsilon : T) :
  length (data v) = size (stats_shape_of x reduction_axes) ->
  _normalize x m v scale bias reduction_axes feature_axes dtype_ epsilon
  = tabulate (normalize_dtype x scale bias dtype_) (shape x)
      (fun idx =>
         scast (normalize_dtype x scale bias dtype_)
           (normalize_entry x m v scale bias
              (stats_shape_of x reduction_axes)
              (feature_shape_of x feature_axes) epsilon idx)).
Proof.
  intros Lv. unfold _normalize.
  fold (stats_shape_of x reduction_axes).
  fold (feature_shape_of x feature_axes).
  set (stats := stats_shape_of x reduction_axes) in *.
  set (fsh := feature_shape_of x feature_axes).
  assert (Ss : sub_shape (shape x) stats) by apply sub_shape_stats.
  assert (Sf : sub_shape (shape x) fsh) by apply sub_shape_features.
  set (y := sub x (reshape m stats)).
  set (mul0 := rsqrt (map_scalar (fun d w => sadd d w epsilon)
                        (reshape v stats))).
  assert (Sy : shape y = shape x).
  { unfold y, sub, map2, tabulate. cbn [shape reshape].
    apply (bshape_sub_r Ss). }
  assert (Gy : forall idx, valid (shape x) idx ->
                 get y idx = ssub (promote_types (dtype x) (dtype m))
                               (get x idx) (bget m stats idx)).
  { intros idx V. unfold y, sub.
    rewrite get_map2
      by (cbn [shape reshape]; now rewrite (bshape_sub_r Ss)).
    cbn [shape reshape dtype]. rewrite (bidx_same V). reflexivity. }
  assert (Wv : wf (reshape v stats)) by exact Lv.
  assert (G0 : forall idx, valid (shape x) idx ->
                 get mul0 (bidx stats idx)
                 = srsqrt (dtype v) (sadd (dtype v) (bget v stats idx)
                                          epsilon)).
  { intros idx V. pose proof (bidx_valid Ss V) as Vs. unfold mul0, rsqrt.
    rewrite get_map_scalar; [|now apply wf_map_scalar|exact Vs].
    now rewrite get_map_scalar. }
  assert (Dy : dtype y = promote_types (dtype x) (dtype m)) by reflexivity.
  assert (Sm0 : shape mul0 = stats) by reflexivity.
  assert (Dm0 : dtype mul0 = dtype v) by reflexivity.
  clearbody y mul0.
  unfold normalize_dtype, normalize_entry.
  destruct scale as [sc|].
  - set (M1 := mul mul0 (reshape sc fsh)).
    assert (SM : sub_shape (shape x) (shape M1)).
    { unfold M1, mul, map2, tabulate. cbn [shape reshape]. rewrite Sm0.
      now apply sub_shape_bshape. }
    assert (DM : dtype M1 = promote_types (dtype v) (dtype sc)).
    { unfold M1, mul, map2, tabulate. cbn [dtype reshape]. now rewrite Dm0. }
    assert (GM : forall idx, valid (shape x) idx ->
                   get M1 (bidx (shape M1) idx)
                   = smul (promote_types (dtype v) (dtype sc))
                       (srsqrt (dtype v)
                          (sadd (dtype v) (bget v stats idx) epsilon))
                       (bget sc fsh idx)).
    { intros idx V. pose proof (bidx_valid SM V) as VM.
      unfold M1, mul in *. rewrite get_map2 by exact VM.
      cbn [shape reshape dtype map2 tabulate] in *. rewrite Sm0 in *.
      rewrite (bidx_bidx (t := bshape stats fsh) (s1 := stats));
        [|now apply (sub_shape_bshape_l Ss Sf)
         |rewrite (valid_length V); symmetry;
          apply sub_shape_length; now apply sub_shape_bshape].
      rewrite (bidx_bidx (t := bshape stats fsh) (s1 := fsh));
        [|now apply (sub_shape_bshape_r Ss Sf)
         |rewrite (valid_length V); symmetry;
          apply sub_shape_length; now apply sub_shape_bshape].
      rewrite (G0 _ V), Dm0. reflexivity. }
    clearbody M1.
    destruct bias as [b|]; cbn [app];
      [rewrite (@normalize_tail y M1 _ fsh (Some b) _ _ _ Sy SM Sf Gy GM)
      |rewrite (@normalize_tail y M1 _ fsh None _ _ _ Sy SM Sf Gy GM)];
      rewrite Dy, DM; reflexivity.
  - assert (SM : sub_shape (shape x) (shape mul0)) by now rewrite Sm0.
    assert (GM : forall idx, valid (shape x) idx ->
                   get mul0 (bidx (shape mul0) idx)
                   = srsqrt (dtype v)
                       (sadd (dtype v) (bget v stats idx) epsilon)).
    { intros idx V. rewrite Sm0. now apply G0. }
    destruct bias as [b|]; cbn [app];
      [rewrite (@normalize_tail y mul0 _ fsh (Some b) _ _ _ Sy SM Sf Gy GM)
      |rewrite (@normalize_tail y mul0 _ fsh None _ _ _ Sy SM Sf Gy GM)];
      rewrite Dy, Dm0; reflexivity.
Qed.

End NormalizeFacts.

(** ** RMSNorm on normalized input *)

Lemma length_data_mean (axes : list Z) (keepdims : bool)
  (mask : option Mask) (a : Array R) :
  length (data (mean axes keepdims mask a))
  = size (out_shape axes keepdims 0 (shape a)).
Proof. exact (wf_tabulate _ _ _). Qed.

(** Over the reals the entries of a mean depend on the shape and the
    entries of the operand only. *)
Lemma mean_data_ext (axes : list Z) (keepdims : bool) (mask : option Mask)
  (a b : Array R) :
  shape a = shape b -> data a = data b ->
  data (mean axes keepdims mask a) = data (mean axes keepdims mask b).
Proof.
  destruct a as [da sa la], b as [db sb lb]. cbn [shape data].
  intros -> ->. destruct mask; reflexivity.
Qed.

Lemma unit_variance_squares (l1 l2 : list R) :
  length l1 = length l2 -> Forall (eq 0%R) l2 ->
  Forall (eq 1%R)
    (map (fun w => Rmax 0 w)
       (map (fun xy : R * R => (fst xy - snd xy)%R)
          (combine l1 (map (fun w => (w * w)%R) l2)))) ->
  Forall (eq 1%R) l1.
Proof.
  revert l2. induction l1 as [|a l1 IH]; intros [|b l2] L Z0 U;
    simpl in *; try discriminate; constructor.
  - inversion Z0; subst. inversion U as [|? ? E _]; subst.
    revert E. unfold Rmax. destruct (Rle_dec 0 (a - 0 * 0)); intros; lra.
  - inversion Z0; subst. inversion U; subst. apply (IH l2); auto.
Qed.

(** Mean 0 and variance 1 make the mean of squares 1. *)
Lemma mean_square_of_zmuv (x : Array R) (axes : Axes) (mask : option Mask)
  (d : Dtype) :
  zero_mean_unit_variance x axes mask ->
  Forall (eq 1%R)
    (data (mean (_canonicalize_axes (ndim x) axes) false mask
             (square (asarray x d)))).
Proof.
  intros [Hm Hv]. unfold _compute_stats in Hm, Hv. cbn [fst snd] in Hm, Hv.
  set (d0 := promote_types (dtype x) float32) in *.
  change (ndim (asarray x d0)) with (ndim x) in *.
  set (ra := _canonicalize_axes (ndim x) axes) in *.
  rewrite (@mean_data_ext ra false mask (square (asarray x d))
             (_abs_sq (asarray x d0))) by reflexivity.
  set (mu2 := mean ra false mask (_abs_sq (asarray x d0))) in *.
  set (mu := mean ra false mask (asarray x d0)) in *.
  unfold sub in Hv.
  rewrite map2_same_shape in Hv;
    [|apply wf_tabulate|apply wf_map_scalar, wf_tabulate|reflexivity].
  unfold map_scalar in Hv. cbn [data dtype shape] in Hv.
  apply unit_variance_squares with (l2 := data mu); [|exact Hm|].
  - unfold mu2, mu. now rewrite !length_data_mean.
  - unfold _abs_sq, square, map_scalar in Hv. cbn [data] in Hv. exact Hv.
Qed.

Lemma rsqrt_near_one (e : R) :
  (0 <= e -> 0 <= 1 - / sqrt (1 + e) <= e)%R.
Proof.
  intros He.
  assert (Hr : (1 <= sqrt (1 + e))%R).
  { rewrite <- sqrt_1 at 1. apply sqrt_le_1_alt. lra. }
  assert (Hs : (sqrt (1 + e) * sqrt (1 + e) = 1 + e)%R)
    by (apply sqrt_sqrt; lra).
  set (r := sqrt (1 + e)) in *.
  assert (Hi : (/ r * r = 1)%R) by (apply Rinv_l; lra).
  assert (Hp : (0 < / r)%R) by (apply Rinv_0_lt_compat; lra).
  split; nra.
Qed.

Lemma scaled_near (a e : R) :
  (0 <= e)%R ->
  (Rabs ((a - 0) * (/ sqrt (1 + e)) - a) <= e * Rabs a)%R.
Proof.
  intros He. pose proof (rsqrt_near_one He) as [L U].
  replace ((a - 0) * / sqrt (1 + e) - a)%R
    with (- (a * (1 - / sqrt (1 + e))))%R by ring.
  rewrite Rabs_Ropp, Rabs_mult, (Rabs_pos_eq _ L).
  rewrite Rmult_comm. apply Rmult_le_compat_r; [apply Rabs_pos|exact U].
Qed.

(** The entry of an RMSNorm call on such an input, for any scale. *)
Lemma RMSNorm_entry (self : RMSNorm.t R) (x : Array R) (mask : option Mask) :
  axes_in_range (ndim x) (axes_iter (RMSNorm.reduction_axes self)) ->
  zero_mean_unit_variance x (RMSNorm.reduction_axes self) mask ->
  shape (RMSNorm.__call__ self x mask) = shape x
  /\ forall idx, valid (shape x) idx ->
     get (RMSNorm.__call__ self x mask) idx
     = ((get x idx - 0)
        * match RMSNorm.scale self with
          | Some sc =>
              / sqrt (1 + RMSNorm.epsilon self)
              * bget sc (feature_shape_of x (RMSNorm.feature_axes self)) idx
          | None => / sqrt (1 + RMSNorm.epsilon self)
          end)%R.
Proof.
  intros Rg Z. unfold RMSNorm.__call__, _compute_stats.
  set (d0 := promote_types _ float32).
  change (ndim (asarray x d0)) with (ndim x).
  set (ra := _canonicalize_axes (ndim x) (RMSNorm.reduction_axes self)).
  set (var := mean ra false mask (_abs_sq (asarray x d0))).
  assert (Nn : Forall (fun a => 0 <= a)%Z ra).
  { apply canonicalize_axes_range in Rg. fold ra in Rg.
    apply Forall_forall. intros a Ha. rewrite Forall_forall in Rg.
    specialize (Rg a Ha). lia. }
  assert (Lv : length (data var)
               = size (stats_shape_of x (RMSNorm.reduction_axes self))).
  { unfold stats_shape_of. fold ra. rewrite (stats_shape_keep _ Nn).
    unfold var. rewrite length_data_mean, size_out_shape. reflexivity. }
  assert (U : Forall (eq 1%R) (data var))
    by exact (mean_square_of_zmuv d0 Z).
  rewrite normalize_spec by exact Lv.
  split; [reflexivity|]. intros idx V.
  rewrite (get_tabulate _ _ V). unfold normalize_entry.
  set (stats := stats_shape_of x (RMSNorm.reduction_axes self)) in *.
  assert (Ss : sub_shape (shape x) stats) by apply sub_shape_stats.
  assert (Ev : bget var stats idx = 1%R).
  { unfold bget. apply get_constant; [exact U|exact Lv|].
    exact (bidx_valid Ss V). }
  assert (Em : bget (zeros_like var) stats idx = 0%R).
  { unfold bget, get, zeros_like, zeros, full. cbn [data reshape].
    exact (nth_repeat s0 _ _). }
  rewrite Ev, Em. destruct (RMSNorm.scale self); reflexivity.
Qed.

(** ** A single axis *)

Lemma scan_unused (tbl : list (option Z)) (key i : Z) (probes : nat) :
  PySet.slot tbl i = None ->
  PySet.scan tbl key i probes = Some (PySet.Unused i).
Proof. intros E. destruct probes; simpl; now rewrite E. Qed.

Lemma keys_set_nth_empty (n j : nat) (k : Z) :
  j < n -> PySet.keys (PySet.set_nth (repeat None n) j (Some k)) = [k].
Proof.
  revert j. induction n as [|n IH]; intros j L; [lia|].
  destruct j as [|j]; simpl.
  - now rewrite keys_repeat_None.
  - apply IH. lia.
Qed.

Lemma of_list_singleton (k : Z) : PySet.to_tuple (PySet.of_list [k]) = [k].
Proof.
  unfold PySet.of_list, PySet.to_tuple. cbn [fold_left].
  unfold PySet.set_add_entry, PySet.find.
  set (tbl := PySet.table PySet.empty).
  set (i := Z.land (PySet.py_hash k) (PySet.mask tbl)).
  assert (Hi : (0 <= i < 8)%Z).
  { unfold i. change (PySet.mask tbl) with (Z.ones 3).
    rewrite Z.land_ones by lia. apply Z.mod_pos_bound. reflexivity. }
  change (PySet.probe_fuel tbl) with (S 71). cbn [PySet.lookkey].
  rewrite scan_unused by (unfold PySet.slot, tbl; apply nth_repeat).
  change (PySet.fill PySet.empty + 1)%Z with 1%Z.
  change (PySet.mask tbl) with 7%Z. cbn [PySet.fill Z.mul Z.ltb Z.compare
                                         Pos.mul Pos.compare Pos.compare_cont].
  cbn [PySet.table]. apply keys_set_nth_empty.
  unfold PySet.PySet_MINSIZE. lia.
Qed.

Lemma canonicalize_axes_int (rank : nat) (a : Z) :
  _canonicalize_axes rank (AxInt a) = [canon_axis (Z.of_nat rank) a].
Proof. unfold _canonicalize_axes. cbn [axes_iter map]. apply of_list_singleton. Qed.

Lemma canonicalize_axes_last (rank : nat) :
  1 <= rank -> _canonicalize_axes rank (AxInt (-1)) = [Z.of_nat rank - 1]%Z.
Proof.
  intros L. rewrite canonicalize_axes_int. unfold canon_axis. simpl.
  f_equal; lia.
Qed.

(** ** Reductions that keep the reduced axes *)

Lemma merge_strip (axes : list Z) (p : nat) (s : Shape) (oi ri : list nat) :
  merge_idx axes true p s oi ri
  = merge_idx axes false p s (strip_idx axes p s oi) ri.
Proof.
  revert p oi ri. induction s as [|d s IH]; intros p oi ri; simpl;
    [reflexivity|].
  destruct (is_axis axes p); simpl; now rewrite IH.
Qed.

Lemma strip_valid (axes : list Z) (p : nat) (s : Shape) (oi : list nat) :
  valid (out_shape axes true p s) oi ->
  valid (out_shape axes false p s) (strip_idx axes p s oi).
Proof.
  revert p oi. induction s as [|d s IH]; intros p oi V; simpl in *;
    [constructor|].
  destruct (is_axis axes p); simpl in *;
    inversion V as [|? i ? oi' Hi V']; subst; simpl.
  - now apply IH.
  - constructor; [exact Hi|now apply IH].
Qed.

Lemma sub_shape_out_keep (axes : list Z) (p : nat) (s : Shape) :
  sub_shape s (out_shape axes true p s).
Proof.
  revert p. induction s as [|d s IH]; intros p; simpl; [constructor|].
  destruct (is_axis axes p); simpl; constructor; auto; apply IH.
Qed.

Section KeepdimsFacts.

Context {T : Type} `{Scalar T}.

Lemma mean_keep_entry (axes : list Z) (mask : option Mask) (a : Array T)
  (oi : list nat) :
  valid (out_shape axes true 0 (shape a)) oi ->
  get (mean axes true mask a) oi
  = get (mean axes false mask a) (strip_idx axes 0 (shape a) oi).
Proof.
  intros V. pose proof (strip_valid _ _ _ V) as V'.
  unfold mean. cbn [shape sum tabulate].
  change (mkArray (dtype a) ?s (map ?f (indices ?s)))
    with (tabulate (dtype a) s f).
  rewrite !get_tabulate by assumption.
  unfold sum. rewrite !get_tabulate by assumption.
  assert (E1 : red_elems axes true a oi
               = red_elems axes false a (strip_idx axes 0 (shape a) oi)).
  { unfold red_elems. apply map_ext. intros ri. now rewrite merge_strip. }
  assert (E2 : forall m,
             red_mask axes true a m oi
             = red_mask axes false a m (strip_idx axes 0 (shape a) oi)).
  { intros m. unfold red_mask. apply map_ext. intros ri.
    now rewrite merge_strip. }
  unfold normalizer. rewrite E1.
  destruct mask as [m|]; [rewrite E2|]; reflexivity.
Qed.

End KeepdimsFacts.

(** ** The leading axes of a scale *)

Lemma is_axis_all_axes (k p : nat) : is_axis (all_axes k) p = (p <? k).
Proof.
  destruct (Nat.ltb_spec p k) as [L|L].
  - apply is_axis_nonneg. unfold all_axes. apply in_map, in_seq. lia.
  - destruct (is_axis (all_axes k) p) eqn:E; [|reflexivity].
    apply is_axis_nonneg in E. unfold all_axes in E.
    apply in_map_iff in E as (q & Eq & Hin). apply in_seq in Hin. lia.
Qed.

Lemma expand_shape_leading (k D : nat) :
  expand_shape (all_axes k) 0 (1 + k) [D] = repeat 1 k ++ [D].
Proof.
  assert (G : forall j p, p + j = k ->
              expand_shape (all_axes k) p (S j) [D] = repeat 1 j ++ [D]).
  { induction j as [|j IH]; intros p E; simpl.
    - rewrite is_axis_all_axes.
      destruct (Nat.ltb_spec p k); [lia|reflexivity].
    - rewrite is_axis_all_axes.
      destruct (Nat.ltb_spec p k); [|lia].
      f_equal. apply IH. lia. }
  apply (G k 0). lia.
Qed.

Lemma sub_shape_leading (s : Shape) :
  s <> [] -> sub_shape s (repeat 1 (length s - 1) ++ [last s 0]).
Proof.
  induction s as [|d s IH]; intros N; [congruence|].
  destruct s as [|e s].
  - simpl. constructor; [now left|constructor].
  - replace (length (d :: e :: s) - 1) with (S (length (e :: s) - 1))
      by (simpl; lia).
    change (last (d :: e :: s) 0) with (last (e :: s) 0).
    simpl repeat. simpl app. constructor; [now right|].
    apply IH. discriminate.
Qed.

Lemma size_leading (k D : nat) : size (repeat 1 k ++ [D]) = D.
Proof. induction k as [|k IH]; simpl in *; lia. Qed.

Lemma data_asarray_R (x : Array R) (d : Dtype) : data (asarray x d) = data x.
Proof. unfold asarray. cbn [data]. apply map_id. Qed.

(** ** The RMSNorm of the gemma example on normalized input *)

Lemma GemmaRMSNorm_entry (lit : R) (self : GemmaRMSNorm.t R) (x : Array R) :
  1 <= ndim x ->
  zero_mean_unit_variance x (AxInt (-1)) None ->
  shape (GemmaRMSNorm.scale self) = [last (shape x) 0] ->
  wf (GemmaRMSNorm.scale self) ->
  shape (GemmaRMSNorm.__call__ lit self x) = shape x
  /\ forall idx, valid (shape x) idx ->
     get (GemmaRMSNorm.__call__ lit self x) idx
     = (get x idx * (1 / sqrt (1 + lit))
        * (1 + bget (GemmaRMSNorm.scale self)
                 (repeat 1%nat (ndim x - 1)%nat ++ [last (shape x) 0%nat])
                 idx))%R.
Proof.
  intros L1 Z Ssc Wsc. unfold GemmaRMSNorm.__call__.
  set (ax := [(Z.of_nat (ndim x) - 1)%Z]).
  set (var := mean ax true None (square x)).
  set (os := out_shape ax true 0 (shape x)).
  assert (So : sub_shape (shape x) os) by apply sub_shape_out_keep.
  assert (U : forall j, valid os j -> get var j = 1%R).
  { intros j Vj. unfold var. rewrite mean_keep_entry by exact Vj.
    apply get_constant.
    - pose proof (mean_square_of_zmuv (dtype x) Z) as M.
      rewrite (canonicalize_axes_last L1) in M. fold ax in M.
      rewrite (@mean_data_ext ax false None (square x)
                 (square (asarray x (dtype x)))); [exact M|reflexivity|].
      unfold square, map_scalar. cbn [data dtype asarray].
      now rewrite map_id.
    - apply wf_tabulate.
    - exact (strip_valid _ _ _ Vj). }
  assert (Wvar : wf var) by apply wf_tabulate.
  set (den := reciprocal (sqrt_ (map_scalar (fun d v => sadd d v lit) var))).
  assert (Gden : forall j, valid os j -> get den j = (1 / sqrt (1 + lit))%R).
  { intros j Vj. unfold den, reciprocal, sqrt_.
    rewrite get_map_scalar;
      [|now apply wf_map_scalar, wf_map_scalar|exact Vj].
    rewrite get_map_scalar; [|now apply wf_map_scalar|exact Vj].
    rewrite get_map_scalar; [|exact Wvar|exact Vj].
    rewrite (U _ Vj). reflexivity. }
  assert (Sden : shape den = os) by reflexivity.
  clearbody den.
  set (normed := mul x den).
  assert (Sn : shape normed = shape x).
  { unfold normed, mul, map2, tabulate. cbn [shape]. rewrite Sden.
    apply (bshape_sub_r So). }
  assert (Gn : forall idx, valid (shape x) idx ->
                 get normed idx = (get x idx * (1 / sqrt (1 + lit)))%R).
  { intros idx V. unfold normed, mul.
    rewrite get_map2 by (rewrite Sden, (bshape_sub_r So); exact V).
    rewrite (bidx_same V), Sden, (Gden _ (bidx_valid So V)). reflexivity. }
  clearbody normed.
  set (es := repeat 1 (ndim x - 1) ++ [last (shape x) 0]).
  assert (Ee : expand_dims (GemmaRMSNorm.scale self)
                 (all_axes (length (shape x) - 1))
               = reshape (GemmaRMSNorm.scale self) es).
  { unfold expand_dims, ndim. rewrite Ssc. f_equal. unfold all_axes at 2.
    rewrite length_map, length_seq. apply expand_shape_leading. }
  rewrite Ee.
  assert (Se : sub_shape (shape x) es).
  { apply sub_shape_leading. intros E. unfold ndim in L1. rewrite E in L1.
    simpl in L1. lia. }
  set (one_plus := map_scalar (fun d v => sadd d s1 v)
                     (reshape (GemmaRMSNorm.scale self) es)).
  assert (Sop : shape one_plus = es) by reflexivity.
  assert (Gop : forall idx, valid (shape x) idx ->
                  get one_plus (bidx es idx)
                  = (1 + bget (GemmaRMSNorm.scale self) es idx)%R).
  { intros idx V. unfold one_plus. rewrite get_map_scalar.
    - reflexivity.
    - unfold wf. cbn [data shape reshape]. unfold es.
      rewrite size_leading. unfold wf in Wsc. rewrite Wsc, Ssc. simpl. lia.
    - exact (bidx_valid Se V). }
  clearbody one_plus.
  unfold mul. split.
  - unfold map2, tabulate. cbn [shape]. rewrite Sn, Sop.
    apply (bshape_sub_r Se).
  - intros idx V.
    rewrite get_map2 by (rewrite Sn, Sop, (bshape_sub_r Se); exact V).
    rewrite Sn, Sop, (bidx_same V), (Gn _ V), (Gop _ V). reflexivity.
Qed.

(** C5 (as the code has it). On an input of mean 0 and variance 1 over
    the reduced axes, an RMSNorm whose effective multiplier is 1 returns
    the input up to a relative error of epsilon: the flax layer with its
    scale absent or all ones (the scale multiplies directly), and the gemma
    layer with its scale all zeros (it multiplies by [1 + scale], with
    epsilon [1e-06]). *)
Theorem RMSNorm_on_normalized_input :
  (forall (self : RMSNorm.t R) (x : Array R) (mask : option Mask),
     axes_in_range (ndim x) (axes_iter (RMSNorm.reduction_axes self)) ->
     zero_mean_unit_variance x (RMSNorm.reduction_axes self) mask ->
     unit_scale self x ->
     (0 <= RMSNorm.epsilon self)%R ->
     shape (RMSNorm.__call__ self x mask) = shape x
     /\ forall idx, valid (shape x) idx ->
          (Rabs (get (RMSNorm.__call__ self x mask) idx - get x idx)
           <= RMSNorm.epsilon self * Rabs (get x idx))%R)
  /\ (forall (self : GemmaRMSNorm.t R) (x : Array R),
        1 <= ndim x ->
        zero_mean_unit_variance x (AxInt (-1)) None ->
        shape (GemmaRMSNorm.scale self) = [last (shape x) 0] ->
        wf (GemmaRMSNorm.scale self) ->
        Forall (eq 0%R) (data (GemmaRMSNorm.scale self)) ->
        shape (GemmaRMSNorm.__call__ (1 / 1000000)%R self x) = shape x
        /\ forall idx, valid (shape x) idx ->
             (Rabs (get (GemmaRMSNorm.__call__ (1 / 1000000)%R self x) idx
                    - get x idx)
              <= 1 / 1000000 * Rabs (get x idx))%R).
Proof.
  split.
  - intros self x mask Rg Z Us He.
    destruct (@RMSNorm_entry self x mask Rg Z) as [S E].
    split; [exact S|]. intros idx V. rewrite (E _ V).
    unfold unit_scale in Us.
    destruct (RMSNorm.scale self) as [sc|].
    + destruct Us as [U L].
      assert (Es : bget sc (feature_shape_of x (RMSNorm.feature_axes self))
                     idx = 1%R).
      { unfold bget. apply get_constant; [exact U|exact L|].
        exact (bidx_valid (sub_shape_features _ _) V). }
      rewrite Es, Rmult_1_r. now apply scaled_near.
    + now apply scaled_near.
  - intros self x L1 Z Ssc Wsc Z0.
    destruct (@GemmaRMSNorm_entry (1 / 1000000)%R self x L1 Z Ssc Wsc)
      as [S E].
    split; [exact S|]. intros idx V. rewrite (E _ V).
    set (es := repeat 1 (ndim x - 1) ++ [last (shape x) 0]).
    assert (Se : sub_shape (shape x) es).
    { apply sub_shape_leading. intros E0. unfold ndim in L1.
      rewrite E0 in L1. simpl in L1. lia. }
    assert (Es : bget (GemmaRMSNorm.scale self) es idx = 0%R).
    { unfold bget. apply get_constant; [exact Z0| |exact (bidx_valid Se V)].
      unfold wf. cbn [data shape reshape]. unfold es.
      rewrite size_leading. unfold wf in Wsc. rewrite Wsc, Ssc. simpl. lia. }
    rewrite Es.
    replace (get x idx * (1 / sqrt (1 + 1 / 1000000)) * (1 + 0))%R
      with ((get x idx - 0) * / sqrt (1 + 1 / 1000000))%R
      by (unfold Rdiv; ring).
    apply scaled_near. lra.
Qed.

Lemma x_pm_normalized : zero_mean_unit_variance x_pm (AxInt (-1)) None.
Proof.
  unfold zero_mean_unit_variance, _compute_stats.
  change (ndim (asarray x_pm _)) with 1.
  rewrite canonicalize_axes_int.
  cbn -[Rmax Rplus Rmult Rminus Rdiv INR]. simpl INR.
  split; repeat constructor.
  - lra.
  - unfold Rmax. destruct (Rle_dec _ _); lra.
Qed.

(** The claim itself fails for the flax layer: with a scale initialized to
    zeros the output is zero.  On [[1, -1]], of mean 0 and variance 1, the
    first entry of the output is 0, at distance 1 from the input. *)
Lemma RMSNorm_zero_scale_output :
  zero_mean_unit_variance x_pm (AxInt (-1)) None
  /\ get x_pm [0] = 1%R
  /\ get (RMSNorm.__call__ rms_zeros x_pm None) [0] = 0%R.
Proof.
  pose proof x_pm_normalized as Z.
  split; [exact Z|]. split; [reflexivity|].
  destruct (@RMSNorm_entry rms_zeros x_pm None) as [_ E].
  - repeat constructor; simpl; lia.
  - exact Z.
  - rewrite E by (repeat constructor).
    change (RMSNorm.scale rms_zeros) with (Some (zeros [2] float32 : Array R)).
    cbv beta iota.
    replace (bget (zeros [2] float32)
               (feature_shape_of x_pm (RMSNorm.feature_axes rms_zeros)) [0])
      with 0%R; [ring|].
    unfold bget, get, zeros, full. cbn [data reshape]. symmetry.
    exact (nth_repeat s0 _ _).
Qed.

Lemma RMSNorm_on_normalized_input_witness :
  shape (RMSNorm.__call__ rms_ones x_pm None) = [2]
  /\ shape (GemmaRMSNorm.__call__ (1 / 1000000)%R gemma_rms x_pm) = [2].
Proof.
  pose proof x_pm_normalized as Z.
  destruct RMSNorm_on_normalized_input as [F G]. split.
  - apply (F rms_ones x_pm None).
    + repeat constructor; simpl; lia.
    + exact Z.
    + unfold unit_scale.
      change (RMSNorm.scale rms_ones) with (Some (ones [2] float32 : Array R)).
      split; [repeat constructor|].
      change (RMSNorm.feature_axes rms_ones) with (AxInt (-1)).
      unfold feature_shape_of. rewrite canonicalize_axes_int. reflexivity.
    + change (RMSNorm.epsilon rms_ones) with (1 / 1000000)%R. lra.
  - apply (G gemma_rms x_pm).
    + unfold ndim, x_pm. simpl. lia.
    + exact Z.
    + reflexivity.
    + reflexivity.
    + repeat constructor.
Defined.

(** ** Indices of a reduction *)

Lemma merge_valid (axes : list Z) (p : nat) (s : Shape) (oi ri : list nat) :
  valid (out_shape axes true p s) oi -> valid (red_shape axes p s) ri ->
  valid s (merge_idx axes true p s oi ri).
Proof.
  revert p oi ri. induction s as [|d s IH]; intros p oi ri Vo Vr;
    simpl in *; [constructor|].
  destruct (is_axis axes p); simpl in *.
  - inversion Vo as [|? o ? oi' Ho Vo']; subst.
    inversion Vr as [|? r ? ri' Hr Vr']; subst. simpl.
    constructor; [exact Hr|now apply IH].
  - inversion Vo as [|? o ? oi' Ho Vo']; subst. simpl.
    constructor; [exact Ho|now apply IH].
Qed.

Lemma bidx_merge_keep_at (axes : list Z) (p : nat) (s : Shape)
  (oi ri : list nat) :
  valid (out_shape axes true p s) oi -> valid (red_shape axes p s) ri ->
  map (fun di : nat * nat => if fst di =? 1 then 0 else snd di)
      (combine (out_shape axes true p s) (merge_idx axes true p s oi ri))
  = oi.
Proof.
  revert p oi ri. induction s as [|d s IH]; intros p oi ri Vo Vr;
    simpl in *.
  - now inversion Vo.
  - destruct (is_axis axes p); simpl in *.
    + inversion Vo as [|? o ? oi' Ho Vo']; subst.
      inversion Vr as [|? r ? ri' Hr Vr']; subst. simpl.
      f_equal; [cbv beta in Ho; lia|now apply IH].
    + inversion Vo as [|? o ? oi' Ho Vo']; subst. simpl.
      f_equal; [|now apply IH].
      destruct (Nat.eqb_spec d 1); [cbv beta in Ho; lia|reflexivity].
Qed.

Lemma bidx_merge_keep (axes : list Z) (s : Shape) (oi ri : list nat) :
  valid (out_shape axes true 0 s) oi -> valid (red_shape axes 0 s) ri ->
  bidx (out_shape axes true 0 s) (merge_idx axes true 0 s oi ri) = oi.
Proof.
  intros Vo Vr.
  rewrite bidx_eq_length
    by (rewrite (valid_length (merge_valid _ _ _ Vo Vr));
        now rewrite length_out_shape_keep).
  now apply bidx_merge_keep_at.
Qed.

(** ** WeightNorm, one parameter *)

Lemma is_axis_complement (fa : list Z) (n q : nat) :
  q < n ->
  is_axis (filter (fun i => negb (existsb (Z.eqb i) fa)) (all_axes n)) q
  = negb (is_axis fa q).
Proof.
  intros L.
  set (red := filter (fun i => negb (existsb (Z.eqb i) fa)) (all_axes n)).
  destruct (is_axis red q) eqn:Hr, (is_axis fa q) eqn:Hq; simpl;
    try reflexivity; exfalso.
  - apply is_axis_nonneg in Hr. apply filter_In in Hr as [_ Hr].
    unfold is_axis in Hq. rewrite Hq in Hr. discriminate.
  - assert (Hin : In (Z.of_nat q) red).
    { apply filter_In. split.
      - unfold all_axes. apply in_map, in_seq. lia.
      - unfold is_axis in Hq. now rewrite Hq. }
    apply is_axis_nonneg in Hin. congruence.
Qed.

Lemma weight_norm_shapes (self : WeightNorm.t R) (s : Shape) :
  feature_axes_ok self (length s) ->
  assign_axes (fst (WeightNorm.axes_of self (length s)))
    (fun ax => nth ax s 0) (repeat 1 (length s))
  = out_shape (snd (WeightNorm.axes_of self (length s))) true 0 s.
Proof.
  intros Ok.
  set (fa := fst (WeightNorm.axes_of self (length s))).
  set (red := snd (WeightNorm.axes_of self (length s))).
  assert (Nn : Forall (fun a => 0 <= a)%Z fa).
  { unfold fa, WeightNorm.axes_of. unfold feature_axes_ok in Ok.
    destruct (WeightNorm.feature_axes self) as [axes|]; cbn [fst];
      [|constructor].
    apply canonicalize_axes_range in Ok. apply Forall_forall.
    intros a Ha. rewrite Forall_forall in Ok. specialize (Ok a Ha). lia. }
  assert (Hc : forall q, q < length s ->
                 is_axis red q = negb (is_axis fa q)).
  { intros q L. unfold red, fa, WeightNorm.axes_of.
    destruct (WeightNorm.feature_axes self) as [axes|]; cbn [fst snd].
    - now apply is_axis_complement.
    - rewrite is_axis_all_axes.
      destruct (Nat.ltb_spec q (length s)); [reflexivity|lia]. }
  apply nth_ext with (d := 0) (d' := 0).
  - now rewrite length_assign_axes, length_out_shape_keep, repeat_length.
  - intros q L. rewrite length_assign_axes, repeat_length in L.
    rewrite nth_assign_axes by (rewrite ?repeat_length; assumption).
    rewrite nth_out_shape_keep. simpl.
    rewrite (Hc _ L). destruct (Nat.ltb_spec q (length s)); [|lia].
    destruct (is_axis fa q); simpl; [reflexivity|].
    now rewrite nth_repeat_lt.
Qed.

Lemma sum_squares_scaled (A : Type) (f : A -> R) (c : R) (l : list A) :
  fold_right Rplus 0%R (map (fun x => (f x * c) * (f x * c))%R l)
  = (c * c * fold_right Rplus 0%R (map (fun x => f x * f x)%R l))%R.
Proof. induction l as [|a l IH]; simpl; [ring|]. rewrite IH. ring. Qed.

Lemma sum_squares_nonneg (A : Type) (f : A -> R) (l : list A) :
  (0 <= fold_right Rplus 0%R (map (fun x => f x * f x)%R l))%R.
Proof. induction l as [|a l IH]; simpl; [lra|]. nra. Qed.

Lemma get_square (a : Array R) (idx : list nat) :
  valid (shape a) idx -> get (mul a a) idx = (get a idx * get a idx)%R.
Proof.
  intros V. unfold mul. rewrite get_map2 by (now rewrite bshape_same).
  now rewrite (bidx_same V).
Qed.

(** The squared norm of a slice, as the sum it is. *)
Lemma slice_sum (axes : list Z) (a : Array R) (oi : list nat) :
  valid (out_shape axes true 0 (shape a)) oi ->
  get (sum axes true None (mul a a)) oi
  = fold_right Rplus 0%R
      (map (fun ri => let m := merge_idx axes true 0 (shape a) oi ri in
                      get a m * get a m)%R
           (indices (red_shape axes 0 (shape a)))).
Proof.
  intros V.
  assert (Sm : shape (mul a a) = shape a).
  { unfold mul, map2, tabulate. cbn [shape]. apply bshape_same. }
  unfold sum. rewrite Sm. rewrite get_tabulate by exact V.
  unfold red_elems. rewrite Sm. cbn [ssum Scalar_R]. f_equal.
  apply map_ext_in. intros ri Hr. apply indices_valid in Hr.
  apply get_square. now apply merge_valid.
Qed.

(** The norm of a slice whose entries are those of [W] times a constant. *)
Lemma slice_norm_scaled (axes : list Z) (W out : Array R) (oi : list nat)
  (c : R) :
  shape out = shape W ->
  valid (out_shape axes true 0 (shape W)) oi ->
  (forall ri, valid (red_shape axes 0 (shape W)) ri ->
     get out (merge_idx axes true 0 (shape W) oi ri)
     = (get W (merge_idx axes true 0 (shape W) oi ri) * c)%R) ->
  slice_norm axes out oi = (Rabs c * slice_norm axes W oi)%R.
Proof.
  intros So V E. unfold slice_norm.
  rewrite slice_sum by (now rewrite So). rewrite So.
  rewrite (slice_sum _ _ V). cbv zeta.
  rewrite (map_ext_in _
             (fun ri => (get W (merge_idx axes true 0 (shape W) oi ri) * c
                         * (get W (merge_idx axes true 0 (shape W) oi ri)
                            * c))%R)).
  - rewrite (sum_squares_scaled
               (fun ri => get W (merge_idx axes true 0 (shape W) oi ri))).
    rewrite sqrt_mult; [|nra|apply sum_squares_nonneg].
    f_equal. change (c * c)%R with (Rsqr c). apply sqrt_Rsqr_abs.
  - intros ri Hr. apply indices_valid in Hr. now rewrite (E _ Hr).
Qed.

Lemma slice_norm_square (axes : list Z) (W : Array R) (oi : list nat) :
  valid (out_shape axes true 0 (shape W)) oi ->
  (slice_norm axes W oi * slice_norm axes W oi
   = get (sum axes true None (mul W W)) oi)%R.
Proof.
  intros V. unfold slice_norm. apply sqrt_sqrt.
  rewrite (slice_sum _ _ V). apply sum_squares_nonneg.
Qed.

(** The scale [apply_weight_norm] uses for a parameter, if any. *)
Lemma apply_weight_norm_spec (self : WeightNorm.t R) (state : State R)
  (rngs : Rngs) (path : Path) (W : Array R) :
  feature_axes_ok self (ndim W) ->
  (0 < WeightNorm.epsilon self)%R ->
  exists out state' rngs' sc,
    WeightNorm.apply_weight_norm self state rngs path W
    = Ok (out, state', rngs')
    /\ (WeightNorm.use_scale self = false -> sc = None)
    /\ (WeightNorm.use_scale self = true ->
        sc = Some (fst (fst (WeightNorm.get_scale self state rngs path
                               (map (fun ax => nth (Z.to_nat ax) (shape W) 0)
                                  (fst (WeightNorm.axes_of self (ndim W))))))))
    /\ weight_normalized self W out sc.
Proof.
  intros Fok He. unfold WeightNorm.apply_weight_norm, weight_normalized.
  pose proof (weight_norm_shapes self (shape W) Fok) as Efs.
  fold (ndim W) in Efs.
  destruct (WeightNorm.axes_of self (ndim W)) as [fa red] eqn:Eax.
  cbn [fst snd] in *.
  set (os := out_shape red true 0 (shape W)) in *.
  assert (So : sub_shape (shape W) os) by apply sub_shape_out_keep.
  set (S := sum red true None (mul W W)).
  assert (GS : forall oi, valid os oi ->
                 get S oi = (slice_norm red W oi * slice_norm red W oi)%R).
  { intros oi V. now rewrite slice_norm_square. }
  assert (SS : shape S = os).
  { unfold S, sum, tabulate. cbn [shape]. unfold mul, map2, tabulate.
    cbn [shape]. now rewrite bshape_same. }
  assert (WS : wf S) by apply wf_tabulate.
  set (r := rsqrt (map_scalar (fun d v => sadd d v (WeightNorm.epsilon self))
                     S)).
  assert (Gr : forall oi, valid os oi ->
                 get r oi
                 = (/ sqrt (slice_norm red W oi * slice_norm red W oi
                            + WeightNorm.epsilon self))%R).
  { intros oi V. unfold r, rsqrt.
    rewrite get_map_scalar;
      [|now apply wf_map_scalar|cbn [shape map_scalar]; now rewrite SS].
    rewrite get_map_scalar by (rewrite ?SS; assumption).
    now rewrite (GS _ V). }
  assert (Sr : shape r = os) by (unfold r; cbn [shape rsqrt map_scalar]; exact SS).
  unfold _l2_normalize. fold S. fold r. clearbody r S.
  set (vb0 := mul W r).
  assert (S0 : shape vb0 = shape W).
  { unfold vb0, mul, map2, tabulate. cbn [shape]. rewrite Sr.
    apply (bshape_sub_r So). }
  assert (G0 : forall idx, valid (shape W) idx ->
                 get vb0 idx = (get W idx * get r (bidx os idx))%R).
  { intros idx V. unfold vb0, mul.
    rewrite get_map2 by (rewrite Sr, (bshape_sub_r So); exact V).
    now rewrite (bidx_same V), Sr. }
  assert (W0 : wf vb0) by apply wf_tabulate.
  clearbody vb0.
  assert (Pr : forall oi, valid os oi ->
                 (0 < / sqrt (slice_norm red W oi * slice_norm red W oi
                              + WeightNorm.epsilon self))%R).
  { intros oi V. apply Rinv_0_lt_compat, sqrt_lt_R0.
    pose proof (sqrt_pos (get (sum red true None (mul W W)) oi)) as P.
    unfold slice_norm. nra. }
  destruct (WeightNorm.use_scale self) eqn:Eu.
  - destruct (WeightNorm.get_scale self state rngs path
                (map (fun ax => nth (Z.to_nat ax) (shape W) 0) fa))
      as [[sc st'] r'] eqn:Eg.
    cbn [fst].
    set (vb := mul vb0 (reshape sc _)).
    eexists. exists st', r', (Some sc).
    split; [reflexivity|]. split; [discriminate|]. split; [reflexivity|].
    assert (S1 : shape vb = shape W).
    { unfold vb, mul, map2, tabulate. cbn [shape reshape].
      rewrite S0, Efs. apply (bshape_sub_r So). }
    assert (G1 : forall idx, valid (shape W) idx ->
                   get vb idx
                   = (get W idx * get r (bidx os idx)
                      * get (reshape sc os) (bidx os idx))%R).
    { intros idx V. unfold vb, mul.
      rewrite get_map2
        by (cbn [shape reshape]; rewrite S0, Efs, (bshape_sub_r So);
            exact V).
      cbn [shape reshape]. rewrite S0, (bidx_same V), (G0 _ V), Efs.
      reflexivity. }
    assert (W1 : wf vb) by apply wf_tabulate.
    clearbody vb.
    split; [exact S1|]. intros oi V. rewrite Efs.
    rewrite (@slice_norm_scaled red W _ oi
               (/ sqrt (slice_norm red W oi * slice_norm red W oi
                        + WeightNorm.epsilon self)
                * get (reshape sc os) oi)%R).
    + rewrite Rabs_mult, (Rabs_pos_eq _ (Rlt_le _ _ (Pr _ V))).
      unfold Rdiv. ring.
    + exact S1.
    + exact V.
    + intros ri Vr. pose proof (merge_valid _ _ _ V Vr) as Vm.
      pose proof (bidx_merge_keep _ _ V Vr) as Eb. fold os in Eb.
      rewrite get_asarray by (rewrite ?S1; assumption).
      rewrite (G1 _ Vm), Eb, (Gr _ V).
      cbn [scast Scalar_R]. ring.
  - eexists. exists state, rngs, None.
    split; [reflexivity|]. split; [reflexivity|]. split; [discriminate|].
    split; [exact S0|]. intros oi V.
    rewrite (@slice_norm_scaled red W _ oi
               (/ sqrt (slice_norm red W oi * slice_norm red W oi
                        + WeightNorm.epsilon self))%R).
    + rewrite (Rabs_pos_eq _ (Rlt_le _ _ (Pr _ V))), Rabs_R1.
      unfold Rdiv. ring.
    + exact S0.
    + exact V.
    + intros ri Vr. pose proof (merge_valid _ _ _ V Vr) as Vm.
      pose proof (bidx_merge_keep _ _ V Vr) as Eb. fold os in Eb.
      rewrite get_asarray by (rewrite ?S0; assumption).
      rewrite (G0 _ Vm), Eb, (Gr _ V).
      reflexivity.
Qed.

(** ** WeightNorm, the call *)

Lemma Path_eqb_eq (p q : Path) : Path_eqb p q = true <-> p = q.
Proof.
  unfold Path_eqb. destruct (list_eq_dec String.string_dec p q); split;
    intros; congruence.
Qed.

Section UpdateFacts.

Context {T : Type} `{Scalar T}.

Lemma state_get_set_other (st : State T) (p q : Path) (v : Array T) :
  q <> p -> state_get (state_set st q v) p = state_get st p.
Proof.
  intros N. induction st as [|[k w] st IH]; simpl.
  - destruct (Path_eqb q p) eqn:E; [|reflexivity].
    apply Path_eqb_eq in E. contradiction.
  - destruct (Path_eqb k q) eqn:E; simpl.
    + apply Path_eqb_eq in E. subst k.
      destruct (Path_eqb q p) eqn:E'; [|reflexivity].
      apply Path_eqb_eq in E'. contradiction.
    + now rewrite IH.
Qed.

Lemma state_get_update_other (l : State T) (ps : State T) (p : Path) :
  ~ In p (map fst l) ->
  state_get (fold_left (fun ps pv => state_set ps (fst pv) (snd pv)) l ps) p
  = state_get ps p.
Proof.
  revert ps. induction l as [|[q w] l IH]; intros ps N; simpl; [reflexivity|].
  rewrite IH by (intros Hin; apply N; now right).
  apply state_get_set_other. intros E. apply N. now left.
Qed.

Lemma state_get_update (l : State T) (ps : State T) (p : Path)
  (v : Array T) :
  NoDup (map fst l) -> In (p, v) l ->
  state_get (fold_left (fun ps pv => state_set ps (fst pv) (snd pv)) l ps) p
  = Some v.
Proof.
  revert ps. induction l as [|[q w] l IH]; intros ps N Hin; [destruct Hin|].
  simpl in N. inversion N as [|? ? Nq N']; subst. simpl.
  destruct Hin as [E|Hin].
  - inversion E; subst. rewrite state_get_update_other by exact Nq.
    apply state_get_set.
  - now apply IH.
Qed.

Lemma NoDup_filter_paths (f : Path * Array T -> bool) (l : State T) :
  NoDup (map fst l) -> NoDup (map fst (filter f l)).
Proof.
  induction l as [|[q w] l IH]; intros N; simpl; [constructor|].
  inversion N as [|? ? Nq N']; subst.
  destruct (f (q, w)); simpl; [|now apply IH].
  constructor; [|now apply IH].
  intros Hin. apply Nq. apply in_map_iff in Hin as ([q' w'] & E & Hin).
  simpl in E. subst q'. apply filter_In in Hin as [Hin _].
  apply in_map_iff. now exists (q, w').
Qed.

End UpdateFacts.

Lemma NoDup_state_paths (self : WeightNorm.t R) :
  NoDup (map fst (params (WeightNorm.layer_instance self))) ->
  NoDup (map fst (nnx_state (WeightNorm.layer_instance self)
                    (WeightNorm.variable_filters self))).
Proof.
  intros N. unfold nnx_state.
  destruct (WeightNorm.variable_filters self); [|exact N].
  now apply NoDup_filter_paths.
Qed.

(** Mapping [apply_weight_norm] over a snapshot: every entry is replaced
    by its normalized form. *)
Lemma map_state_weight_norm (self : WeightNorm.t R) (entries : State R) :
  (0 < WeightNorm.epsilon self)%R ->
  (forall path W, In (path, W) entries -> feature_axes_ok self (ndim W)) ->
  forall st rngs,
  exists mapped st' rngs',
    map_state (WeightNorm.apply_weight_norm self) entries st rngs
    = Ok (mapped, st', rngs')
    /\ map fst mapped = map fst entries
    /\ forall path W, In (path, W) entries ->
         exists out sc,
           In (path, out) mapped
           /\ weight_normalized self W out sc
           /\ (WeightNorm.use_scale self = false -> sc = None)
           /\ (WeightNorm.use_scale self = true ->
               exists st0 rngs0,
                 sc = Some (fst (fst (WeightNorm.get_scale self st0 rngs0
                                        path
                                        (map (fun ax =>
                                                nth (Z.to_nat ax) (shape W) 0)
                                           (fst (WeightNorm.axes_of self
                                                   (ndim W)))))))).
Proof.
  intros He. induction entries as [|[p W] entries IH]; intros Fok st rngs.
  - exists [], st, rngs. repeat split. intros ? ? [].
  - destruct (@apply_weight_norm_spec self st rngs p W)
      as (out & st1 & r1 & sc & E & Hn & Hs & Hw);
      [apply (Fok p W); now left|exact He|].
    destruct (IH (fun q V Hin => Fok q V (or_intror Hin)) st1 r1)
      as (mapped & st2 & r2 & E2 & Ep & Hall).
    exists ((p, out) :: mapped), st2, r2. simpl. rewrite E, E2.
    split; [reflexivity|]. split; [now rewrite Ep|].
    intros path V [Eq|Hin].
    + inversion Eq; subst. exists out, sc.
      split; [now left|]. split; [exact Hw|]. split; [exact Hn|].
      intros Eu. exists st, rngs. now apply Hs.
    + destruct (Hall _ _ Hin) as (o & s' & Hin' & R).
      exists o, s'. split; [now right|exact R].
Qed.

(** The call rewrites every matching parameter of the wrapped layer. *)
Lemma WeightNorm_call_spec (self : WeightNorm.t R) (x : Array R) :
  NoDup (map fst (params (WeightNorm.layer_instance self))) ->
  (0 < WeightNorm.epsilon self)%R ->
  (forall path W,
     In (path, W) (nnx_state (WeightNorm.layer_instance self)
                     (WeightNorm.variable_filters self)) ->
     feature_axes_ok self (ndim W)) ->
  exists y self',
    WeightNorm.__call__ self x = Ok (y, self')
    /\ forall path W,
         In (path, W) (nnx_state (WeightNorm.layer_instance self)
                         (WeightNorm.variable_filters self)) ->
         exists out sc,
           state_get (params (WeightNorm.layer_instance self')) path
           = Some out
           /\ weight_normalized self W out sc
           /\ (WeightNorm.use_scale self = false -> sc = None)
           /\ (WeightNorm.use_scale self = true ->
               exists st0 rngs0,
                 sc = Some (fst (fst (WeightNorm.get_scale self st0 rngs0
                                        path
                                        (map (fun ax =>
                                                nth (Z.to_nat ax) (shape W) 0)
                                           (fst (WeightNorm.axes_of self
                                                   (ndim W)))))))).
Proof.
  intros N He Fok. unfold WeightNorm.__call__.
  set (snap := nnx_state (WeightNorm.layer_instance self)
                 (WeightNorm.variable_filters self)) in *.
  destruct (@map_state_weight_norm self snap He Fok snap
              (WeightNorm.rngs self))
    as (mapped & st' & r' & E & Ep & Hall).
  rewrite E. eexists. eexists. split; [reflexivity|].
  intros path W Hin. destruct (Hall _ _ Hin) as (out & sc & Hin' & R).
  exists out, sc. split; [|exact R].
  cbn [WeightNorm.layer_instance nnx_update params].
  apply state_get_update; [|exact Hin'].
  rewrite Ep. now apply NoDup_state_paths.
Qed.


Lemma kernel_axes (self : WeightNorm.t R) :
  WeightNorm.feature_axes self = Some (AxInt (-1)) ->
  WeightNorm.axes_of self 2 = ([1%Z], [0%Z]).
Proof.
  intros E. unfold WeightNorm.axes_of. rewrite E.
  rewrite canonicalize_axes_int. reflexivity.
Qed.



(** ** Sets of small ascending keys keep their order *)

Lemma set_nth_set_item (A : Type) (l : list A) (n : nat) (x : A) :
  PySet.set_nth l n x = set_item l n x.
Proof.
  reflexivity.
Qed.

Lemma py_hash_small (e : Z) :
  (0 <= e < 2 ^ 61 - 1)%Z -> PySet.py_hash e = e.
Proof.
  intros He. unfold PySet.py_hash.
  rewrite Z.abs_eq, Z.mod_small by lia.
  destruct (Z.eq_dec e 0) as [->|N]; [reflexivity|].
  rewrite Z.sgn_pos by lia.
  destruct (Z.eqb_spec (1 * e) (-1)); lia.
Qed.

Lemma land_mask (e m : Z) :
  (0 <= m)%Z -> (0 <= e < 2 ^ m)%Z -> Z.land e (2 ^ m - 1) = e.
Proof.
  intros Hm He. replace (2 ^ m - 1)%Z with (Z.ones m)
    by (rewrite Z.ones_equiv; lia).
  rewrite Z.land_ones by lia. now apply Z.mod_small.
Qed.

Lemma existsb_eqb_In (z : Z) (K : list Z) :
  existsb (Z.eqb z) K = true <-> In z K.
Proof.
  rewrite existsb_exists. split.
  - intros (a & Hin & E). apply Z.eqb_eq in E. now subst.
  - intros Hin. exists z. split; [exact Hin|apply Z.eqb_refl].
Qed.

Lemma direct_empty (n : nat) : direct (repeat None n) [].
Proof. intros i _. simpl. apply nth_repeat. Qed.

Lemma direct_ext (tbl : list (option Z)) (K K' : list Z) :
  (forall z, In z K <-> In z K') -> direct tbl K -> direct tbl K'.
Proof.
  intros E D i L. rewrite (D i L).
  destruct (existsb (Z.eqb (Z.of_nat i)) K) eqn:E1,
           (existsb (Z.eqb (Z.of_nat i)) K') eqn:E2; try reflexivity.
  - apply existsb_eqb_In, E, existsb_eqb_In in E1. congruence.
  - apply existsb_eqb_In, E, existsb_eqb_In in E2. congruence.
Qed.

Lemma lookkey_unused (fuel : nat) (tbl : list (option Z))
  (key i perturb : Z) :
  PySet.slot tbl i = None ->
  PySet.lookkey (S fuel) tbl key i perturb = Some (PySet.Unused i).
Proof. intros E. cbn [PySet.lookkey]. now rewrite scan_unused. Qed.

Lemma find_direct (tbl : list (option Z)) (K : list Z) (e m : Z) :
  direct tbl K -> (0 <= m)%Z -> Z.of_nat (length tbl) = (2 ^ m)%Z ->
  (0 <= e < 2 ^ m)%Z -> (e < 2 ^ 61 - 1)%Z -> ~ In e K ->
  PySet.find tbl e = Some (PySet.Unused e).
Proof.
  intros D Hm L He Hh Nin. unfold PySet.find.
  rewrite py_hash_small by lia.
  unfold PySet.mask. rewrite L, (land_mask Hm He).
  unfold PySet.probe_fuel.
  change (64 + length tbl) with (S (63 + length tbl)).
  apply lookkey_unused. unfold PySet.slot.
  rewrite (D (Z.to_nat e)) by lia. rewrite Z2Nat.id by lia.
  destruct (existsb (Z.eqb e) K) eqn:E; [|reflexivity].
  apply existsb_eqb_In in E. contradiction.
Qed.

Lemma direct_set (tbl : list (option Z)) (K : list Z) (e : Z) :
  direct tbl K -> (0 <= e < Z.of_nat (length tbl))%Z ->
  direct (PySet.set_nth tbl (Z.to_nat e) (Some e)) (e :: K).
Proof.
  intros D He i L. rewrite set_nth_set_item in *.
  rewrite length_set_item in L. rewrite nth_set_item. simpl.
  destruct (Nat.eqb_spec i (Z.to_nat e)) as [E|E].
  - subst i. destruct (Nat.ltb_spec (Z.to_nat e) (length tbl)); [|lia].
    simpl. rewrite Z2Nat.id by lia. now rewrite Z.eqb_refl.
  - simpl. rewrite (D i L).
    destruct (Z.eqb_spec (Z.of_nat i) e); [lia|reflexivity].
Qed.

Lemma length_set_nth (A : Type) (l : list A) (n : nat) (x : A) :
  length (PySet.set_nth l n x) = length l.
Proof. rewrite set_nth_set_item. apply length_set_item. Qed.

Lemma insert_clean_direct (tbl : list (option Z)) (K : list Z) (e m : Z) :
  direct tbl K -> (0 <= m)%Z -> Z.of_nat (length tbl) = (2 ^ m)%Z ->
  (0 <= e < 2 ^ m)%Z -> (e < 2 ^ 61 - 1)%Z -> ~ In e K ->
  direct (PySet.set_insert_clean tbl e) (e :: K)
  /\ length (PySet.set_insert_clean tbl e) = length tbl.
Proof.
  intros D Hm L He Hh Nin. unfold PySet.set_insert_clean.
  rewrite (find_direct D Hm L He Hh Nin). split.
  - apply direct_set; [exact D|lia].
  - apply length_set_nth.
Qed.

Lemma fold_insert_direct (l : list Z) (tbl : list (option Z)) (K : list Z)
  (m : Z) :
  direct tbl K -> (0 <= m)%Z -> Z.of_nat (length tbl) = (2 ^ m)%Z ->
  Forall (fun e => 0 <= e < 2 ^ m /\ e < 2 ^ 61 - 1)%Z l ->
  NoDup l -> (forall e, In e l -> ~ In e K) ->
  direct (fold_left PySet.set_insert_clean l tbl) (rev l ++ K)
  /\ length (fold_left PySet.set_insert_clean l tbl) = length tbl.
Proof.
  revert tbl K. induction l as [|e l IH]; intros tbl K D Hm L F N Nin.
  - simpl. auto.
  - inversion F as [|? ? [He Hh] F']; subst.
    inversion N as [|? ? Ne N']; subst.
    destruct (@insert_clean_direct tbl K e m D Hm L He Hh)
      as [D1 L1]; [apply Nin; now left|].
    destruct (IH (PySet.set_insert_clean tbl e) (e :: K)) as [D2 L2];
      try assumption; try congruence.
    + intros z Hz [E|Hk]; [subst; contradiction|].
      apply (Nin z); [now right|exact Hk].
    + simpl. rewrite <- app_assoc. simpl. split; [exact D2|congruence].
Qed.

Lemma keys_direct_from (tbl : list (option Z)) (K : list Z) (a : nat) :
  (forall i, i < length tbl ->
     nth i tbl None
     = if existsb (Z.eqb (Z.of_nat (a + i))) K
       then Some (Z.of_nat (a + i)) else None) ->
  PySet.keys tbl
  = filter (fun z => existsb (Z.eqb z) K)
           (map Z.of_nat (seq a (length tbl))).
Proof.
  revert a. induction tbl as [|x tbl IH]; intros a D; [reflexivity|].
  simpl. pose proof (D 0 ltac:(simpl; lia)) as D0. simpl in D0.
  rewrite Nat.add_0_r in D0.
  rewrite (IH (S a))
    by (intros i L; specialize (D (S i) ltac:(simpl; lia)); simpl in D;
        now rewrite Nat.add_succ_r in D).
  rewrite D0. now destruct (existsb (Z.eqb (Z.of_nat a)) K).
Qed.

Lemma keys_direct (tbl : list (option Z)) (K : list Z) :
  direct tbl K ->
  PySet.keys tbl
  = filter (fun z => existsb (Z.eqb z) K)
           (map Z.of_nat (seq 0 (length tbl))).
Proof. intros D. apply keys_direct_from. exact D. Qed.

Lemma newsize_spec (fuel : nat) (j minused : Z) :
  (0 <= j)%Z -> (minused < 2 ^ (j + Z.of_nat fuel))%Z ->
  exists m, (j <= m)%Z /\ PySet.newsize fuel (2 ^ j) minused = (2 ^ m)%Z
            /\ (minused < 2 ^ m)%Z.
Proof.
  revert j. induction fuel as [|fuel IH]; intros j Hj Hb.
  - exists j. simpl. rewrite Z.add_0_r in Hb. repeat split; lia.
  - cbn [PySet.newsize]. destruct (Z.leb_spec (2 ^ j) minused) as [L|L].
    + replace (2 * 2 ^ j)%Z with (2 ^ (j + 1))%Z
        by (rewrite Z.pow_add_r by lia; lia).
      destruct (IH (j + 1)%Z) as (m & Hm & E & B); [lia| |].
      * replace (j + 1 + Z.of_nat fuel)%Z with (j + Z.of_nat (S fuel))%Z
          by lia. exact Hb.
      * exists m. repeat split; [lia|exact E|exact B].
    + exists j. repeat split; lia.
Qed.

Lemma NoDup_seq_Z (a n : nat) : NoDup (map Z.of_nat (seq a n)).
Proof.
  revert a. induction n as [|n IH]; intros a; simpl; constructor.
  - rewrite in_map_iff. intros (i & E & Hi). apply in_seq in Hi. lia.
  - apply IH.
Qed.

Lemma in_filter_seq (K : list Z) (n : nat) (z : Z) :
  In z (filter (fun z => existsb (Z.eqb z) K) (map Z.of_nat (seq 0 n)))
  <-> In z K /\ (0 <= z < Z.of_nat n)%Z.
Proof.
  rewrite filter_In, existsb_eqb_In, in_map_iff. split.
  - intros [(i & E & Hi) Hk]. apply in_seq in Hi. split; [exact Hk|lia].
  - intros [Hk Hz]. split; [|exact Hk].
    exists (Z.to_nat z). split; [lia|]. apply in_seq. lia.
Qed.

Lemma set_inv_step (so : PySet.t) (K : list Z) (e : Z) :
  set_inv so K -> (forall z, In z K -> z < e)%Z ->
  (0 <= e <= PySet.fill so + 2)%Z -> (PySet.fill so < 2 ^ 58)%Z ->
  set_inv (PySet.set_add_entry so e) (e :: K).
Proof.
  intros (D & (m & Hm & L & F5) & Ef & Fk & Nd) Hlt He Hf.
  assert (P8 : (8 <= 2 ^ m)%Z).
  { change 8%Z with (2 ^ 3)%Z. apply Z.pow_le_mono_r; lia. }
  assert (Em : (e < 2 ^ m)%Z) by lia.
  assert (Nin : ~ In e K) by (intros Hin; specialize (Hlt _ Hin); lia).
  assert (H61 : (2 ^ 58 < 2 ^ 61 - 1)%Z) by reflexivity.
  assert (Fk' : forall z, In z K -> (0 <= z <= PySet.fill so + 1)%Z)
    by (now apply Forall_forall).
  unfold PySet.set_add_entry.
  rewrite (@find_direct _ K e m D) by (try assumption; lia).
  cbn [PySet.fill PySet.table].
  assert (D1 : direct (PySet.set_nth (PySet.table so) (Z.to_nat e) (Some e))
                 (e :: K)) by (apply direct_set; [exact D|lia]).
  assert (Em' : PySet.mask (PySet.table so) = (2 ^ m - 1)%Z)
    by (unfold PySet.mask; now rewrite L).
  rewrite Em'.
  assert (Nd1 : NoDup (e :: K)) by now constructor.
  assert (Ef1 : (PySet.fill so + 1)%Z = Z.of_nat (length (e :: K)))
    by (simpl length; lia).
  destruct (Z.ltb_spec ((PySet.fill so + 1) * 5) ((2 ^ m - 1) * 3))
    as [B|B].
  - split; [exact D1|]. cbn [PySet.table PySet.fill].
    split; [exists m; rewrite length_set_nth; auto|].
    split; [exact Ef1|]. split; [|exact Nd1].
    constructor; [lia|]. apply Forall_forall. intros z Hz.
    specialize (Fk' _ Hz). lia.
  - set (f' := (PySet.fill so + 1)%Z) in *.
    set (minused := if (50000 <? f')%Z then (f' * 2)%Z else (f' * 4)%Z).
    assert (Hmin : (2 * f' <= minused <= 4 * f')%Z).
    { unfold minused. destruct (50000 <? f')%Z; lia. }
    assert (F0 : (0 <= PySet.fill so)%Z) by lia.
    unfold PySet.set_table_resize. cbn [PySet.fill PySet.table].
    change PySet.PySet_MINSIZE with (2 ^ 3)%Z.
    destruct (@newsize_spec 64 3 minused) as (m' & Hm' & En & Bn); [lia| |].
    { apply Z.le_lt_trans with (4 * 2 ^ 59)%Z; [lia|reflexivity]. }
    rewrite En.
    set (tbl1 := PySet.set_nth (PySet.table so) (Z.to_nat e) (Some e)) in *.
    assert (L1 : length tbl1 = length (PySet.table so))
      by apply length_set_nth.
    assert (Hk : forall z, In z (PySet.keys tbl1) <-> In z (e :: K)).
    { intros z. rewrite (keys_direct D1), in_filter_seq, L1, L. split.
      - tauto.
      - intros Hin. split; [exact Hin|]. destruct Hin as [<-|Hin]; [lia|].
        specialize (Fk' _ Hin). lia. }
    assert (P0 : (0 < 2 ^ m')%Z) by (apply Z.pow_pos_nonneg; lia).
    destruct (@fold_insert_direct (PySet.keys tbl1)
                (repeat None (Z.to_nat (2 ^ m'))) [] m') as [D2 L2].
    + apply direct_empty.
    + lia.
    + rewrite repeat_length. lia.
    + apply Forall_forall. intros z Hz. apply Hk in Hz.
      destruct Hz as [<-|Hz]; [lia|]. specialize (Fk' _ Hz). lia.
    + rewrite (keys_direct D1). apply NoDup_filter, NoDup_seq_Z.
    + intros ? ? [].
    + unfold set_inv. cbn [PySet.table PySet.fill]. split.
      * apply direct_ext with (K := rev (PySet.keys tbl1) ++ []);
          [|exact D2].
        intros z. rewrite app_nil_r, <- in_rev. apply Hk.
      * split.
        -- exists m'. rewrite L2, repeat_length.
           split; [lia|]. split; [lia|]. lia.
        -- split; [exact Ef1|]. split; [|exact Nd1].
           constructor; [lia|]. apply Forall_forall. intros z Hz.
           specialize (Fk' _ Hz). lia.
Qed.

Lemma set_inv_fold (l : list Z) (so : PySet.t) (K : list Z) (lo : Z) :
  set_inv so K -> (forall z, In z K -> z <= lo)%Z -> (-1 <= lo)%Z ->
  climbs (length K) lo l ->
  (Z.of_nat (length K + length l) < 2 ^ 58)%Z ->
  set_inv (fold_left PySet.set_add_entry l so) (rev l ++ K).
Proof.
  revert so K lo. induction l as [|e l IH]; intros so K lo I Hlo Hm C B;
    [exact I|].
  destruct C as [He C]. simpl length in B.
  assert (Ef : PySet.fill so = Z.of_nat (length K)) by apply I.
  assert (I1 : set_inv (PySet.set_add_entry so e) (e :: K)).
  { apply set_inv_step; [exact I| |lia|lia].
    intros z Hz. specialize (Hlo _ Hz). lia. }
  simpl. rewrite <- app_assoc. simpl.
  apply (IH _ (e :: K) e); [exact I1| |lia|exact C|simpl length; lia].
  intros z [<-|Hz]; [lia|]. specialize (Hlo _ Hz). lia.
Qed.

Lemma set_inv_empty : set_inv PySet.empty [].
Proof.
  split; [apply direct_empty|]. split.
  - exists 3%Z. repeat split; try reflexivity; lia.
  - repeat split; constructor.
Qed.

Lemma climbs_sorted (c : nat) (lo : Z) (l : list Z) :
  climbs c lo l -> StronglySorted Z.lt l /\ Forall (Z.lt lo) l.
Proof.
  revert c lo. induction l as [|e l IH]; intros c lo C;
    [split; constructor|].
  destruct C as [He C]. destruct (IH _ _ C) as [S F]. split.
  - constructor; [exact S|exact F].
  - constructor; [lia|]. eapply Forall_impl; [|exact F].
    intros z Hz. simpl in Hz. lia.
Qed.

Lemma sorted_ext (l1 l2 : list Z) :
  StronglySorted Z.lt l1 -> StronglySorted Z.lt l2 ->
  (forall z, In z l1 <-> In z l2) -> l1 = l2.
Proof.
  intros S1. revert l2. induction S1 as [|a l1 S1 IH F1]; intros l2 S2 E.
  - destruct l2 as [|b l2]; [reflexivity|].
    exfalso. apply (E b). now left.
  - destruct S2 as [|b l2 S2 F2].
    + exfalso. apply (E a). now left.
    + rewrite Forall_forall in F1, F2.
      assert (Eab : a = b).
      { destruct (proj1 (E a) (or_introl eq_refl)) as [Hb|Hb];
          [now symmetry|].
        destruct (proj2 (E b) (or_introl eq_refl)) as [Ha|Ha];
          [exact Ha|].
        specialize (F1 _ Ha). specialize (F2 _ Hb). lia. }
      subst b. f_equal. apply IH; [exact S2|].
      intros z. split; intros Hz.
      * destruct (proj1 (E z) (or_intror Hz)) as [Hb|Hb]; [|exact Hb].
        subst z. specialize (F1 _ Hz). lia.
      * destruct (proj2 (E z) (or_intror Hz)) as [Hb|Hb]; [|exact Hb].
        subst z. specialize (F2 _ Hz). lia.
Qed.

Lemma sorted_seq_Z (a n : nat) : StronglySorted Z.lt (map Z.of_nat (seq a n)).
Proof.
  revert a. induction n as [|n IH]; intros a; simpl; constructor.
  - apply IH.
  - apply Forall_forall. intros z Hz. apply in_map_iff in Hz as (i & <- & Hi).
    apply in_seq in Hi. lia.
Qed.

Lemma sorted_filter (f : Z -> bool) (l : list Z) :
  StronglySorted Z.lt l -> StronglySorted Z.lt (filter f l).
Proof.
  induction 1 as [|a l S IH F]; simpl; [constructor|].
  destruct (f a); [|exact IH]. constructor; [exact IH|].
  rewrite Forall_forall in *. intros z Hz. apply filter_In in Hz as [Hz _].
  now apply F.
Qed.

(** Keys that climb are iterated in the order they were added. *)
Lemma of_list_climbs (l : list Z) :
  climbs 0 (-1) l -> (Z.of_nat (length l) < 2 ^ 58)%Z ->
  PySet.to_tuple (PySet.of_list l) = l.
Proof.
  intros C B. unfold PySet.to_tuple, PySet.of_list.
  pose proof (@set_inv_fold l PySet.empty [] (-1)%Z set_inv_empty) as I.
  destruct I as (D & (m & Hm & L & F5) & Ef & Fk & Nd);
    [intros ? []|lia|exact C|simpl; lia|].
  rewrite app_nil_r in *. rewrite (keys_direct D).
  destruct (climbs_sorted _ _ _ C) as [S F].
  apply sorted_ext; [apply sorted_filter, sorted_seq_Z|exact S|].
  intros z. rewrite in_filter_seq, <- in_rev, L. split; [tauto|].
  intros Hz. split; [exact Hz|].
  rewrite Forall_forall in Fk, F.
  specialize (Fk z (proj1 (in_rev _ _) Hz)). specialize (F _ Hz).
  assert (P8 : (8 <= 2 ^ m)%Z).
  { change 8%Z with (2 ^ 3)%Z. apply Z.pow_le_mono_r; lia. }
  lia.
Qed.

(** ** The axes of GroupNorm and LayerNorm *)

Lemma canonicalize_axes_climbs (rank : nat) (l : list Z) :
  climbs 0 (-1) (map (canon_axis (Z.of_nat rank)) l) ->
  (Z.of_nat (length l) < 2 ^ 58)%Z ->
  _canonicalize_axes rank (AxSeq l) = map (canon_axis (Z.of_nat rank)) l.
Proof.
  intros C B. unfold _canonicalize_axes. cbn [axes_iter].
  apply of_list_climbs; [exact C|]. now rewrite length_map.
Qed.

Lemma climbs_seq_app (k c a : nat) (lo : Z) (l : list Z) :
  (lo < Z.of_nat a)%Z -> a <= c + 2 ->
  climbs (c + k) (Z.of_nat (a + k) - 1) l ->
  climbs c lo (map Z.of_nat (seq a k) ++ l).
Proof.
  revert c a lo. induction k as [|k IH]; intros c a lo Hlo Ha C.
  - simpl. rewrite Nat.add_0_r in C. destruct l as [|e l]; [exact I|].
    destruct C as [He C]. split; [lia|exact C].
  - simpl. split; [lia|]. apply IH; [lia|lia|].
    replace (S c + k) with (c + S k) by lia.
    replace (S a + k) with (a + S k) by lia. exact C.
Qed.

Lemma canon_axis_nonneg (rank : Z) (l : list nat) :
  map (canon_axis rank) (map Z.of_nat l) = map Z.of_nat l.
Proof.
  rewrite map_map. apply map_ext. intros a. unfold canon_axis.
  destruct (Z.ltb_spec (Z.of_nat a) 0); [lia|reflexivity].
Qed.

Lemma canonicalize_axes_seq (rank k : nat) :
  (Z.of_nat k < 2 ^ 58)%Z ->
  _canonicalize_axes rank (AxSeq (map Z.of_nat (seq 1 k)))
  = map Z.of_nat (seq 1 k).
Proof.
  intros B. rewrite canonicalize_axes_climbs; rewrite ?canon_axis_nonneg.
  - reflexivity.
  - rewrite <- (app_nil_r (map _ _)). apply climbs_seq_app; [lia|lia|exact I].
  - now rewrite length_map, length_seq.
Qed.

Lemma canonicalize_axes_seq_last (rank k : nat) :
  k + 2 <= rank <= k + 3 -> (Z.of_nat k < 2 ^ 58 - 1)%Z ->
  _canonicalize_axes rank (AxSeq (map Z.of_nat (seq 1 k) ++ [(-1)%Z]))
  = map Z.of_nat (seq 1 k) ++ [Z.of_nat rank - 1]%Z.
Proof.
  intros L B.
  assert (E : map (canon_axis (Z.of_nat rank))
                (map Z.of_nat (seq 1 k) ++ [(-1)%Z])
              = map Z.of_nat (seq 1 k) ++ [Z.of_nat rank - 1]%Z).
  { rewrite map_app, canon_axis_nonneg. simpl. unfold canon_axis. simpl.
    do 2 f_equal. }
  rewrite canonicalize_axes_climbs; rewrite ?E.
  - reflexivity.
  - apply climbs_seq_app; [lia|lia|]. split; [lia|exact I].
  - rewrite length_app, length_map, length_seq. simpl. lia.
Qed.

Lemma layer_axes_last (n : nat) :
  2 <= n -> layer_axes n = map Z.of_nat (seq 1 (n - 2)) ++ [Z.of_nat n - 1]%Z.
Proof.
  intros L. unfold layer_axes.
  replace (n - 1) with (S (n - 2)) by lia.
  rewrite seq_S, map_app. simpl. do 2 f_equal. lia.
Qed.

Lemma removelast_layer_axes (n : nat) :
  2 <= n -> removelast (layer_axes n) = map Z.of_nat (seq 1 (n - 2)).
Proof. intros L. rewrite layer_axes_last by exact L. apply removelast_last. Qed.

(** The default reduction axes of GroupNorm are those of the layer. *)
Lemma canonicalize_axes_default (n : nat) :
  2 <= n -> (Z.of_nat n < 2 ^ 58)%Z ->
  _canonicalize_axes n (AxSeq (map Z.of_nat (seq 1 (n - 1 - 1)) ++ [(-1)%Z]))
  = layer_axes n.
Proof.
  intros L B. replace (n - 1 - 1) with (n - 2) by lia.
  rewrite canonicalize_axes_seq_last by lia.
  now rewrite layer_axes_last.
Qed.

Lemma canonicalize_axes_layer (n : nat) :
  (Z.of_nat n < 2 ^ 58)%Z ->
  _canonicalize_axes n (AxSeq (layer_axes n)) = layer_axes n.
Proof. intros B. apply canonicalize_axes_seq. lia. Qed.

Lemma canonicalize_axes_group (n : nat) :
  2 <= n -> (Z.of_nat n < 2 ^ 58)%Z ->
  _canonicalize_axes (S n)
    (AxSeq (removelast (layer_axes n) ++ [(-1)%Z]))
  = group_axes n.
Proof.
  intros L B. rewrite removelast_layer_axes by exact L.
  rewrite canonicalize_axes_seq_last by lia.
  unfold group_axes. do 2 f_equal. lia.
Qed.

Lemma canonicalize_axes_inner (n : nat) :
  2 <= n -> (Z.of_nat n < 2 ^ 58)%Z ->
  _canonicalize_axes n (AxSeq (removelast (layer_axes n)))
  = map Z.of_nat (seq 1 (n - 2)).
Proof.
  intros L B. rewrite removelast_layer_axes by exact L.
  apply canonicalize_axes_seq. lia.
Qed.

(** ** Indices of the grouped input *)

Lemma group_idx_cons (i : nat) (r : list nat) :
  r <> [] -> group_idx (i :: r) = i :: group_idx r.
Proof. destruct r; [congruence|reflexivity]. Qed.

Lemma group_idx_snoc (j : list nat) (c : nat) :
  group_idx (j ++ [c]) = j ++ [0; c].
Proof.
  induction j as [|i j IH]; [reflexivity|].
  change ((i :: j) ++ [c]) with (i :: (j ++ [c])).
  rewrite group_idx_cons by (destruct j; discriminate).
  now rewrite IH.
Qed.

Lemma snoc_inv (A : Type) (l : list A) (n : nat) :
  length l = S n -> exists j c, l = j ++ [c] /\ length j = n.
Proof.
  intros L. destruct (@exists_last _ l) as (j & c & E).
  - intros E. rewrite E in L. discriminate.
  - exists j, c. split; [exact E|].
    rewrite E, length_app in L. simpl in L. lia.
Qed.

Lemma ravel_snoc (f : Shape) (C : nat) (j : list nat) (c : nat) :
  length j = length f ->
  ravel (f ++ [1; C]) (j ++ [0; c]) = ravel (f ++ [C]) (j ++ [c]).
Proof.
  revert j. induction f as [|d f IH]; intros [|i j] L; try discriminate.
  - simpl. lia.
  - simpl in L. cbn [app ravel]. rewrite IH by lia.
    rewrite !size_app. simpl. f_equal. f_equal. lia.
Qed.

Lemma ravel_group (f : Shape) (C : nat) (idx : list nat) :
  length idx = S (length f) ->
  ravel (f ++ [1; C]) (group_idx idx) = ravel (f ++ [C]) idx.
Proof.
  intros L. destruct (@snoc_inv _ _ _ L) as (j & c & -> & Lj).
  rewrite group_idx_snoc. now apply ravel_snoc.
Qed.

Lemma combine_app_eq (A B : Type) (l1 l2 : list A) (k1 k2 : list B) :
  length l1 = length k1 ->
  combine (l1 ++ l2) (k1 ++ k2) = combine l1 k1 ++ combine l2 k2.
Proof.
  revert k1. induction l1 as [|a l1 IH]; intros [|b k1] L; try discriminate;
    [reflexivity|].
  simpl. f_equal. apply IH. simpl in L. lia.
Qed.

Lemma bidx_group (f : Shape) (C : nat) (idx : list nat) :
  S (length f) <= length idx ->
  bidx (f ++ [1; C]) (group_idx idx) = group_idx (bidx (f ++ [C]) idx).
Proof.
  intros L. destruct (@snoc_inv _ idx (length idx - 1)) as (j & c & -> & Lj);
    [lia|].
  rewrite length_app in L. simpl in L.
  rewrite group_idx_snoc. unfold bidx.
  rewrite !length_app. cbn [length].
  replace (length j + 2 - (length f + 2)) with (length j - length f) by lia.
  replace (length j + 1 - (length f + 1)) with (length j - length f) by lia.
  rewrite !skipn_app.
  replace (length j - length f - length j) with 0 by lia.
  cbn [skipn].
  assert (Ls : length f = length (skipn (length j - length f) j))
    by (rewrite length_skipn; lia).
  rewrite !combine_app_eq by exact Ls.
  rewrite !map_app. cbn [combine map fst snd Nat.eqb].
  now rewrite group_idx_snoc.
Qed.

Lemma length_bidx (s : Shape) (idx : list nat) :
  length s <= length idx -> length (bidx s idx) = length s.
Proof.
  intros L. unfold bidx. rewrite length_map, length_combine, length_skipn.
  lia.
Qed.

Lemma indices_nonempty (f : Shape) (C : nat) (idx : list nat) :
  In idx (indices (f ++ [C])) -> length idx = S (length f).
Proof.
  intros Hin. apply indices_valid in Hin. apply valid_length in Hin.
  rewrite Hin, length_app. simpl. lia.
Qed.

Lemma indices_group (f : Shape) (C : nat) :
  indices (f ++ [1; C]) = map group_idx (indices (f ++ [C])).
Proof.
  induction f as [|d f IH].
  - cbn [app]. change (indices [1; C]) with (map (cons 0) (indices [C]) ++ []).
    rewrite app_nil_r. apply map_ext_in. intros idx Hin.
    apply (@indices_nonempty [] C) in Hin.
    destruct idx as [|c [|? ?]]; try discriminate. reflexivity.
  - cbn [app indices]. rewrite IH, !flat_map_concat_map, concat_map, !map_map.
    f_equal. apply map_ext. intros i. rewrite !map_map.
    apply map_ext_in. intros idx Hin. apply indices_nonempty in Hin.
    symmetry. apply group_idx_cons. intros E. now rewrite E in Hin.
Qed.

Lemma indices_snoc_one (s : Shape) :
  indices (s ++ [1]) = map (fun oi => oi ++ [0]) (indices s).
Proof.
  induction s as [|d s IH]; [reflexivity|].
  cbn [app indices]. rewrite IH, !flat_map_concat_map, concat_map, !map_map.
  f_equal. apply map_ext. intros i. now rewrite !map_map.
Qed.

(** ** Positions of the reduced axes *)

Lemma is_axis_seq (a k q : nat) :
  is_axis (map Z.of_nat (seq a k)) q = (a <=? q) && (q <? a + k).
Proof.
  destruct (is_axis _ q) eqn:E.
  - apply is_axis_nonneg, in_map_iff in E as (i & Ei & Hi).
    apply in_seq in Hi. symmetry. apply andb_true_iff.
    split; [apply Nat.leb_le|apply Nat.ltb_lt]; lia.
  - symmetry. apply not_true_is_false. intros B.
    apply andb_true_iff in B as [B1 B2].
    apply Nat.leb_le in B1. apply Nat.ltb_lt in B2.
    assert (Ht : is_axis (map Z.of_nat (seq a k)) q = true).
    { apply is_axis_nonneg, in_map_iff. exists q. split; [reflexivity|].
      apply in_seq. lia. }
    congruence.
Qed.

Lemma is_axis_layer (n q : nat) :
  is_axis (layer_axes n) q = (1 <=? q) && (q <? 1 + (n - 1)).
Proof. apply is_axis_seq. Qed.

Lemma is_axis_group (n q : nat) :
  is_axis (group_axes n) q
  = (1 <=? q) && (q <? 1 + (n - 2)) || (n =? q).
Proof.
  unfold group_axes, is_axis. rewrite existsb_app.
  fold (is_axis (map Z.of_nat (seq 1 (n - 2))) q). rewrite is_axis_seq.
  f_equal. simpl. rewrite orb_false_r.
  destruct (Nat.eqb_spec n q), (Z.eqb_spec (Z.of_nat q) (Z.of_nat n));
    try reflexivity; lia.
Qed.

Lemma red_shape_all (A : list Z) (p : nat) (s : Shape) :
  (forall q, p <= q < p + length s -> is_axis A q = true) ->
  red_shape A p s = s /\ out_shape A false p s = [].
Proof.
  revert p. induction s as [|d s IH]; intros p Hq; [split; reflexivity|].
  cbn [red_shape out_shape]. rewrite Hq by (simpl; lia).
  destruct (IH (S p)) as [E1 E2]; [intros q Hl; apply Hq; simpl; lia|].
  rewrite E1, E2. split; reflexivity.
Qed.

Lemma red_shape_app (A : list Z) (p : nat) (s1 s2 : Shape) :
  red_shape A p (s1 ++ s2)
  = red_shape A p s1 ++ red_shape A (p + length s1) s2.
Proof.
  revert p. induction s1 as [|d s1 IH]; intros p; simpl.
  - now rewrite Nat.add_0_r.
  - rewrite IH. replace (S p + length s1) with (p + S (length s1)) by lia.
    destruct (is_axis A p); reflexivity.
Qed.

Lemma out_shape_app (A : list Z) (k : bool) (p : nat) (s1 s2 : Shape) :
  out_shape A k p (s1 ++ s2)
  = out_shape A k p s1 ++ out_shape A k (p + length s1) s2.
Proof.
  revert p. induction s1 as [|d s1 IH]; intros p; simpl.
  - now rewrite Nat.add_0_r.
  - rewrite IH. replace (S p + length s1) with (p + S (length s1)) by lia.
    destruct (is_axis A p); [now rewrite app_assoc|reflexivity].
Qed.

Lemma length_merge_idx (A : list Z) (k : bool) (p : nat) (s : Shape)
  (oi ri : list nat) :
  length (merge_idx A k p s oi ri) = length s.
Proof.
  revert p oi ri. induction s as [|d s IH]; intros p oi ri; simpl;
    [reflexivity|].
  destruct (is_axis A p); simpl; now rewrite IH.
Qed.

Lemma merge_idx_all (A A' : list Z) (p : nat) (s : Shape)
  (oi oi' ri : list nat) :
  (forall q, p <= q < p + length s ->
     is_axis A q = true /\ is_axis A' q = true) ->
  merge_idx A' false p s oi' ri = merge_idx A false p s oi ri.
Proof.
  revert p ri. induction s as [|d s IH]; intros p ri Hq; [reflexivity|].
  cbn [merge_idx]. destruct (Hq p) as [-> ->]; [simpl; lia|].
  f_equal. apply IH. intros q Hl. apply Hq. simpl. lia.
Qed.

Lemma merge_idx_group_tail (A A' : list Z) (mid : Shape) (C p : nat)
  (ri : list nat) :
  (forall q, p <= q < p + length mid ->
     is_axis A q = true /\ is_axis A' q = true) ->
  is_axis A (p + length mid) = true ->
  is_axis A' (p + length mid) = false ->
  is_axis A' (S (p + length mid)) = true ->
  merge_idx A' false p (mid ++ [1; C]) [0] ri
  = group_idx (merge_idx A false p (mid ++ [C]) [] ri).
Proof.
  revert p ri. induction mid as [|d mid IH]; intros p ri Hq H1 H2 H3.
  - simpl in H1, H2, H3. rewrite Nat.add_0_r in H1, H2, H3.
    cbn [app merge_idx]. rewrite H1, H2, H3. reflexivity.
  - cbn [app merge_idx]. destruct (Hq p) as [-> ->]; [simpl; lia|].
    rewrite group_idx_cons.
    + f_equal. apply IH.
      * intros q Hl. apply Hq. simpl. lia.
      * rewrite <- H1. f_equal. simpl. lia.
      * rewrite <- H2. f_equal. simpl. lia.
      * rewrite <- H3. f_equal. simpl. lia.
    + intros E. apply (f_equal (@length nat)) in E.
      rewrite length_merge_idx, length_app in E. simpl in E. lia.
Qed.

(** ** Statistics of the grouped input *)

Lemma sub_shape_group (f g : Shape) (C D : nat) :
  sub_shape (f ++ [C]) (g ++ [D]) ->
  length g = length f /\ sub_shape (f ++ [1; C]) (g ++ [1; D]).
Proof.
  intros S. pose proof (sub_shape_length S) as L.
  rewrite !length_app in L. simpl in L.
  apply Forall2_app_inv_l in S as (g' & t & Sf & St & E).
  inversion St as [|? D' ? ? HD Sn]; subst. inversion Sn; subst.
  apply app_inj_tail in E as [-> ->].
  split; [lia|]. apply Forall2_app; [exact Sf|].
  constructor; [now left|]. constructor; [exact HD|constructor].
Qed.

Lemma mget_grouped (C : nat) (g : Shape) (m m' : Mask) (idx : list nat) :
  mdata m' = mdata m -> mshape m = g ++ [C] -> mshape m' = g ++ [1; C] ->
  S (length g) <= length idx ->
  mget m' (bidx (mshape m') (group_idx idx))
  = mget m (bidx (mshape m) idx).
Proof.
  intros Ed Sm Sm' L. unfold mget. rewrite Sm', Sm, Ed, bidx_group by exact L.
  rewrite ravel_group; [reflexivity|].
  rewrite length_bidx; rewrite length_app; simpl; lia.
Qed.

Lemma layer_axes_at (mid : Shape) (n : nat) :
  n = length mid + 2 ->
  is_axis (layer_axes n) 0 = false
  /\ is_axis (group_axes n) 0 = false
  /\ (forall q, 1 <= q < 1 + length mid ->
        is_axis (layer_axes n) q = true /\ is_axis (group_axes n) q = true)
  /\ is_axis (layer_axes n) (1 + length mid) = true
  /\ is_axis (group_axes n) (1 + length mid) = false
  /\ is_axis (group_axes n) (S (1 + length mid)) = true.
Proof.
  intros ->. repeat split; rewrite ?is_axis_layer, ?is_axis_group.
  - reflexivity.
  - simpl. apply Nat.eqb_neq. lia.
  - apply andb_true_iff. split; [apply Nat.leb_le|apply Nat.ltb_lt]; lia.
  - apply orb_true_iff. left. apply andb_true_iff.
    split; [apply Nat.leb_le|apply Nat.ltb_lt]; lia.
  - apply andb_true_iff. split; [apply Nat.leb_le|apply Nat.ltb_lt]; lia.
  - apply orb_false_iff. split.
    + apply andb_false_iff. right. apply Nat.ltb_ge. lia.
    + apply Nat.eqb_neq. lia.
  - apply orb_true_iff. right. apply Nat.eqb_eq. lia.
Qed.

Lemma shapes_layer (b C n : nat) (mid : Shape) :
  n = length mid + 2 ->
  red_shape (layer_axes n) 0 (b :: mid ++ [C]) = mid ++ [C]
  /\ out_shape (layer_axes n) false 0 (b :: mid ++ [C]) = [b].
Proof.
  intros En. destruct (@layer_axes_at mid n En) as (A0 & _ & Aq & A1 & _).
  cbn [red_shape out_shape]. rewrite A0.
  destruct (@red_shape_all (layer_axes n) 1 (mid ++ [C])) as [E1 E2].
  - intros q Hq. rewrite length_app in Hq. simpl in Hq.
    destruct (Nat.eq_dec q (1 + length mid)) as [->|Nq]; [exact A1|].
    apply Aq. lia.
  - rewrite E1, E2. split; reflexivity.
Qed.

Lemma shapes_group (b C n : nat) (mid : Shape) :
  n = length mid + 2 ->
  red_shape (group_axes n) 0 (b :: mid ++ [1; C]) = mid ++ [C]
  /\ out_shape (group_axes n) false 0 (b :: mid ++ [1; C]) = [b; 1].
Proof.
  intros En. destruct (@layer_axes_at mid n En) as (_ & A0 & Aq & _ & A1 & A2).
  cbn [red_shape out_shape]. rewrite A0.
  rewrite red_shape_app, out_shape_app.
  destruct (@red_shape_all (group_axes n) 1 mid) as [E1 E2];
    [intros q Hq; now apply Aq|].
  rewrite E1, E2. cbn [red_shape out_shape]. rewrite A1, A2.
  split; reflexivity.
Qed.

Lemma merge_idx_group (b C n i : nat) (mid : Shape) (ri : list nat) :
  n = length mid + 2 ->
  merge_idx (group_axes n) false 0 (b :: mid ++ [1; C]) [i; 0] ri
  = group_idx (merge_idx (layer_axes n) false 0 (b :: mid ++ [C]) [i] ri).
Proof.
  intros En. destruct (@layer_axes_at mid n En) as (A0 & A0' & Aq & A1 & A2 & A3).
  cbn [merge_idx]. rewrite A0, A0'. cbn [hd tl].
  rewrite group_idx_cons.
  - f_equal. now apply merge_idx_group_tail.
  - intros E. apply (f_equal (@length nat)) in E.
    rewrite length_merge_idx, length_app in E. simpl in E. lia.
Qed.

Section GroupedFacts.

Context {T : Type} `{Scalar T}.

Lemma get_grouped (f : Shape) (C : nat) (a a' : Array T) (idx : list nat) :
  grouped f C a a' -> length idx = S (length f) ->
  get a' (group_idx idx) = get a idx.
Proof.
  intros (Ed & Ea & Sa & Sa') L. unfold get.
  now rewrite Sa', Sa, Ea, ravel_group.
Qed.

Lemma get_grouped_bidx (f : Shape) (C : nat) (a a' : Array T)
  (idx : list nat) :
  grouped f C a a' -> S (length f) <= length idx ->
  get a' (bidx (shape a') (group_idx idx)) = get a (bidx (shape a) idx).
Proof.
  intros G L. pose proof G as (Ed & Ea & Sa & Sa').
  rewrite Sa', bidx_group by exact L. rewrite Sa.
  eapply get_grouped; [exact G|].
  rewrite length_bidx; rewrite length_app; simpl; lia.
Qed.

Lemma grouped_map_scalar (f : Shape) (C : nat) (fn : Dtype -> T -> T)
  (a a' : Array T) :
  grouped f C a a' -> grouped f C (map_scalar fn a) (map_scalar fn a').
Proof.
  intros (Ed & Ea & Sa & Sa'). unfold grouped, map_scalar.
  cbn [dtype data shape]. now rewrite Ed, Ea.
Qed.

Lemma grouped_asarray (f : Shape) (C : nat) (d : Dtype) (a a' : Array T) :
  grouped f C a a' -> grouped f C (asarray a d) (asarray a' d).
Proof.
  intros (Ed & Ea & Sa & Sa'). unfold grouped, asarray.
  cbn [dtype data shape]. now rewrite Ea.
Qed.

Lemma grouped_reshape (f : Shape) (C : nat) (x : Array T) :
  shape x = f ++ [C] ->
  grouped f C x (reshape x (removelast (shape x) ++ [1; C])).
Proof.
  intros Sx. unfold grouped, reshape. cbn [dtype data shape].
  now rewrite Sx, removelast_last.
Qed.

Lemma grouped_map2 (fn : Dtype -> T -> T -> T) (f g : Shape) (C D : nat)
  (a a' e e' : Array T) :
  grouped f C a a' -> grouped g D e e' ->
  sub_shape (f ++ [C]) (g ++ [D]) ->
  grouped f C (map2 fn a e) (map2 fn a' e').
Proof.
  intros Ga Ge S. pose proof Ga as (Eda & Eaa & Sa & Sa').
  pose proof Ge as (Ede & Eae & Se & Se').
  destruct (@sub_shape_group f g C D S) as [Lg S'].
  unfold grouped, map2, tabulate. cbn [dtype data shape].
  rewrite Sa, Sa', Se, Se', (bshape_sub_r S), (bshape_sub_r S'), Eda, Ede.
  split; [reflexivity|]. split; [|split; reflexivity].
  rewrite indices_group, map_map. apply map_ext_in. intros idx Hin.
  apply indices_nonempty in Hin.
  rewrite <- Sa, <- Sa', <- Se, <- Se'.
  rewrite (@get_grouped_bidx f C a a' idx Ga) by lia.
  rewrite (@get_grouped_bidx g D e e' idx Ge) by lia.
  reflexivity.
Qed.

Lemma red_elems_group (b C n i : nat) (mid : Shape) (a a' : Array T) :
  grouped (b :: mid) C a a' -> n = length mid + 2 ->
  red_elems (group_axes n) false a' [i; 0]
  = red_elems (layer_axes n) false a [i].
Proof.
  intros G En. pose proof G as (Ed & Ea & Sa & Sa').
  unfold red_elems. rewrite Sa', Sa. cbn [app].
  rewrite (proj1 (@shapes_group b C n mid En)),
          (proj1 (@shapes_layer b C n mid En)).
  apply map_ext. intros ri. rewrite merge_idx_group by exact En.
  eapply get_grouped; [exact G|]. rewrite length_merge_idx. simpl.
  rewrite length_app. simpl. lia.
Qed.

Lemma red_mask_group (b C n i : nat) (mid g : Shape) (a a' : Array T)
  (m m' : Mask) :
  grouped (b :: mid) C a a' -> n = length mid + 2 ->
  mdata m' = mdata m -> mshape m = g ++ [C] -> mshape m' = g ++ [1; C] ->
  length (mshape m) <= n ->
  red_mask (group_axes n) false a' m' [i; 0]
  = red_mask (layer_axes n) false a m [i].
Proof.
  intros G En Em Sm Sm' Lm. pose proof G as (Ed & Ea & Sa & Sa').
  unfold red_mask. rewrite Sa', Sa. cbn [app].
  rewrite (proj1 (@shapes_group b C n mid En)),
          (proj1 (@shapes_layer b C n mid En)).
  apply map_ext. intros ri. rewrite merge_idx_group by exact En.
  apply (@mget_grouped C g m m' _ Em Sm Sm').
  rewrite length_merge_idx. rewrite Sm, length_app in Lm. simpl in *.
  rewrite length_app. simpl. lia.
Qed.

(** The mean of the grouped input over GroupNorm's axes is the mean of the
    input over LayerNorm's, with a group axis of size 1. *)
Lemma mean_grouped (b C n : nat) (mid : Shape) (a a' : Array T)
  (mask mask' : option Mask) :
  grouped (b :: mid) C a a' -> n = length mid + 2 ->
  mgrouped C n mask mask' ->
  mean (group_axes n) false mask' a'
  = reshape (mean (layer_axes n) false mask a) [b; 1].
Proof.
  intros G En Gm. pose proof G as (Ed & Ea & Sa & Sa').
  unfold mean, reshape. cbn [shape dtype data sum tabulate].
  rewrite Sa', Sa. cbn [app].
  rewrite (proj2 (@shapes_group b C n mid En)),
          (proj2 (@shapes_layer b C n mid En)), Ed.
  unfold tabulate at 1. f_equal.
  change (indices [b; 1]) with (indices ([b] ++ [1])).
  rewrite indices_snoc_one, map_map. apply map_ext_in. intros oi Hin.
  apply indices_valid in Hin.
  assert (Eo : exists i, oi = [i] /\ i < b).
  { inversion Hin as [|? i ? r Hi Hr]; subst. inversion Hr; subst.
    now exists i. }
  destruct Eo as (i & -> & Hi).
  cbn [app]. unfold sum. rewrite Sa', Sa. cbn [app].
  rewrite (proj2 (@shapes_group b C n mid En)),
          (proj2 (@shapes_layer b C n mid En)).
  rewrite !get_tabulate
    by (repeat constructor; cbv beta; lia).
  pose proof (@red_elems_group b C n i mid a a' G En) as Er.
  unfold normalizer. rewrite Ed, Er.
  destruct mask as [m|], mask' as [m'|]; try contradiction.
  - destruct Gm as (Em & Lm & g & Sm & Sm').
    rewrite (@red_mask_group b C n i mid g a a' m m' G En Em Sm Sm' Lm). reflexivity.
  - rewrite Sa', Sa. cbn [app].
    rewrite (proj1 (@shapes_group b C n mid En)),
            (proj1 (@shapes_layer b C n mid En)).
    reflexivity.
Qed.

End GroupedFacts.

Lemma expand_shape_axes (A : list Z) (k r p : nat) (s : Shape) :
  (forall q, p <= q < p + k -> is_axis A q = true) ->
  expand_shape A p (k + r) s = repeat 1 k ++ expand_shape A (p + k) r s.
Proof.
  revert p. induction k as [|k IH]; intros p Hq.
  - simpl. now rewrite Nat.add_0_r.
  - cbn [Nat.add expand_shape repeat app]. rewrite Hq by lia.
    f_equal. rewrite IH by (intros q Hl; apply Hq; lia).
    do 2 f_equal. lia.
Qed.

Lemma expand_shape_layer (b n : nat) (mid : Shape) :
  n = length mid + 2 ->
  expand_shape (layer_axes n) 0 (1 + length (layer_axes n)) [b]
  = (b :: repeat 1 (length mid)) ++ [1].
Proof.
  intros En. destruct (@layer_axes_at mid n En) as (A0 & _ & Aq & A1 & _).
  unfold layer_axes at 2. rewrite length_map, length_seq.
  replace (1 + (n - 1)) with (S (length mid + 1)) by lia.
  cbn [expand_shape]. rewrite A0. cbn [hd tl app]. f_equal.
  rewrite expand_shape_axes by (intros q Hq; now apply Aq).
  cbn [expand_shape]. now rewrite A1.
Qed.

Lemma expand_shape_group (b n : nat) (mid : Shape) :
  n = length mid + 2 ->
  expand_shape (group_axes n) 0 (2 + length (group_axes n)) [b; 1]
  = (b :: repeat 1 (length mid)) ++ [1; 1].
Proof.
  intros En. destruct (@layer_axes_at mid n En) as (_ & A0 & Aq & _ & A1 & A2).
  unfold group_axes at 2. rewrite length_app, length_map, length_seq.
  replace (2 + (n - 2 + length [Z.of_nat n])) with (S (length mid + 2))
    by (simpl; lia).
  cbn [expand_shape]. rewrite A0. cbn [hd tl app]. f_equal.
  rewrite expand_shape_axes by (intros q Hq; now apply Aq).
  cbn [expand_shape]. now rewrite A1, A2.
Qed.

Lemma sub_shape_keep (b C : nat) (mid : Shape) :
  sub_shape ((b :: mid) ++ [C]) ((b :: repeat 1 (length mid)) ++ [1]).
Proof.
  apply Forall2_app; [constructor; [now left|apply sub_shape_ones]|].
  constructor; [now right|constructor].
Qed.

Section GroupedStats.

Context {T : Type} `{Scalar T}.

Lemma map2_reshape_unit (fn : Dtype -> T -> T -> T) (b : nat)
  (a e : Array T) :
  wf a -> wf e -> shape a = [b] -> shape e = [b] ->
  map2 fn (reshape a [b; 1]) (reshape e [b; 1])
  = reshape (map2 fn a e) [b; 1].
Proof.
  intros Wa We Sa Se.
  rewrite (@map2_same_shape _ _ fn a e Wa We) by congruence.
  rewrite map2_same_shape; [reflexivity| | |reflexivity];
    unfold wf, reshape; cbn [data shape]; [rewrite Wa, Sa|rewrite We, Se];
    simpl; lia.
Qed.

Lemma wf_mean (axes : list Z) (k : bool) (mask : option Mask) (a : Array T) :
  wf (mean axes k mask a).
Proof. apply wf_tabulate. Qed.

(** The statistics of the grouped input are those of the input itself,
    with a group axis of size 1. *)
Lemma compute_stats_grouped (b C n : nat) (mid : Shape) (x x' : Array T)
  (dt : option Dtype) (fast : bool) (mask mask' : option Mask) :
  grouped (b :: mid) C x x' -> n = length mid + 2 ->
  (Z.of_nat n < 2 ^ 58)%Z -> mgrouped C n mask mask' ->
  _compute_stats x' (AxSeq (removelast (layer_axes n) ++ [(-1)%Z])) dt true
                 fast mask'
  = (reshape (fst (_compute_stats x (AxSeq (layer_axes n)) dt true fast mask))
       [b; 1],
     reshape (snd (_compute_stats x (AxSeq (layer_axes n)) dt true fast mask))
       [b; 1]).
Proof.
  intros G En B Gm. pose proof G as (Ed & Ea & Sa & Sa').
  unfold _compute_stats. rewrite Ed.
  set (d0 := promote_types match dt with Some d => d | None => dtype x end
               float32).
  pose proof (@grouped_asarray _ _ _ _ d0 _ _ G) as Gx.
  assert (N' : ndim (asarray x' d0) = S n).
  { unfold ndim, asarray. cbn [shape]. rewrite Sa', length_app. simpl. lia. }
  assert (N : ndim (asarray x d0) = n).
  { unfold ndim, asarray. cbn [shape]. rewrite Sa, length_app. simpl. lia. }
  rewrite N', N, canonicalize_axes_group, canonicalize_axes_layer
    by (try exact B; lia).
  set (xa := asarray x d0) in *. set (xa' := asarray x' d0) in *.
  assert (Em : mean (group_axes n) false mask' xa'
               = reshape (mean (layer_axes n) false mask xa) [b; 1])
    by (apply mean_grouped with (C := C) (mid := mid); assumption).
  assert (So : forall a, shape a = (b :: mid) ++ [C] ->
                 shape (mean (layer_axes n) false mask a) = [b]).
  { intros a Sh. unfold mean. cbn [shape sum tabulate]. rewrite Sh.
    exact (proj2 (@shapes_layer b C n mid En)). }
  assert (Sxa : shape xa = (b :: mid) ++ [C]) by exact Sa.
  destruct fast; cbn [fst snd].
  - rewrite Em. f_equal.
    assert (E2 : mean (group_axes n) false mask' (_abs_sq xa')
                 = reshape (mean (layer_axes n) false mask (_abs_sq xa))
                     [b; 1]).
    { apply mean_grouped with (C := C) (mid := mid); [|exact En|exact Gm].
      apply grouped_map_scalar. exact Gx. }
    rewrite E2.
    change (_abs_sq (reshape ?a ?s)) with (reshape (_abs_sq a) s).
    unfold sub. rewrite map2_reshape_unit.
    + reflexivity.
    + apply wf_mean.
    + apply wf_map_scalar, wf_mean.
    + apply So. exact Sxa.
    + unfold _abs_sq, square, map_scalar. cbn [shape]. now apply So.
  - rewrite Em. f_equal.
    apply mean_grouped with (C := C) (mid := mid); [|exact En|exact Gm].
    apply grouped_map_scalar.
    apply grouped_map2 with (g := b :: repeat 1 (length mid)) (D := 1).
    + exact Gx.
    + unfold grouped, expand_dims, reshape. cbn [dtype data shape ndim].
      rewrite (So xa Sxa). unfold ndim. cbn [shape]. rewrite (So xa Sxa).
      cbn [length].
      rewrite (@expand_shape_layer b n mid En),
              (@expand_shape_group b n mid En).
      repeat split; reflexivity.
    + apply sub_shape_keep.
Qed.

End GroupedStats.

(** ** The shapes the statistics are reshaped to *)

Lemma out_shape_keep_all (A : list Z) (p : nat) (s : Shape) :
  (forall q, p <= q < p + length s -> is_axis A q = true) ->
  out_shape A true p s = repeat 1 (length s).
Proof.
  revert p. induction s as [|d s IH]; intros p Hq; [reflexivity|].
  cbn [out_shape length repeat]. rewrite Hq by (simpl; lia).
  cbn [app]. f_equal. apply IH. intros q Hl. apply Hq. simpl. lia.
Qed.

Lemma nonneg_seq (a k : nat) :
  Forall (fun z => 0 <= z)%Z (map Z.of_nat (seq a k)).
Proof. apply Forall_forall. intros z Hz. apply in_map_iff in Hz as (i & <- & _). lia. Qed.

Lemma repeat_snoc (A : Type) (a : A) (k : nat) :
  repeat a (k + 1) = repeat a k ++ [a].
Proof. now rewrite repeat_app. Qed.

Lemma assign_axes_layer (b C n : nat) (mid : Shape) :
  n = length mid + 2 ->
  assign_axes (layer_axes n) (fun _ => 1) ((b :: mid) ++ [C])
  = (b :: repeat 1 (length mid)) ++ [1].
Proof.
  intros En. destruct (@layer_axes_at mid n En) as (A0 & _ & Aq & A1 & _).
  rewrite stats_shape_keep by apply nonneg_seq.
  cbn [app out_shape]. rewrite A0. f_equal.
  rewrite out_shape_keep_all.
  - rewrite length_app. apply repeat_snoc.
  - intros q Hq. rewrite length_app in Hq. simpl in Hq.
    destruct (Nat.eq_dec q (1 + length mid)) as [->|Nq]; [exact A1|].
    apply Aq. lia.
Qed.

Lemma assign_axes_inner (b C n : nat) (mid : Shape) :
  n = length mid + 2 ->
  assign_axes (map Z.of_nat (seq 1 (n - 2))) (fun _ => 1) ((b :: mid) ++ [C])
  = (b :: repeat 1 (length mid)) ++ [C].
Proof.
  intros En. rewrite stats_shape_keep by apply nonneg_seq.
  cbn [app out_shape]. rewrite is_axis_seq. cbn [Nat.leb andb]. f_equal.
  rewrite out_shape_app, out_shape_keep_all.
  - cbn [out_shape]. rewrite is_axis_seq.
    replace (1 + length mid <? 1 + (n - 2)) with false
      by (symmetry; apply Nat.ltb_ge; lia).
    now rewrite andb_false_r.
  - intros q Hq. rewrite is_axis_seq. apply andb_true_iff.
    split; [apply Nat.leb_le|apply Nat.ltb_lt]; lia.
Qed.

Lemma ravel_bidx_ones (k D c : nat) (j : list nat) :
  length j = k ->
  ravel (repeat 1 k ++ [D])
    (map (fun di : nat * nat => if fst di =? 1 then 0 else snd di)
       (combine (repeat 1 k ++ [D]) (j ++ [c])))
  = if D =? 1 then 0 else c.
Proof.
  revert j. induction k as [|k IH]; intros [|i j] L; try discriminate.
  - simpl. lia.
  - cbn [repeat app combine map ravel fst snd Nat.eqb].
    rewrite IH by (simpl in L; lia). lia.
Qed.

Lemma valid_inv (b C : nat) (mid : Shape) (idx : list nat) :
  valid ((b :: mid) ++ [C]) idx ->
  exists i j c,
    idx = i :: j ++ [c] /\ length j = length mid /\ i < b /\ c < C.
Proof.
  intros V. inversion V as [|? i ? r Hi Vr Es Ei].
  apply Forall2_app_inv_l in Vr as (j & t & Vj & Vt & Er).
  inversion Vt as [|? c ? t' Hc Vn Et Ec]. inversion Vn as [En Ex|].
  exists i, j, c. rewrite Er, <- Ec, <- Ex.
  split; [reflexivity|]. split; [|split; assumption].
  exact (valid_length Vj).
Qed.

(** Where a statistic reshaped to [b, 1, ..., 1, D] is read for an index
    of the input. *)
Lemma ravel_bidx_keep (b D i c : nat) (mid : Shape) (j : list nat) :
  length j = length mid ->
  ravel ((b :: repeat 1 (length mid)) ++ [D])
    (bidx ((b :: repeat 1 (length mid)) ++ [D]) (i :: j ++ [c]))
  = (if b =? 1 then 0 else i) * D + (if D =? 1 then 0 else c).
Proof.
  intros Lj.
  rewrite bidx_eq_length
    by (simpl; rewrite !length_app, repeat_length; simpl; lia).
  cbn [app combine map ravel fst snd].
  rewrite ravel_bidx_ones by exact Lj. now rewrite size_leading.
Qed.

Section SingleGroup.

Context {T : Type} `{Scalar T}.

(** The statistic of a batch entry, repeated over the channels of the only
    group, is read where [_normalize] reads the statistic itself. *)
Lemma bget_repeat (st : Array T) (b C : nat) (mid : Shape) (idx : list nat) :
  valid ((b :: mid) ++ [C]) idx ->
  bget (jnp_repeat (reshape st [b; 1]) C 1)
       ((b :: repeat 1 (length mid)) ++ [C]) idx
  = bget st ((b :: repeat 1 (length mid)) ++ [1]) idx.
Proof.
  intros V. destruct (valid_inv V) as (i & j & c & -> & Lj & Hi & Hc).
  unfold bget, get. cbn [shape data reshape].
  rewrite !ravel_bidx_keep by exact Lj.
  set (i' := if b =? 1 then 0 else i).
  set (c' := if C =? 1 then 0 else c).
  assert (Hi' : i' < b) by (unfold i'; destruct (b =? 1); lia).
  assert (Hc' : c' < C) by (unfold c'; destruct (C =? 1); lia).
  cbn [Nat.eqb]. rewrite Nat.mul_1_r, Nat.add_0_r.
  replace (i' * C + c') with (ravel [b; 1 * C] [i'; c']) by (simpl; lia).
  change (nth (ravel [b; 1 * C] [i'; c'])
            (data (jnp_repeat (reshape st [b; 1]) C 1)) s0)
    with (get (jnp_repeat (reshape st [b; 1]) C 1) [i'; c']).
  unfold jnp_repeat. rewrite get_tabulate.
  - cbn [repeat_idx]. rewrite Nat.div_small by exact Hc'.
    unfold get. cbn [shape data reshape]. f_equal. simpl. lia.
  - cbn [shape reshape repeat_shape].
    repeat constructor; cbv beta; lia.
Qed.

End SingleGroup.

Lemma size_keep (b D k : nat) :
  size ((b :: repeat 1 k) ++ [D]) = b * D.
Proof.
  change (size ((b :: repeat 1 k) ++ [D]))
    with (b * size (repeat 1 k ++ [D])).
  now rewrite size_leading.
Qed.

Section SingleGroupCall.

Context {T : Type} `{Scalar T}.

Lemma stats_shape_layer (b C n : nat) (mid : Shape) (x : Array T) :
  shape x = (b :: mid) ++ [C] -> n = length mid + 2 ->
  (Z.of_nat n < 2 ^ 58)%Z ->
  stats_shape_of x (AxSeq (layer_axes n))
  = (b :: repeat 1 (length mid)) ++ [1].
Proof.
  intros Sx En B. unfold stats_shape_of.
  assert (N : ndim x = n)
    by (unfold ndim; rewrite Sx, length_app; simpl; lia).
  rewrite N, canonicalize_axes_layer, Sx by exact B.
  now apply assign_axes_layer.
Qed.

Lemma stats_shape_inner (b C n : nat) (mid : Shape) (x : Array T) :
  shape x = (b :: mid) ++ [C] -> n = length mid + 2 ->
  (Z.of_nat n < 2 ^ 58)%Z ->
  stats_shape_of x (AxSeq (removelast (layer_axes n)))
  = (b :: repeat 1 (length mid)) ++ [C].
Proof.
  intros Sx En B. unfold stats_shape_of.
  assert (N : ndim x = n)
    by (unfold ndim; rewrite Sx, length_app; simpl; lia).
  rewrite N, canonicalize_axes_inner, Sx by (try exact B; lia).
  now apply assign_axes_inner.
Qed.

Lemma length_compute_stats_layer (b C n : nat) (mid : Shape) (x : Array T)
  (dt : option Dtype) (fast : bool) (mask : option Mask) :
  shape x = (b :: mid) ++ [C] -> n = length mid + 2 ->
  (Z.of_nat n < 2 ^ 58)%Z ->
  length (data (snd (_compute_stats x (AxSeq (layer_axes n)) dt true fast
                       mask)))
  = b.
Proof.
  intros Sx En B. unfold _compute_stats.
  set (d0 := promote_types _ float32).
  assert (N : ndim (asarray x d0) = n)
    by (unfold ndim, asarray; cbn [shape]; rewrite Sx, length_app; simpl;
        lia).
  rewrite N, canonicalize_axes_layer by exact B.
  set (xa := asarray x d0).
  assert (Sxa : shape xa = (b :: mid) ++ [C]) by exact Sx.
  assert (So : forall a, shape a = (b :: mid) ++ [C] ->
                 shape (mean (layer_axes n) false mask a) = [b]).
  { intros a Sh. unfold mean. cbn [shape sum tabulate]. rewrite Sh.
    exact (proj2 (@shapes_layer b C n mid En)). }
  destruct fast; cbn [snd].
  - unfold map_scalar, sub, map2, tabulate. cbn [data shape].
    rewrite !length_map, length_indices.
    unfold _abs_sq, square, map_scalar. cbn [shape].
    rewrite !So by assumption. rewrite bshape_same. simpl. lia.
  - rewrite (wf_mean _ _ _ _), So; [simpl; lia|].
    unfold _abs_sq, square, map_scalar, sub, map2, tabulate.
    cbn [shape]. unfold expand_dims, reshape. cbn [shape].
    unfold ndim. rewrite (So xa Sxa). cbn [length].
    rewrite (@expand_shape_layer b n mid En), Sxa.
    apply bshape_sub_r, sub_shape_keep.
Qed.

(** C1. GroupNorm with a single group returns what LayerNorm over the same
    axes returns, element for element, whatever the arithmetic of the
    elements: for an input of rank at least 2 whose last axis holds the
    channels of the group, a GroupNorm with [num_groups = 1] and the default
    reduction axes, and a LayerNorm reducing over all axes but the first
    with the same epsilon, scale, bias, dtype and variance mode; a mask, if
    given, has the channel axis last. *)
Theorem GroupNorm_single_group_is_LayerNorm
  (gn : GroupNorm.t T) (ln : LayerNorm.t T) (x : Array T)
  (mask : option Mask) :
  2 <= ndim x -> (Z.of_nat (ndim x) < 2 ^ 58)%Z ->
  GroupNorm.num_groups gn = 1%Z ->
  GroupNorm.group_size gn = Z.of_nat (last (shape x) 0) ->
  GroupNorm.feature_axis gn = (-1)%Z ->
  GroupNorm.reduction_axes gn = None ->
  LayerNorm.reduction_axes ln = AxSeq (layer_axes (ndim x)) ->
  LayerNorm.feature_axes ln = AxInt (-1) ->
  LayerNorm.epsilon ln = GroupNorm.epsilon gn ->
  LayerNorm.scale ln = GroupNorm.scale gn ->
  LayerNorm.bias ln = GroupNorm.bias gn ->
  LayerNorm.dtype_ ln = GroupNorm.dtype_ gn ->
  LayerNorm.use_fast_variance ln = GroupNorm.use_fast_variance gn ->
  channel_mask x mask ->
  GroupNorm.__call__ gn x mask = LayerNorm.__call__ ln x mask.
Proof.
  intros Hn B Hng Hgs Hfa Hra Hlr Hlf Hle Hls Hlb Hld Hlu Hm.
  assert (Ex : exists b mid C, shape x = (b :: mid) ++ [C]).
  { unfold ndim in Hn. destruct (shape x) as [|b s]; simpl in Hn; [lia|].
    destruct (@snoc_inv _ s (length s - 1)) as (mid & C & -> & _); [lia|].
    now exists b, mid, C. }
  destruct Ex as (b & mid & C & Sx).
  assert (En : ndim x = length mid + 2)
    by (unfold ndim; rewrite Sx, length_app; simpl; lia).
  assert (El : last (shape x) 0 = C) by (rewrite Sx; apply last_last).
  rewrite El in Hgs.
  unfold GroupNorm.__call__, LayerNorm.__call__. cbv zeta.
  rewrite Hng, Hgs, Hfa, Hra, Hlr, Hlf, Hle, Hls, Hlb, Hld, Hlu.
  change (Z.to_nat 1) with 1. rewrite Nat2Z.id.
  rewrite canonicalize_axes_default by assumption.
  set (n := ndim x) in *.
  set (mask' := match mask with
                | Some m => Some (mreshape m (removelast (mshape m) ++ [1; C]))
                | None => None
                end).
  assert (G : grouped (b :: mid) C x
                (reshape x (removelast (shape x) ++ [1; C])))
    by (apply grouped_reshape; exact Sx).
  assert (Gm : mgrouped C n mask mask').
  { unfold mask', mgrouped. destruct mask as [m|]; [|exact I].
    destruct Hm as (Lm & g & Sm). rewrite El in Sm.
    split; [reflexivity|]. split; [exact Lm|]. exists g.
    split; [exact Sm|]. unfold mreshape. cbn [mshape].
    now rewrite Sm, removelast_last. }
  rewrite (@compute_stats_grouped _ _ b C n mid x _
             (GroupNorm.dtype_ gn) (GroupNorm.use_fast_variance gn)
             mask mask' G En B Gm).
  pose proof (@length_compute_stats_layer b C n mid x (GroupNorm.dtype_ gn)
                (GroupNorm.use_fast_variance gn) mask Sx En B) as Lv.
  revert Lv.
  destruct (_compute_stats x (AxSeq (layer_axes n)) (GroupNorm.dtype_ gn)
              true (GroupNorm.use_fast_variance gn) mask) as [mu var].
  cbn [fst snd]. intros Lv.
  pose proof (@stats_shape_layer b C n mid x Sx En B) as Sl.
  pose proof (@stats_shape_inner b C n mid x Sx En B) as Si.
  rewrite (@normalize_spec _ _ x mu var)
    by (rewrite Sl, Lv, size_keep; lia).
  rewrite normalize_spec.
  - apply tabulate_ext. intros idx V. f_equal.
    unfold normalize_entry. rewrite Sl, Si.
    rewrite Sx in V. rewrite !(bget_repeat _ V). reflexivity.
  - rewrite Si, size_keep. unfold jnp_repeat, tabulate. cbn [data].
    rewrite length_map, length_indices. simpl. lia.
Qed.

End SingleGroupCall.

Lemma GroupNorm_single_group_is_LayerNorm_witness :
  GroupNorm.__call__ gn_example x23 None
  = LayerNorm.__call__ ln_example x23 None
  /\ GroupNorm.__call__ gn_example x23
       (Some (mkMask [3] [true; false; true]))
     = LayerNorm.__call__ ln_example x23
         (Some (mkMask [3] [true; false; true])).
Proof.
  split.
  - apply GroupNorm_single_group_is_LayerNorm;
      first [reflexivity | exact I | simpl; lia].
  - apply GroupNorm_single_group_is_LayerNorm;
      first [reflexivity | simpl; lia
            | split; [simpl; lia | exists []; reflexivity]].
Defined.
